(** * solution.js: dependency resolution, ordering and templating

    A shallow embedding of the template-creation and deployment core of
    solution.js, with the properties its specification states about it.

    The first part of the file holds the embedding, one module per
    component; the second part holds the lemmas and theorems. *)

From Stdlib Require Import Ascii.
From stdpp Require Import gmap strings list fin_maps relations pretty.

Set Default Proof Using "Type".
Set Warnings "-clear-no-such-hyp".

(** ** JavaScript control flow

    A call either returns a value or throws.  Recursive code is modelled
    with fuel; [OutOfFuel] is the third possibility of such a model and is
    shown unreachable wherever a result is claimed. *)

Inductive outcome (A : Type) : Type :=
| Returned (a : A)
| Threw (msg : string)
| OutOfFuel.

Arguments Returned {A} a.
Arguments Threw {A} msg.
Arguments OutOfFuel {A}.

(** [Array.prototype.forEach] with a callback that may throw: the first
    exception leaves the loop. *)
Fixpoint forEach {A S : Type} (l : list A) (f : A → S → outcome S) (s : S)
  : outcome S :=
  match l with
  | [] => Returned s
  | a :: l' =>
      match f a s with
      | Returned s' => forEach l' f s'
      | Threw msg => Threw msg
      | OutOfFuel => OutOfFuel
      end
  end.

(** ** JavaScript strings

    Strings are byte strings, the UTF-8 bytes of the JavaScript text; the
    functions below are the literal-text operations the code applies to
    ids, urls and serialized payloads. *)

Module JsString.

(** [s.startsWith(p)] *)
Fixpoint startsWith (s p : string) {struct p} : bool :=
  match p with
  | EmptyString => true
  | String a p' =>
      match s with
      | EmptyString => false
      | String b s' => if decide (a = b) then startsWith s' p' else false
      end
  end.

(** [s.includes(sub)] *)
Fixpoint includes (s sub : string) : bool :=
  startsWith s sub
  || match s with
     | EmptyString => false
     | String _ s' => includes s' sub
     end.

(** Left-to-right replacement of every occurrence of a non-empty [pat]:
    [skip] counts the characters of the current match still to be dropped. *)
Fixpoint replaceAllFrom (pat rep : string) (skip : nat) (s : string) : string :=
  match s with
  | EmptyString => EmptyString
  | String c s' =>
      match skip with
      | S k => replaceAllFrom pat rep k s'
      | 0 =>
          if startsWith (String c s') pat
          then rep +:+ replaceAllFrom pat rep (String.length pat - 1) s'
          else String c (replaceAllFrom pat rep 0 s')
      end
  end.

(** The empty pattern matches before every character and at the end. *)
Fixpoint replaceAllEmpty (rep : string) (s : string) : string :=
  match s with
  | EmptyString => rep
  | String c s' => rep +:+ String c (replaceAllEmpty rep s')
  end.

(** [s.split(pat).join(rep)], the replacement of all occurrences of the
    text [pat] in [s] by [rep]. *)
Definition replaceAll (pat rep s : string) : string :=
  match pat with
  | EmptyString => replaceAllEmpty rep s
  | String _ _ => replaceAllFrom pat rep 0 s
  end.

(** [s.substring(n)] *)
Fixpoint dropChars (n : nat) (s : string) : string :=
  match n, s with
  | S n', String _ s' => dropChars n' s'
  | _, _ => s
  end.

(** [s.replace(pat, rep)] with a string pattern: the first occurrence only. *)
Fixpoint replaceFirst (pat rep s : string) {struct s} : string :=
  if startsWith s pat then rep +:+ dropChars (String.length pat) s
  else match s with
       | EmptyString => EmptyString
       | String c s' => String c (replaceFirst pat rep s')
       end.

End JsString.

(** ** Reference Templatizer *)

Module Templatizer.
Import JsString.

(** Modelled from the spec: [templatizeTerm] and [replaceInTemplate] belong
    to the common package, which is not among the source files.  The
    specification gives the placeholder syntax [{{<key><.suffix>}}] and
    describes templatizing as the textual replacement of an identifier by
    its placeholder, and de-templatizing as one mapping lookup plus string
    substitution per known placeholder, over every occurrence in the
    serialized payload.  A placeholder whose key the dictionary does not
    hold stays in the text: [createItemFromTemplate] of the group module
    de-templatizes once before the new id is known and again after. *)

Definition templatizeTerm (context term suffix : string) : string :=
  replaceAll term ("{{" +:+ term +:+ suffix +:+ "}}") context.

(** The template dictionary: the keys in insertion order, each with its
    properties ([itemId], [url], ...). *)
Definition templateDictionary : Type := list (string * list (string * string)).

Definition placeholdersOf (entry : string * list (string * string))
  : list (string * string) :=
  (λ pv, ("{{" +:+ entry.1 +:+ "." +:+ pv.1 +:+ "}}", pv.2)) <$> entry.2.

Definition knownPlaceholders (dictionary : templateDictionary)
  : list (string * string) :=
  dictionary ≫= placeholdersOf.

Definition replaceInTemplate (template : string) (dictionary : templateDictionary)
  : string :=
  foldl (λ text pv, replaceAll pv.1 pv.2 text) template (knownPlaceholders dictionary).

End Templatizer.

(** ** Topological Sequencer *)

Module Sequencer.

(** Modelled from the spec: [topologicallySortItems] is not among the
    source files (only its tests are).  The specification describes it as a
    depth-first postorder with a visiting/visited/unvisited tri-colour
    marker, which reports a cyclic graph when the search revisits a vertex
    currently marked as visiting, ignores dependencies that are not in the
    input set, and breaks ties by input order.  The names follow the tests
    and the error text they expect. *)

Inductive SortVisitColor : Type :=
| White  (* not yet visited *)
| Gray   (* visited, in progress *)
| Black. (* finished *)

#[global] Instance SortVisitColor_eq_dec : EqDecision SortVisitColor.
Proof. solve_decision. Defined.

(** The input object [{id: {dependencies: id[]}}]: its keys in insertion
    order, each with its dependency list. *)
Definition IItemHash : Type := list (string * list string).

Definition cyclicalMessage : string := "Cyclical dependency graph detected".

(** [items[vertexId].dependencies] *)
Fixpoint dependenciesOf (items : IItemHash) (vertexId : string) : list string :=
  match items with
  | [] => []
  | (k, deps) :: items' =>
      if decide (k = vertexId) then deps else dependenciesOf items' vertexId
  end.

Record sortState : Type := {
  verticesToVisit : gmap string SortVisitColor;
  buildList : list string
}.

Definition setColor (vertexId : string) (c : SortVisitColor) (st : sortState)
  : sortState :=
  {| verticesToVisit := <[vertexId := c]> (verticesToVisit st);
     buildList := buildList st |}.

Definition pushVertex (vertexId : string) (st : sortState) : sortState :=
  {| verticesToVisit := verticesToVisit st;
     buildList := buildList st ++ [vertexId] |}.

(** One dependency of the vertex being visited: descend into an unvisited
    one, fail on one that is in progress, skip a finished or unknown one. *)
Definition visitDependency (visit : string → sortState → outcome sortState)
  (dependencyId : string) (st : sortState) : outcome sortState :=
  match verticesToVisit st !! dependencyId with
  | Some White => visit dependencyId st
  | Some Gray => Threw cyclicalMessage
  | _ => Returned st
  end.

Fixpoint visit (fuel : nat) (items : IItemHash) (vertexId : string)
  (st : sortState) : outcome sortState :=
  match fuel with
  | 0 => OutOfFuel
  | S fuel' =>
      match forEach (dependenciesOf items vertexId)
                    (visitDependency (visit fuel' items))
                    (setColor vertexId Gray st) with
      | Returned st' => Returned (pushVertex vertexId (setColor vertexId Black st'))
      | Threw msg => Threw msg
      | OutOfFuel => OutOfFuel
      end
  end.

(** The outer loop starts a search at every vertex that is still unvisited
    when its turn comes. *)
Definition visitIfWhite (fuel : nat) (items : IItemHash) (vertexId : string)
  (st : sortState) : outcome sortState :=
  match verticesToVisit st !! vertexId with
  | Some White => visit fuel items vertexId st
  | _ => Returned st
  end.

Definition initialState (items : IItemHash) : sortState :=
  {| verticesToVisit := foldl (λ m k, <[k := White]> m) ∅ items.*1;
     buildList := [] |}.

(** A search never nests deeper than the number of vertices. *)
Definition sortFuel (items : IItemHash) : nat := S (length items).

Definition topologicallySortItems (items : IItemHash) : outcome (list string) :=
  match forEach items.*1 (visitIfWhite (sortFuel items) items)
                (initialState items) with
  | Returned st => Returned (buildList st)
  | Threw msg => Threw msg
  | OutOfFuel => OutOfFuel
  end.

(** [T] depends on [d], and both are in the input set. *)
Definition edge (items : IItemHash) (T d : string) : Prop :=
  T ∈ items.*1 ∧ d ∈ dependenciesOf items T ∧ d ∈ items.*1.

Definition cyclic (items : IItemHash) : Prop := ∃ v, tc (edge items) v v.

(** [a] appears strictly before [b] in [order]. *)
Definition before (order : list string) (a b : string) : Prop :=
  ∃ i j, order !! i = Some a ∧ order !! j = Some b ∧ i < j.

End Sequencer.

(** ** Dependency Resolver *)

Module Resolver.
Import JsString.

(** The part of an item template the resolver reads and writes. *)
Record IItemTemplate : Type := {
  itemId : string;
  type : string;
  dependencies : list string
}.

(** The base metadata that [getItem] and [getGroup] answer with. *)
Record ItemInfo : Type := {
  id : string;
  infoType : string;
  tags : list string;
  extent : option string        (* [None]: missing or [null]; [Some ""]: a falsy extent *)
}.

#[global] Instance IItemTemplate_eq_dec : EqDecision IItemTemplate.
Proof. solve_decision. Defined.

#[global] Instance ItemInfo_eq_dec : EqDecision ItemInfo.
Proof. solve_decision. Defined.

(** Modelled from the spec: [createPlaceholderTemplate] belongs to the
    common package, which is not among the source files.  A placeholder is
    a template of which only the id is known: no content has been fetched
    and no dependency enumerated. *)
Definition createPlaceholderTemplate (id : string) : IItemTemplate :=
  {| itemId := id; type := ""; dependencies := [] |}.

(** Modelled from the spec: [findTemplateIndexInList] and
    [findTemplateInList] belong to the common package as well; the store is
    looked up by id.  [None] stands for the index [-1] and for [null]. *)
Definition findTemplateIndexInList (templates : list IItemTemplate) (id : string)
  : option nat :=
  fst <$> list_find (λ template, itemId template = id) templates.

Definition findTemplateInList (templates : list IItemTemplate) (id : string)
  : option IItemTemplate :=
  snd <$> list_find (λ template, itemId template = id) templates.

Definition _replaceTemplate (templates : list IItemTemplate) (id : string)
  (template : IItemTemplate) : list IItemTemplate * bool :=
  match findTemplateIndexInList templates id with
  | Some i => (<[i := template]> templates, true)
  | None => (templates, false)
  end.

(** The modules with type-specific template-handling code. *)
Inductive handlerModule : Type := simpleTypes | featureLayer.

#[global] Instance handlerModule_eq_dec : EqDecision handlerModule.
Proof. solve_decision. Defined.

(** Mapping from item type to module; [None] is the table's [null]. *)
Definition moduleMapEntries : list (string * option handlerModule) :=
  [
    ("360 vr experience", None); ("3d web scene", None);
    ("appbuilder extension", None); ("application configuration", None);
    ("application", None); ("arcgis pro add in", None);
    ("arcgis pro configuration", None); ("arcpad package", None);
    ("basemap package", None); ("big data analytic", None);
    ("cad drawing", None); ("cityengine web scene", None);
    ("code attachment", None); ("code sample", None); ("color set", None);
    ("compact tile package", None); ("csv collection", None); ("csv", None);
    ("dashboard", Some simpleTypes); ("data store", None);
    ("deep learning package", None); ("default", None);
    ("desktop add in", None); ("desktop application template", None);
    ("desktop application", None); ("desktop style", None);
    ("document link", None); ("elevation layer", None);
    ("excalibur imagery project", None); ("explorer add in", None);
    ("explorer layer", None); ("explorer map", None);
    ("feature collection template", None); ("feature collection", None);
    ("feature service", Some featureLayer); ("feed", None);
    ("file geodatabase", None); ("form", Some simpleTypes);
    ("geocoding service", None); ("geodata service", None); ("geojson", None);
    ("geometry service", None); ("geopackage", None);
    ("geoprocessing package", None); ("geoprocessing sample", None);
    ("geoprocessing service", None); ("globe document", None);
    ("globe service", None); ("group", Some simpleTypes);
    ("hub initiative", None); ("hub page", None);
    ("hub site application", None); ("image collection", None);
    ("image service", None); ("image", None); ("insights model", None);
    ("insights page", None); ("insights theme", None);
    ("insights workbook", None); ("iwork keynote", None);
    ("iwork numbers", None); ("iwork pages", None); ("kml collection", None);
    ("kml", None); ("layer package", None); ("layer template", None);
    ("layer", None); ("layout", None); ("locator package", None);
    ("map document", None); ("map image layer", None); ("map package", None);
    ("map service", None); ("map template", None); ("markup", None);
    ("microsoft excel", None); ("microsoft powerpoint", None);
    ("microsoft word", None); ("mission", None); ("mobile application", None);
    ("mobile basemap package", None); ("mobile map package", None);
    ("mobile scene package", None); ("native application installer", None);
    ("native application template", None); ("native application", None);
    ("netcdf", None); ("network analysis service", None); ("notebook", None);
    ("operation view", None); ("operations dashboard add in", None);
    ("operations dashboard extension", None); ("ortho mapping project", None);
    ("pdf", None); ("pro layer package", None); ("pro layer", None);
    ("pro map package", None); ("pro map", None); ("pro report", None);
    ("project package", None); ("project template", None);
    ("published map", None); ("quickcapture project", None);
    ("raster function template", None); ("real time analytic", None);
    ("relational database connection", None); ("report template", None);
    ("route layer", None); ("rule package", None); ("scene document", None);
    ("scene layer package", None); ("scene service", None);
    ("shapefile", None); ("site application", None);
    ("site initiative", None); ("site page", None); ("solution", None);
    ("statistical data collection", None); ("storymap", None);
    ("stream service", None); ("style", None); ("survey123 add in", None);
    ("symbol set", None); ("table", None); ("task file", None);
    ("tile package", None); ("tool", None); ("toolbox package", None);
    ("urban model", None); ("vector tile package", None);
    ("vector tile service", None); ("viewer configuration", None);
    ("visio document", None); ("web experience template", None);
    ("web experience", None); ("web map", Some simpleTypes);
    ("web mapping application", Some simpleTypes); ("web scene", None);
    ("wfs", None); ("window mobile package", None);
    ("windows mobile package", None); ("windows viewer add in", None);
    ("windows viewer configuration", None); ("wms", None); ("wmts", None);
    ("workflow manager package", None); ("workflow manager service", None);
    ("workforce project", None)
  ].

Fixpoint lookupEntry (entries : list (string * option handlerModule)) (key : string)
  : option (option handlerModule) :=
  match entries with
  | [] => None
  | (k, v) :: entries' => if decide (k = key) then Some v else lookupEntry entries' key
  end.

(** What [moduleMap[key]] evaluates to. *)
Inductive tableValue : Type :=
| Undefined               (* the table has no such key *)
| Null                    (* a type without a module *)
| Module (m : handlerModule)
| Inherited.              (* a property of [Object.prototype] *)

(** The properties every object literal inherits. *)
Definition inheritedKeys : list string :=
  ["constructor"; "__defineGetter__"; "__defineSetter__"; "hasOwnProperty";
   "__lookupGetter__"; "__lookupSetter__"; "isPrototypeOf"; "propertyIsEnumerable";
   "toString"; "valueOf"; "__proto__"; "toLocaleString"].

Definition moduleMap (key : string) : tableValue :=
  match lookupEntry moduleMapEntries key with
  | Some (Some m) => Module m
  | Some None => Null
  | None => if decide (key ∈ inheritedKeys) then Inherited else Undefined
  end.

(** [String.prototype.toLowerCase], on the ASCII letters. *)
Definition lowerAscii (c : ascii) : ascii :=
  let n := nat_of_ascii c in
  if bool_decide (65 ≤ n ≤ 90) then ascii_of_nat (n + 32) else c.

Fixpoint toLowerCase (s : string) : string :=
  match s with
  | EmptyString => EmptyString
  | String c s' => String (lowerAscii c) (toLowerCase s')
  end.

(** Where the promise of one [createItemTemplate] call is waiting. *)
Inductive continuation : Type :=
| AwaitGetItem (itemId : string)
| AwaitThumbnailBlob (thumbnailUrl : string)
| AwaitAddThumbnail (blob : string)
| AwaitConvert (itemHandler : handlerModule) (itemInfo : ItemInfo)
| AwaitGetGroup (itemId : string)
| AwaitGroupConvert (itemInfo : ItemInfo)
| AwaitAll (dependentDfds : list nat)
| AwaitNothing.

#[global] Instance continuation_eq_dec : EqDecision continuation.
Proof. solve_decision. Defined.

Inductive promiseState : Type :=
| Waiting (k : continuation)
| Resolved
| Rejected.

#[global] Instance promiseState_eq_dec : EqDecision promiseState.
Proof. solve_decision. Defined.

Inductive consoleEntry : Type :=
| ConsoleWarn (msg : string)
| ConsoleLog (msg : string).

(** The shared objects of one resolution run: the template store that all
    calls push to and replace in, one promise per call of
    [createItemTemplate] in the order of the calls, the thumbnails set on
    items of the destination, and the console. *)
Record state : Type := {
  existingTemplates : list IItemTemplate;
  promises : list promiseState;
  itemThumbnails : gmap string string;
  console : list consoleEntry
}.

(** The arguments every call of one run passes on unchanged. *)
Record runArguments : Type := {
  solutionItemId : string;
  portal : string
}.

Definition withTemplates (templates : list IItemTemplate) (s : state) : state :=
  {| existingTemplates := templates; promises := promises s;
     itemThumbnails := itemThumbnails s; console := console s |}.

Definition setPromise (p : nat) (ps : promiseState) (s : state) : state :=
  {| existingTemplates := existingTemplates s; promises := <[p := ps]> (promises s);
     itemThumbnails := itemThumbnails s; console := console s |}.

Definition newPromise (ps : promiseState) (s : state) : state * nat :=
  ({| existingTemplates := existingTemplates s; promises := promises s ++ [ps];
      itemThumbnails := itemThumbnails s; console := console s |},
   length (promises s)).

Definition writeConsole (entry : consoleEntry) (s : state) : state :=
  {| existingTemplates := existingTemplates s; promises := promises s;
     itemThumbnails := itemThumbnails s; console := console s ++ [entry] |}.

Definition setThumbnail (itemId blob : string) (s : state) : state :=
  {| existingTemplates := existingTemplates s; promises := promises s;
     itemThumbnails := <[itemId := blob]> (itemThumbnails s); console := console s |}.

(** The synchronous part of [createItemTemplate]: the promise executor
    runs at once, up to the call of [getItem]. *)
Definition createItemTemplate (itemId : string) (s : state) : state * nat :=
  match findTemplateInList (existingTemplates s) itemId with
  | Some _ => newPromise Resolved s
  | None =>
      newPromise (Waiting (AwaitGetItem itemId))
        (withTemplates (existingTemplates s ++ [createPlaceholderTemplate itemId]) s)
  end.

(** The body of [itemTemplate.dependencies.forEach]. *)
Definition startDependency (acc : state * list nat) (dependentId : string)
  : state * list nat :=
  match findTemplateInList (existingTemplates acc.1) dependentId with
  | Some _ => acc
  | None =>
      let '(s', dfd) := createItemTemplate dependentId acc.1 in
      (s', acc.2 ++ [dfd])
  end.

(** The answer of a converter: the placeholder is replaced and the
    dependencies are traced. *)
Definition onConverted (p : nat) (itemTemplate : IItemTemplate) (s : state) : state :=
  let s1 := withTemplates
              (_replaceTemplate (existingTemplates s) (itemId itemTemplate) itemTemplate).1 s in
  if decide (length (dependencies itemTemplate) = 0) then setPromise p Resolved s1
  else
    let '(s2, dependentDfds) := foldl startDependency (s1, []) (dependencies itemTemplate) in
    setPromise p (Waiting (AwaitAll dependentDfds)) s2.

(** [if (common.getProp(itemInfo, "extent"))]: an extent that is missing
    or falsy, as the empty text is, stays as it is. *)
Definition templatizeExtent (itemInfo : ItemInfo) : ItemInfo :=
  match extent itemInfo with
  | Some itemExtent =>
      if bool_decide (itemExtent ≠ "") then
        {| id := id itemInfo; infoType := infoType itemInfo; tags := tags itemInfo;
           extent := Some "{{solutionItemExtent}}" |}
      else itemInfo
  | None => itemInfo
  end.

(** The answer of [getItem]. *)
Definition onItemFetched (args : runArguments) (p : nat) (itemId : string)
  (fetched : ItemInfo) (s : state) : state :=
  let itemInfo := templatizeExtent fetched in
  if decide ("deploy.thumbnail" ∈ tags itemInfo) then
    setPromise p
      (Waiting (AwaitThumbnailBlob (portal args +:+ "/content/items/" +:+ itemId +:+ "/data"))) s
  else
    match moduleMap (toLowerCase (infoType itemInfo)) with
    | Module itemHandler =>
        setPromise p (Waiting (AwaitConvert itemHandler itemInfo))
          (writeConsole
             (ConsoleLog ("Templatizing item type (module level) " +:+ infoType itemInfo
                          +:+ " for " +:+ id itemInfo)) s)
    | Inherited =>
        (* [itemHandler.convertItemToTemplate] is not a function: the callback
           throws after logging, and nothing settles the promise *)
        setPromise p (Waiting AwaitNothing)
          (writeConsole
             (ConsoleLog ("Templatizing item type (module level) " +:+ infoType itemInfo
                          +:+ " for " +:+ id itemInfo)) s)
    | Null | Undefined =>
        setPromise p Resolved
          (writeConsole
             (ConsoleWarn ("Unimplemented item type (module level) " +:+ infoType itemInfo
                           +:+ " for " +:+ id itemInfo)) s)
    end.

(** [Promise.all(dependentDfds)] settles once one of the promises has
    rejected or all of them have resolved. *)
Definition anyRejected (promises : list promiseState) (dfds : list nat) : bool :=
  bool_decide (Exists (λ q, promises !! q = Some Rejected) dfds).

Definition allResolved (promises : list promiseState) (dfds : list nat) : bool :=
  bool_decide (Forall (λ q, promises !! q = Some Resolved) dfds).

(** What the collaborators answer. *)
Inductive response : Type :=
| ItemFetched (itemInfo : ItemInfo)
| ItemFetchFailed
| BlobFetched (blob : string)
| BlobFetchFailed
| ThumbnailAdded
| ThumbnailAddFailed
| Converted (itemTemplate : IItemTemplate)
| ConversionFailed
| GroupFetched (itemInfo : ItemInfo)
| GroupFetchFailed
| AllSettled.

(** One callback of the call with promise [p], run to completion on the
    answer [r]; [None] when the call is not waiting for such an answer. *)
Definition step (args : runArguments) (p : nat) (r : response) (s : state)
  : option state :=
  match promises s !! p with
  | Some (Waiting k) =>
      match k, r with
      | AwaitGetItem itemId, ItemFetched itemInfo =>
          Some (onItemFetched args p itemId itemInfo s)
      | AwaitGetItem itemId, ItemFetchFailed =>
          Some (setPromise p (Waiting (AwaitGetGroup itemId)) s)
      | AwaitThumbnailBlob _, BlobFetched blob =>
          Some (setPromise p (Waiting (AwaitAddThumbnail blob)) s)
      | AwaitThumbnailBlob _, BlobFetchFailed => Some (setPromise p Resolved s)
      | AwaitAddThumbnail blob, ThumbnailAdded =>
          Some (setPromise p Resolved (setThumbnail (solutionItemId args) blob s))
      | AwaitAddThumbnail _, ThumbnailAddFailed => Some (setPromise p Resolved s)
      | AwaitConvert _ _, Converted itemTemplate => Some (onConverted p itemTemplate s)
      | AwaitConvert _ _, ConversionFailed => Some (setPromise p Rejected s)
      | AwaitGetGroup _, GroupFetched itemInfo =>
          Some (setPromise p (Waiting (AwaitGroupConvert itemInfo)) s)
      | AwaitGetGroup _, GroupFetchFailed => Some (setPromise p Rejected s)
      | AwaitGroupConvert _, Converted itemTemplate => Some (onConverted p itemTemplate s)
      | AwaitGroupConvert _, ConversionFailed => Some (setPromise p Rejected s)
      | AwaitAll dependentDfds, AllSettled =>
          if anyRejected (promises s) dependentDfds then Some (setPromise p Rejected s)
          else if allResolved (promises s) dependentDfds then Some (setPromise p Resolved s)
          else None
      | _, _ => None
      end
  | _ => None
  end.

(** A collaborator answers about what it was asked: the item or group
    fetched has the id requested, and a converter returns the template of
    the item it was given. *)
Definition answersRequest (k : continuation) (r : response) : Prop :=
  match k, r with
  | AwaitGetItem itemId, ItemFetched itemInfo => id itemInfo = itemId
  | AwaitGetGroup itemId, GroupFetched itemInfo => id itemInfo = itemId
  | AwaitConvert _ itemInfo, Converted itemTemplate => Resolver.itemId itemTemplate = id itemInfo
  | AwaitGroupConvert itemInfo, Converted itemTemplate => Resolver.itemId itemTemplate = id itemInfo
  | _, _ => True
  end.

(** The states a run can pass through from [s0]: the caller resolves
    further ids, and the answers of the collaborators arrive in any order. *)
Inductive reachable (args : runArguments) (s0 : state) : state → Prop :=
| reach_start : reachable args s0 s0
| reach_call s itemId :
    reachable args s0 s → reachable args s0 (createItemTemplate itemId s).1
| reach_step s p r s' :
    reachable args s0 s → step args p r s = Some s' → reachable args s0 s'.

(** The same, with collaborators that answer about what they were asked. *)
Inductive reachableAnswering (args : runArguments) (s0 : state) : state → Prop :=
| answering_start : reachableAnswering args s0 s0
| answering_call s itemId :
    reachableAnswering args s0 s →
    reachableAnswering args s0 (createItemTemplate itemId s).1
| answering_step s p k r s' :
    reachableAnswering args s0 s →
    promises s !! p = Some (Waiting k) → answersRequest k r →
    step args p r s = Some s' → reachableAnswering args s0 s'.

(** A run in which the answers arrive in the given order. *)
Fixpoint runAnswers (args : runArguments) (answers : list (nat * response))
  (s : state) : option state :=
  match answers with
  | [] => Some s
  | (p, r) :: answers' =>
      match step args p r s with
      | Some s' => runAnswers args answers' s'
      | None => None
      end
  end.

Definition emptyRun : state :=
  {| existingTemplates := []; promises := []; itemThumbnails := ∅; console := [] |}.

(** The entries of the store for one id. *)
Definition entriesFor (itemId : string) (s : state) : list IItemTemplate :=
  filter (λ template, Resolver.itemId template = itemId) (existingTemplates s).

End Resolver.

(** ** Promises that have run their course *)

(** What becomes of a promise once the collaborators have answered: it is
    fulfilled with a value, rejected with a reason, or left pending for
    good when no callback ever settles it. *)
Inductive promise (A : Type) : Type :=
| Fulfilled (a : A)
| RejectedWith (reason : string)
| Pending.

Arguments Fulfilled {A} a.
Arguments RejectedWith {A} reason.
Arguments Pending {A}.

#[global] Instance promise_eq_dec {A : Type} `{EqDecision A} : EqDecision (promise A).
Proof. solve_decision. Defined.

(** [p.then(onFulfilled, onRejected)] *)
Definition thenElse {A B : Type} (p : promise A) (onFulfilled : A → promise B)
  (onRejected : string → promise B) : promise B :=
  match p with
  | Fulfilled a => onFulfilled a
  | RejectedWith reason => onRejected reason
  | Pending => Pending
  end.

(** [Promise.all]: fulfilled with all values in order, or rejected with
    the reason of a rejected promise. *)
Fixpoint Promise_all {A : Type} (ps : list (promise A)) : promise (list A) :=
  match ps with
  | [] => Fulfilled []
  | p :: ps' =>
      match p, Promise_all ps' with
      | RejectedWith reason, _ => RejectedWith reason
      | _, RejectedWith reason => RejectedWith reason
      | Fulfilled a, Fulfilled l => Fulfilled (a :: l)
      | _, _ => Pending
      end
  end.

(** ** Resource helpers *)

Module Resources.
Import JsString.

Record ISourceFileCopyPath : Type := {
  url : string;
  folder : string;
  filename : string
}.

(** What [getBlob] fetched: the MIME type, and for textual content what
    the [try] block of [copyResource] finds: [None] when [JSON.parse] or
    the read of [json.error] throws (a text that is not JSON, or the JSON
    [null]), otherwise whether [json.error] is truthy.  A JSON value
    without an [error] property, or with one that is [false], [0], [null]
    or the empty text, is [Some false]. *)
Record Blob : Type := {
  blobType : string;
  jsonErrorTruthy : option bool
}.

(** The portal, as far as copying files goes. *)
Record portalAnswers : Type := {
  getBlob : string → promise Blob;
  addItemResource : string → string → string → Blob → promise unit
}.

Definition failReason : string := "fail".
Definition extensionReason : string :=
  "Filename must have an extension indicating its type".

Definition addResourceFromBlob (portal : portalAnswers) (blob : Blob)
  (itemId folder filename : string) : promise unit :=
  if bool_decide (filename ≠ "") && negb (includes filename ".")
  then RejectedWith extensionReason
  else addItemResource portal itemId folder filename blob.

Definition copyResource (portal : portalAnswers) (sourceUrl : string)
  (itemId folder filename : string) : promise unit :=
  thenElse (getBlob portal sourceUrl)
    (λ blob,
       let add :=
         thenElse (addResourceFromBlob portal blob itemId folder filename)
           Fulfilled (λ _, RejectedWith failReason) in
       if startsWith (blobType blob) "text/plain"
          || bool_decide (blobType blob = "application/json")
       then match jsonErrorTruthy blob with
            | Some false => add
            | Some true | None => RejectedWith ""
            end
       else add)
    (λ _, RejectedWith failReason).

(** The promise of one file: both callbacks resolve it. *)
Definition copyThisFile (portal : portalAnswers) (storageItemId : string)
  (filePath : ISourceFileCopyPath) : promise string :=
  thenElse
    (copyResource portal (url filePath) storageItemId (folder filePath) (filename filePath))
    (λ _, Fulfilled (folder filePath +:+ "/" +:+ filename filePath))
    (λ _, Fulfilled "").

(** The outer promise has no [reject]: were [Promise.all] to reject, it
    would stay pending. *)
Definition copyFilesToStorageItem (portal : portalAnswers)
  (filePaths : list ISourceFileCopyPath) (storageItemId : string)
  : promise (list string) :=
  thenElse (Promise_all (copyThisFile portal storageItemId <$> filePaths))
    Fulfilled (λ _, Pending).

(** [!!item] for a string *)
Definition truthy (item : string) : Prop := item ≠ "".

#[global] Instance truthy_dec (item : string) : Decision (truthy item).
Proof. unfold truthy. apply _. Defined.

(** What both callers make of the saved names: [storeItemResources], and
    [convertItemToTemplate] of the group module, which also passes a
    rejection on. *)
Definition storedResources (portal : portalAnswers)
  (filePaths : list ISourceFileCopyPath) (solutionItemId : string)
  : promise (list string) :=
  thenElse (copyFilesToStorageItem portal filePaths solutionItemId)
    (λ savedResourceFilenames, Fulfilled (filter truthy savedResourceFilenames))
    RejectedWith.

(** The copy of one file has succeeded. *)
Definition copied (portal : portalAnswers) (storageItemId : string)
  (filePath : ISourceFileCopyPath) : Prop :=
  copyResource portal (url filePath) storageItemId (folder filePath) (filename filePath)
  = Fulfilled ().

#[global] Instance copied_dec (portal : portalAnswers) (storageItemId : string)
  (filePath : ISourceFileCopyPath) : Decision (copied portal storageItemId filePath).
Proof. unfold copied. apply _. Defined.

(** Every request of the portal is answered. *)
Definition answers (portal : portalAnswers) : Prop :=
  (∀ u, getBlob portal u ≠ Pending)
  ∧ (∀ itemId folder filename blob,
       addItemResource portal itemId folder filename blob ≠ Pending).

End Resources.

(** ** Deployment of groups *)

Module GroupDeploy.
Import JsString Templatizer.

(** The [item] section of a group template. *)
Record groupItem : Type := {
  id : string;
  title : string;
  access : string
}.

Record IItemTemplate : Type := {
  itemId : string;
  type : string;
  item : groupItem
}.

(** [templateDictionary[key]] *)
Fixpoint dictionaryGet (dictionary : templateDictionary) (key : string)
  : option (list (string * string)) :=
  match dictionary with
  | [] => None
  | (k, entry) :: dictionary' =>
      if decide (k = key) then Some entry else dictionaryGet dictionary' key
  end.

(** [templateDictionary[key] = entry]: an existing key keeps its place. *)
Fixpoint dictionarySet (key : string) (entry : list (string * string))
  (dictionary : templateDictionary) : templateDictionary :=
  match dictionary with
  | [] => [(key, entry)]
  | (k, e) :: dictionary' =>
      if decide (k = key) then (k, entry) :: dictionary'
      else (k, e) :: dictionarySet key entry dictionary'
  end.

(** [entry[property] = value] *)
Fixpoint entrySet (property value : string) (entry : list (string * string))
  : list (string * string) :=
  match entry with
  | [] => [(property, value)]
  | (k, v) :: entry' =>
      if decide (k = property) then (k, value) :: entry'
      else (k, v) :: entrySet property value entry'
  end.

(** [templateDictionary[key].itemId = value], for a key that is present. *)
Definition dictionarySetItemId (key value : string) (dictionary : templateDictionary)
  : templateDictionary :=
  match dictionaryGet dictionary key with
  | Some entry => dictionarySet key (entrySet "itemId" value entry) dictionary
  | None => dictionary
  end.

(** De-templatizing a template substitutes in every string it holds. *)
Definition replaceInItemTemplate (template : IItemTemplate)
  (dictionary : templateDictionary) : IItemTemplate :=
  {| itemId := replaceInTemplate (itemId template) dictionary;
     type := replaceInTemplate (type template) dictionary;
     item := {| id := replaceInTemplate (id (item template)) dictionary;
                title := replaceInTemplate (title (item template)) dictionary;
                access := replaceInTemplate (access (item template)) dictionary |} |}.

(** The answer of [createGroup]. *)
Record createGroupResponse : Type := {
  success : bool;
  groupId : string
}.

(** What the destination answers while one group is deployed. *)
Record deployAnswers : Type := {
  createGroup : groupItem → promise createGroupResponse;
  copyFilesFromStorageItem : list string → string → promise bool
}.

Record ICreateItemFromTemplateResponse : Type := {
  createdId : string;
  createdType : string
}.

(** The dictionary is shared with the caller, so it is part of what a call
    leaves behind, together with the number of progress ticks. *)
Record deployState : Type := {
  templateDictionaryOf : templateDictionary;
  progressTicks : nat
}.

Section createItemFromTemplate.

(** [getUniqueTitle] of the common package is not among the source files;
    it reads the titles of the user's groups from the dictionary. *)
Variable getUniqueTitle : string → templateDictionary → string → string.

(** The item that is handed to [createGroup]. *)
Definition groupToCreate (template : IItemTemplate)
  (templateDictionary : templateDictionary) : groupItem :=
  let newItemTemplate := replaceInItemTemplate template templateDictionary in
  {| id := id (item newItemTemplate);
     title := getUniqueTitle (title (item newItemTemplate)) templateDictionary "user.groups";
     access := "private" |}.

Definition createItemFromTemplate (template : IItemTemplate)
  (resourceFilePaths : list string) (destination : deployAnswers) (st : deployState)
  : deployState * promise ICreateItemFromTemplateResponse :=
  let templateDictionary := templateDictionaryOf st in
  let newItemTemplate := replaceInItemTemplate template templateDictionary in
  let newItem := groupToCreate template templateDictionary in
  match createGroup destination newItem with
  | Fulfilled createResponse =>
      let ticked := S (progressTicks st) in
      if success createResponse then
        let created :=
          {| itemId := groupId createResponse; type := type newItemTemplate;
             item := newItem |} in
        let written :=
          dictionarySet (itemId template) [("itemId", groupId createResponse)]
            templateDictionary in
        let updated := replaceInItemTemplate created written in
        match copyFilesFromStorageItem destination resourceFilePaths
                (groupId createResponse) with
        | Fulfilled _ =>
            ({| templateDictionaryOf :=
                  dictionarySetItemId (itemId template) (groupId createResponse) written;
                progressTicks := ticked |},
             Fulfilled {| createdId := groupId createResponse;
                          createdType := type updated |})
        | RejectedWith _ =>
            ({| templateDictionaryOf := written; progressTicks := ticked |},
             RejectedWith Resources.failReason)
        | Pending =>
            ({| templateDictionaryOf := written; progressTicks := ticked |}, Pending)
        end
      else
        ({| templateDictionaryOf := templateDictionary; progressTicks := ticked |},
         RejectedWith Resources.failReason)
  | RejectedWith _ => (st, RejectedWith Resources.failReason)
  | Pending => (st, Pending)
  end.

(** Modelled from the spec: the loop that deploys the templates is not
    among the source files.  The specification has it strictly sequential
    in the given order; on a failure it aborts the remaining sequence and
    reports the id of the template that failed. *)
Inductive deployResult : Type :=
| Deployed
| FailedAt (itemId : string)
| Stalled (itemId : string).

Fixpoint deploy (orderedTemplates : list IItemTemplate)
  (resourceFilePaths : string → list string)
  (destination : string → deployAnswers) (st : deployState)
  : deployState * deployResult :=
  match orderedTemplates with
  | [] => (st, Deployed)
  | template :: rest =>
      match createItemFromTemplate template (resourceFilePaths (itemId template))
              (destination (itemId template)) st with
      | (st', Fulfilled _) => deploy rest resourceFilePaths destination st'
      | (st', RejectedWith _) => (st', FailedAt (itemId template))
      | (st', Pending) => (st', Stalled (itemId template))
      end
  end.

(** The creation call has succeeded and answered with the new id. *)
Definition creates (destination : deployAnswers) (newId : string) : Prop :=
  ∀ newItem, createGroup destination newItem
             = Fulfilled {| success := true; groupId := newId |}.

(** The resources have been copied. *)
Definition copies (destination : deployAnswers) : Prop :=
  ∀ paths newId, ∃ done, copyFilesFromStorageItem destination paths newId = Fulfilled done.

(** The creation call has failed: the request was rejected, or it was
    answered without success. *)
Definition failsToCreate (destination : deployAnswers) : Prop :=
  ∀ newItem,
    (∃ reason, createGroup destination newItem = RejectedWith reason)
    ∨ (∃ newId, createGroup destination newItem
                = Fulfilled {| success := false; groupId := newId |}).

End createItemFromTemplate.

End GroupDeploy.

(** ** Field references of web maps *)

Module FieldRefs.
Import JsString.

(** An operational layer or a table of a web map. *)
Record layerRecord : Type := {
  layerItemId : option string;
  layerId : string;
  layerUrl : option string
}.

(** What the lookup object keeps of a layer: [{id, url}]. *)
Record hashLayer : Type := {
  hashLayerId : string;
  hashLayerUrl : option string
}.

#[global] Instance hashLayer_eq_dec : EqDecision hashLayer.
Proof. solve_decision. Defined.

(** An entry of the lookup object.  [layersAndTables] is only set for a
    web map that has a layer or a table. *)
Record hashItem : Type := {
  hashType : string;
  hashDependencies : list string;
  layersAndTables : option (list (string * hashLayer))
}.

Record IItemTemplate : Type := {
  itemId : string;
  type : string;
  dependencies : list string;
  operationalLayers : option (list layerRecord);
  tables : option (list layerRecord)
}.

(** A number of JavaScript, as far as layer ids go. *)
Inductive jsNumber : Type :=
| Num (n : nat)
| NaN.

Definition numberToString (x : jsNumber) : string :=
  match x with
  | Num n => pretty n
  | NaN => "NaN"
  end.

Definition isNaN (x : jsNumber) : bool :=
  match x with
  | Num _ => false
  | NaN => true
  end.

Record IDatasourceInfo : Type := {
  dsItemId : string;
  dsLayerId : jsNumber;
  basePath : string;
  dsUrl : option string;
  ids : list string
}.

Definition isDigit (c : ascii) : bool :=
  bool_decide (48 ≤ nat_of_ascii c ≤ 57).

Definition isNonZeroDigit (c : ascii) : bool :=
  bool_decide (49 ≤ nat_of_ascii c ≤ 57).

(** The length of a match of [/([.]layer([0-9]|[1-9][0-9])[.]url)[}]{2}/]
    at the start of [s]: the one-digit alternative is tried first. *)
Definition matchLayerUrl (s : string) : option nat :=
  if startsWith s ".layer" then
    match dropChars 6 s with
    | String d rest =>
        if isDigit d && startsWith rest ".url}}" then Some 13
        else
          match rest with
          | String d' rest' =>
              if isNonZeroDigit d && isDigit d' && startsWith rest' ".url}}"
              then Some 14 else None
          | EmptyString => None
          end
    | EmptyString => None
    end
  else None.

(** [s.replace(/([.]layer([0-9]|[1-9][0-9])[.]url)[}]{2}/, "")]: the
    leftmost match is removed. *)
Fixpoint stripLayerUrl (s : string) : string :=
  match matchLayerUrl s with
  | Some n => dropChars n s
  | None =>
      match s with
      | EmptyString => EmptyString
      | String c s' => String c (stripLayerUrl s')
      end
  end.

(** The truthiness of an optional string. *)
Definition truthy (o : option string) : bool :=
  match o with
  | Some s => bool_decide (s ≠ "")
  | None => false
  end.

(** [obj[key] = value] on an object whose keys are kept in insertion
    order, as they are for keys that are not array indices. *)
Fixpoint objectSet {V : Type} (key : string) (value : V) (obj : list (string * V))
  : list (string * V) :=
  match obj with
  | [] => [(key, value)]
  | (k, v) :: obj' =>
      if decide (k = key) then (k, value) :: obj'
      else (k, v) :: objectSet key value obj'
  end.

Fixpoint objectGet {V : Type} (obj : list (string * V)) (key : string) : option V :=
  match obj with
  | [] => None
  | (k, v) :: obj' => if decide (k = key) then Some v else objectGet obj' key
  end.

Section lookup.

(** [cleanLayerBasedItemId] of the common package is not among the source
    files; it is a parameter of the functions that call it. *)
Variable cleanLayerBasedItemId : string → string.

(** The value of the variable [itemId] in the loop of
    [_updateWebMapHashInfo]; [None] is [undefined]. *)
Definition layerItemIdOrFromUrl (layer : layerRecord) : option string :=
  if truthy (layerItemId layer) then layerItemId layer
  else
    match layerUrl layer with
    | Some url =>
        if bool_decide (url ≠ "") && includes url "{{"
        then Some (stripLayerUrl (replaceFirst "{{" "" url))
        else None
    | None => None
    end.

Definition recordLayer (recorded : list (string * hashLayer)) (layer : layerRecord)
  : list (string * hashLayer) :=
  match layerItemIdOrFromUrl layer with
  | Some itemId =>
      if bool_decide (itemId ≠ "") then
        recorded ++ [(cleanLayerBasedItemId itemId,
                      {| hashLayerId := layerId layer; hashLayerUrl := layerUrl layer |})]
      else recorded
  | None => recorded
  end.

Definition _updateWebMapHashInfo (template : IItemTemplate) (hashItem : hashItem)
  : FieldRefs.hashItem :=
  let layersAndTables :=
    default [] (operationalLayers template) ++ default [] (tables template) in
  if decide (0 < length layersAndTables) then
    {| hashType := hashType hashItem;
       hashDependencies := hashDependencies hashItem;
       layersAndTables := Some (foldl recordLayer [] layersAndTables) |}
  else hashItem.

Definition hashItemOf (template : IItemTemplate) : hashItem :=
  let hashItem :=
    {| hashType := type template; hashDependencies := dependencies template;
       layersAndTables := None |} in
  if decide (type template = "Web Map") then _updateWebMapHashInfo template hashItem
  else hashItem.

Definition _getTemplateTypeHash (templates : list IItemTemplate)
  : list (string * hashItem) :=
  foldl (λ templateTypeHash template,
           objectSet (itemId template) (hashItemOf template) templateTypeHash)
        [] templates.

(** The body of the inner loop of [_addMapLayerIds]. *)
Definition attachLayerId (ds : IDatasourceInfo) (opLayer : string * hashLayer)
  : IDatasourceInfo :=
  let opLayerInfo := if decide (opLayer.1 = dsItemId ds) then Some opLayer.2 else None in
  let url :=
    if truthy (dsUrl ds) && negb (isNaN (dsLayerId ds))
    then replaceFirst "." (".layer" +:+ numberToString (dsLayerId ds) +:+ ".")
           (default "" (dsUrl ds))
    else "" in
  match opLayerInfo with
  | Some info =>
      if bool_decide (Some url = hashLayerUrl info)
         && bool_decide (hashLayerId info ∉ ids ds)
      then {| dsItemId := dsItemId ds; dsLayerId := dsLayerId ds; basePath := basePath ds;
              dsUrl := dsUrl ds; ids := ids ds ++ [hashLayerId info] |}
      else ds
  | None => ds
  end.

Definition typeErrorMessage : string :=
  "TypeError: Cannot read property 'forEach' of undefined".

(** One web map of the outer loop: a web map without [layersAndTables]
    makes [forEach] fail. *)
Definition attachWebMap (templateTypeHash : list (string * hashItem))
  (webMapId : string) (ds : IDatasourceInfo) : outcome IDatasourceInfo :=
  match objectGet templateTypeHash webMapId with
  | Some item =>
      match layersAndTables item with
      | Some opLayers => Returned (foldl attachLayerId ds opLayers)
      | None => Threw typeErrorMessage
      end
  | None => Threw typeErrorMessage
  end.

(** [Object.keys(templateTypeHash).filter(...)]: the ids of the web maps.
    [Object.keys] lists the keys that are array indices first, in
    ascending order, and then the others in the order of their insertion;
    the keys here are ids of items, 32 hexadecimal digits, which are too
    long to be array indices, so that the order is that of insertion. *)
Definition webMapIdsOf (templateTypeHash : list (string * hashItem)) : list string :=
  (filter (λ kv, hashType kv.2 = "Web Map") templateTypeHash).*1.

Fixpoint mapOutcome {A B : Type} (f : A → outcome B) (l : list A) : outcome (list B) :=
  match l with
  | [] => Returned []
  | a :: l' =>
      match f a with
      | Returned b =>
          match mapOutcome f l' with
          | Returned bs => Returned (b :: bs)
          | Threw msg => Threw msg
          | OutOfFuel => OutOfFuel
          end
      | Threw msg => Threw msg
      | OutOfFuel => OutOfFuel
      end
  end.

Definition _addMapLayerIds (datasourceInfos : list IDatasourceInfo)
  (templateTypeHash : list (string * hashItem)) : outcome (list IDatasourceInfo) :=
  mapOutcome (forEach (webMapIdsOf templateTypeHash) (attachWebMap templateTypeHash))
             datasourceInfos.

End lookup.

(** The url of a templatized layer: [{{<id>.layer<N>.url}}]. *)
Definition layerPlaceholder (itemId : string) (N : nat) : string :=
  "{{" +:+ itemId +:+ ".layer" +:+ pretty N +:+ ".url}}".

(** The url of a templatized feature service: [{{<id>.url}}]. *)
Definition servicePlaceholder (itemId : string) : string :=
  "{{" +:+ itemId +:+ ".url}}".

End FieldRefs.

(** ** Names of stored files *)

Module StorageNames.
Import JsString.

(** [s.split(sep)] for a separator of one character: the parts between
    the separators, at least one. *)
Fixpoint split (sep : ascii) (s : string) : list string :=
  match s with
  | EmptyString => [EmptyString]
  | String c s' =>
      if decide (c = sep) then EmptyString :: split sep s'
      else match split sep s' with
           | part :: parts => String c part :: parts
           | [] => [String c EmptyString]
           end
  end.

(** [s.endsWith(suffix)] *)
Fixpoint endsWith (s suffix : string) : bool :=
  bool_decide (s = suffix)
  || match s with
     | EmptyString => false
     | String _ s' => endsWith s' suffix
     end.

(** [s.indexOf(c)] for one character; [None] is [-1]. *)
Fixpoint indexOf (s : string) (c : ascii) : option nat :=
  match s with
  | EmptyString => None
  | String a s' => if decide (a = c) then Some 0 else S <$> indexOf s' c
  end.

(** [s.replace(/\.zip$/, "")] *)
Fixpoint removeZipExtension (s : string) : string :=
  if bool_decide (s = ".zip") then EmptyString
  else match s with
       | EmptyString => EmptyString
       | String c s' => String c (removeZipExtension s')
       end.

Inductive EFileType : Type := Data | Info | Metadata | Resource | Thumbnail.

#[global] Instance EFileType_eq_dec : EqDecision EFileType.
Proof. solve_decision. Defined.

(** What the [generate...StorageFilename] functions return:
    [{folder, filename}]. *)
Record IStorageFilename : Type := {
  folder : string;
  filename : string
}.

(** [{type, folder, filename}]; the filename is [undefined] when the
    stored name has no ["/"]. *)
Record IDeployFilename : Type := {
  deployType : EFileType;
  deployFolder : string;
  deployFilename : option string
}.

(** [{url, ...IDeployFilename}] *)
Record IDeployFileCopyPath : Type := {
  deployUrl : string;
  deployName : IDeployFilename
}.

Definition replaceOfUndefined : string :=
  "TypeError: Cannot read property 'replace' of undefined".

Definition generateResourceFilenameFromStorage (storageResourceFilename : string)
  : outcome IDeployFilename :=
  let parts := split "/" storageResourceFilename in
  let folder := default "" (parts !! 0) in
  let filename := parts !! 1 in
  if endsWith folder "_info_thumbnail" then
    Returned {| deployType := Thumbnail; deployFolder := folder; deployFilename := filename |}
  else if endsWith folder "_info_metadata" then
    Returned {| deployType := Metadata; deployFolder := folder;
                deployFilename := Some "metadata.xml" |}
  else if endsWith folder "_info" then
    Returned {| deployType := Info; deployFolder := folder; deployFilename := filename |}
  else if endsWith folder "_info_data" then
    Returned {| deployType := Data; deployFolder := folder; deployFilename := filename |}
  else if endsWith folder "_info_dataz" then
    match filename with
    | Some name =>
        Returned {| deployType := Data; deployFolder := folder;
                    deployFilename := Some (removeZipExtension name) |}
    | None => Threw replaceOfUndefined
    end
  else
    Returned {| deployType := Resource;
                deployFolder :=
                  match indexOf folder "_" with
                  | Some folderStart =>
                      if decide (0 < folderStart) then dropChars (folderStart + 1) folder
                      else ""
                  | None => ""
                  end;
                deployFilename := filename |}.

Definition generateResourceStorageFilename
  (itemId sourceResourceFilename storageFolder : string) : IStorageFilename :=
  let folder :=
    itemId +:+ (if bool_decide (storageFolder ≠ "") then "_" +:+ storageFolder else "") in
  let sourceResourceFilenameParts := split "/" sourceResourceFilename in
  if decide (1 < length sourceResourceFilenameParts) then
    {| folder := folder +:+ "_" +:+ default "" (sourceResourceFilenameParts !! 0);
       filename := default "" (sourceResourceFilenameParts !! 1) |}
  else {| folder := folder; filename := sourceResourceFilename |}.

Definition generateInfoStorageFilename (itemId filename : string) : IStorageFilename :=
  {| folder := itemId +:+ "_info"; filename := filename |}.

Definition generateMetadataStorageFilename (itemId : string) : IStorageFilename :=
  {| folder := itemId +:+ "_info_metadata"; filename := "metadata.xml" |}.

Definition generateThumbnailStorageFilename (itemId thumbnailurl : string)
  : IStorageFilename :=
  let thumbnailUrlParts := split "/" thumbnailurl in
  {| folder := itemId +:+ "_info_thumbnail";
     filename :=
       if decide (length thumbnailUrlParts = 1) then default "" (thumbnailUrlParts !! 0)
       else default "" (thumbnailUrlParts !! 1) |}.

(** [{url, ...name}] *)
Definition sourceFileCopyPath (url : string) (name : IStorageFilename)
  : Resources.ISourceFileCopyPath :=
  {| Resources.url := url; Resources.folder := folder name;
     Resources.filename := filename name |}.

(** The name under which [copyFilesToStorageItem] reports a stored file. *)
Definition storedAs (name : IStorageFilename) : string :=
  folder name +:+ "/" +:+ filename name.

Section urls.

(** [checkUrlPathTermination] and [appendQueryParam] of the general
    helpers are not among the source files. *)
Variable checkUrlPathTermination : string → string.
Variable appendQueryParam : string → string → string.

Definition generateSourceMetadataUrl (sourcePortalSharingUrl itemId : string)
  (isGroup : bool) : string :=
  checkUrlPathTermination sourcePortalSharingUrl
  +:+ (if isGroup then "community/groups/" else "content/items/")
  +:+ itemId +:+ "/info/metadata/metadata.xml".

Definition generateSourceResourceUrl
  (sourcePortalSharingUrl itemId sourceResourceFilename : string) : string :=
  checkUrlPathTermination sourcePortalSharingUrl
  +:+ "content/items/" +:+ itemId +:+ "/resources/" +:+ sourceResourceFilename.

Definition generateSourceThumbnailUrl
  (sourcePortalSharingUrl itemId thumbnailUrlPart : string) (isGroup : bool) : string :=
  checkUrlPathTermination sourcePortalSharingUrl
  +:+ (if isGroup then "community/groups/" else "content/items/")
  +:+ itemId +:+ "/info/" +:+ thumbnailUrlPart.

Definition generateSourceFilePaths (portalSharingUrl itemId thumbnailUrlPart : string)
  (resourceFilenames : list string) (isGroup : bool)
  : list Resources.ISourceFileCopyPath :=
  let filePaths :=
    (λ resourceFilename,
       sourceFileCopyPath
         (generateSourceResourceUrl portalSharingUrl itemId resourceFilename)
         (generateResourceStorageFilename itemId resourceFilename ""))
      <$> resourceFilenames in
  let filePaths :=
    filePaths
    ++ [sourceFileCopyPath (generateSourceMetadataUrl portalSharingUrl itemId isGroup)
          (generateMetadataStorageFilename itemId)] in
  if bool_decide (thumbnailUrlPart ≠ "") then
    filePaths
    ++ [sourceFileCopyPath
          (appendQueryParam
             (generateSourceThumbnailUrl portalSharingUrl itemId thumbnailUrlPart isGroup)
             "w=400")
          (generateThumbnailStorageFilename itemId thumbnailUrlPart)]
  else filePaths.

Definition generateGroupFilePaths (portalSharingUrl itemId thumbnailUrlPart : string)
  : list Resources.ISourceFileCopyPath :=
  if bool_decide (thumbnailUrlPart ≠ "") then
    [sourceFileCopyPath
       (generateSourceThumbnailUrl portalSharingUrl itemId thumbnailUrlPart true)
       (generateThumbnailStorageFilename itemId thumbnailUrlPart)]
  else [].

Definition generateSourceFormFilePaths (portalSharingUrl itemId : string)
  : list Resources.ISourceFileCopyPath :=
  let baseUrl :=
    checkUrlPathTermination portalSharingUrl +:+ "content/items/" +:+ itemId +:+ "/info/" in
  ((λ filename,
      sourceFileCopyPath (baseUrl +:+ filename)
        (generateInfoStorageFilename itemId filename))
     <$> ["form.json"; "forminfo.json"])
  ++ [ {| Resources.url := baseUrl +:+ "form.webform";
          Resources.folder := itemId +:+ "_info";
          Resources.filename := "form.webform.json" |} ].

(** [resourceFilenames && resourceFilenames.map ? ... : []]: [None] is a
    missing list. *)
Definition generateStorageFilePaths (portalSharingUrl storageItemId : string)
  (resourceFilenames : option (list string)) : outcome (list IDeployFileCopyPath) :=
  match resourceFilenames with
  | Some names =>
      FieldRefs.mapOutcome
        (λ resourceFilename,
           match generateResourceFilenameFromStorage resourceFilename with
           | Returned name =>
               Returned
                 {| deployUrl :=
                      generateSourceResourceUrl portalSharingUrl storageItemId resourceFilename;
                    deployName := name |}
           | Threw msg => Threw msg
           | OutOfFuel => OutOfFuel
           end)
        names
  | None => Returned []
  end.

End urls.

(** A letter, as [[a-z]] matches it when case is ignored. *)
Definition isLetter (c : ascii) : bool :=
  let n := nat_of_ascii c in
  bool_decide (65 ≤ n ≤ 90) || bool_decide (97 ≤ n ≤ 122).

Fixpoint allLetters (s : string) : bool :=
  match s with
  | EmptyString => true
  | String c s' => isLetter c && allLetters s'
  end.

(** [filename.match(/\.([a-z]+)$/i)]: the text of the leftmost match, a
    dot followed by letters up to the end; [None] is [null]. *)
Fixpoint matchExtension (filename : string) : option string :=
  match filename with
  | EmptyString => None
  | String c rest =>
      if bool_decide (c = "."%char) && bool_decide (rest ≠ "") && allLetters rest
      then Some filename
      else matchExtension rest
  end.

Definition supportedExtensions : string :=
  "|.json|.xml|.txt|.png|.pbf|.zip|.jpeg|.jpg|.gif|.bmp|.gz|.svg|.svgz|.geodatabase|".

Definition isSupportedFileType (filename : string) : bool :=
  match matchExtension filename with
  | Some filenameExtension =>
      includes supportedExtensions ("|" +:+ filenameExtension +:+ "|")
  | None => false
  end.

(** A blob; only a [File] has a name. *)
Record Blob : Type := {
  name : option string;
  blobType : string
}.

(** The name that [convertBlobToSupportableResource] gives to the file it
    builds. *)
Definition filenameToUse (blob : Blob) (filename : string) : string :=
  let originalFilename :=
    if FieldRefs.truthy (name blob) then default "" (name blob) else filename in
  if bool_decide (originalFilename ≠ "") && negb (isSupportedFileType originalFilename)
  then originalFilename +:+ ".zip"
  else originalFilename.

Record IFileMimeType (File : Type) : Type := {
  blob : File;
  fileMimeFilename : string;
  mimeType : string
}.

Arguments blob {File}.
Arguments fileMimeFilename {File}.
Arguments mimeType {File}.

Section files.

(** [new_File] of the polyfills is not among the source files: it builds
    a file from the parts, a name and a type. *)
Context {File : Type}.
Variable new_File : list Blob → string → string → File.

Definition convertBlobToSupportableResource (blob : Blob) (filename : string)
  : IFileMimeType File :=
  {| blob := new_File [blob] (filenameToUse blob filename) (blobType blob);
     fileMimeFilename :=
       if FieldRefs.truthy (name blob) then default "" (name blob) else filename;
     mimeType := blobType blob |}.

End files.

End StorageNames.

(** ** Copying stored files to a deployed item *)

Module StorageCopy.
Import JsString StorageNames.

(** The credentials of a request, by the name of their owner. *)
Definition UserSession : Type := string.

(** The [params] of an update that carries a blob. *)
Inductive updateParams : Type :=
| metadata (blob : Resources.Blob)
| thumbnail (blob : Resources.Blob).

(** The portals, as far as copying from the storage item goes; an answer
    is kept as far as its success goes. *)
Record portalAnswers : Type := {
  (* [restHelpersGet.getBlob(url, authentication)] *)
  getBlob : string → UserSession → promise Resources.Blob;
  (* [restHelpersGet.getBlobAsFile(url, filename, authentication, [], "application/json")] *)
  getBlobAsFile : string → option string → UserSession → promise Resources.Blob;
  (* [portal.addItemResource({id, resource, name, authentication, params})] *)
  addItemResource : string → string → string → Resources.Blob → UserSession → promise unit;
  (* [portal.updateItem({item: {id}, params, authentication})] *)
  updateItem : string → updateParams → UserSession → promise unit;
  (* [portal.updateGroup({group: {id}, params, authentication})] *)
  updateGroup : string → updateParams → UserSession → promise unit;
  (* [portal.updateItemInfo({id, file, authentication})] *)
  updateItemInfo : string → Resources.Blob → UserSession → promise unit;
  (* [restHelpers.updateItem({id, data}, authentication)], the data being
     the file built from the blob, the filename and the MIME type *)
  updateItemData :
    string → Resources.Blob → option string → string → UserSession → promise unit
}.

Definition addMetadataFromBlob (portal : portalAnswers) (blob : Resources.Blob)
  (itemId : string) (authentication : UserSession) : promise unit :=
  updateItem portal itemId (metadata blob) authentication.

Definition addThumbnailFromBlob (portal : portalAnswers) (blob : Resources.Blob)
  (itemId : string) (authentication : UserSession) (isGroup : bool) : promise unit :=
  if isGroup then updateGroup portal itemId (thumbnail blob) authentication
  else updateItem portal itemId (thumbnail blob) authentication.

Section copy.

(** [appendQueryParam] of the general helpers is not among the source
    files. *)
Variable appendQueryParam : string → string → string.

Definition addThumbnailFromUrl (portal : portalAnswers) (url itemId : string)
  (authentication : UserSession) (isGroup : bool) : promise unit :=
  thenElse (getBlob portal (appendQueryParam url "w=400") authentication)
    (λ blob,
       thenElse (addThumbnailFromBlob portal blob itemId authentication isGroup)
         Fulfilled RejectedWith)
    RejectedWith.

(** [destination.mimeType || blob.type]; [None] is [undefined]. *)
Definition copyData (portal : portalAnswers)
  (sourceUrl : string) (sourceAuthentication : UserSession)
  (itemId : string) (filename : option string) (mimeType : option string)
  (destinationAuthentication : UserSession) : promise unit :=
  thenElse (getBlob portal sourceUrl sourceAuthentication)
    (λ blob,
       thenElse
         (updateItemData portal itemId blob filename
            (if FieldRefs.truthy mimeType then default "" mimeType
             else Resources.blobType blob)
            destinationAuthentication)
         Fulfilled (λ _, RejectedWith Resources.failReason))
    (λ _, RejectedWith Resources.failReason).

Definition copyFormInfoFile (portal : portalAnswers)
  (sourceUrl : string) (sourceFilename : option string) (sourceAuthentication : UserSession)
  (itemId : string) (destinationAuthentication : UserSession) : promise unit :=
  thenElse (getBlobAsFile portal sourceUrl sourceFilename sourceAuthentication)
    (λ file,
       thenElse (updateItemInfo portal itemId file destinationAuthentication)
         Fulfilled RejectedWith)
    RejectedWith.

Definition copyMetadata (portal : portalAnswers)
  (sourceUrl : string) (sourceAuthentication : UserSession)
  (itemId : string) (destinationAuthentication : UserSession) : promise unit :=
  thenElse (getBlob portal sourceUrl sourceAuthentication)
    (λ blob,
       if bool_decide (Resources.blobType blob ≠ "text/xml")
          && bool_decide (Resources.blobType blob ≠ "application/xml")
       then RejectedWith Resources.failReason
       else
         thenElse (addMetadataFromBlob portal blob itemId destinationAuthentication)
           Fulfilled (λ _, RejectedWith Resources.failReason))
    (λ _, RejectedWith Resources.failReason).

(** The portal that [copyResource] sees: it reads with the credentials
    of the source and writes with those of the destination.  A filename
    that is [undefined] is as falsy as the empty one. *)
Definition resourcePortal (portal : portalAnswers)
  (sourceAuthentication destinationAuthentication : UserSession)
  : Resources.portalAnswers :=
  {| Resources.getBlob := λ url, getBlob portal url sourceAuthentication;
     Resources.addItemResource := λ itemId folder filename blob,
       addItemResource portal itemId folder filename blob destinationAuthentication |}.

(** [mimeTypes ? mimeTypes[filePath.filename] : ""] *)
Definition mimeTypeOf (mimeTypes : option (list (string * string)))
  (filename : option string) : option string :=
  match mimeTypes with
  | Some types => FieldRefs.objectGet types (default "undefined" filename)
  | None => Some ""
  end.

(** The promise that [filePaths.map] builds for one file. *)
Definition copyFromStorage (portal : portalAnswers)
  (storageAuthentication : UserSession) (destinationItemId : string)
  (destinationAuthentication : UserSession) (isGroup : bool)
  (mimeTypes : option (list (string * string))) (filePath : IDeployFileCopyPath)
  : promise unit :=
  let file := deployName filePath in
  match deployType file with
  | Data =>
      copyData portal (deployUrl filePath) storageAuthentication
        destinationItemId (deployFilename file) (mimeTypeOf mimeTypes (deployFilename file))
        destinationAuthentication
  | Info =>
      copyFormInfoFile portal (deployUrl filePath) (deployFilename file)
        storageAuthentication destinationItemId destinationAuthentication
  | Metadata =>
      copyMetadata portal (deployUrl filePath) storageAuthentication
        destinationItemId destinationAuthentication
  | Resource =>
      Resources.copyResource
        (resourcePortal portal storageAuthentication destinationAuthentication)
        (deployUrl filePath) destinationItemId (deployFolder file)
        (default "" (deployFilename file))
  | Thumbnail =>
      addThumbnailFromUrl portal (deployUrl filePath) destinationItemId
        destinationAuthentication isGroup
  end.

Definition copyFilesFromStorageItem (portal : portalAnswers)
  (storageAuthentication : UserSession) (filePaths : list IDeployFileCopyPath)
  (destinationItemId : string) (destinationAuthentication : UserSession)
  (isGroup : bool) (mimeTypes : option (list (string * string))) : promise bool :=
  thenElse
    (Promise_all
       (copyFromStorage portal storageAuthentication destinationItemId
          destinationAuthentication isGroup mimeTypes <$> filePaths))
    (λ _, Fulfilled true) RejectedWith.

End copy.

End StorageCopy.

(** ** Storing the resources of an item *)

Module StoreItemResources.
Import JsString StorageNames.

(** The part of an item template that storing its resources reads. *)
Record IItemTemplate : Type := {
  itemId : string;
  type : string;
  thumbnail : string            (* [item.thumbnail] *)
}.

(** The line terminators that are not ASCII, U+2028 and U+2029, as the
    three bytes that a text holds for each of them. *)
Definition lineSeparator : string :=
  String (ascii_of_nat 226) (String (ascii_of_nat 128) (String (ascii_of_nat 168) "")).

Definition paragraphSeparator : string :=
  String (ascii_of_nat 226) (String (ascii_of_nat 128) (String (ascii_of_nat 169) "")).

(** The last character of the text is a line terminator, which [.] does
    not match: LF, CR, U+2028 or U+2029. *)
Definition endsInLineTerminator (s : string) : bool :=
  endsWith s (String (ascii_of_nat 10) "") || endsWith s (String (ascii_of_nat 13) "")
  || endsWith s lineSeparator || endsWith s paragraphSeparator.

(** The text before the [json] that ends [s], if [s] ends so. *)
Fixpoint beforeJson (s : string) : option string :=
  if bool_decide (s = "json") then Some ""
  else match s with
       | EmptyString => None
       | String c s' => String c <$> beforeJson s'
       end.

(** A match of [[\s\S]*.json$] on the whole of [s]: [s] ends in [json],
    and the text before it has a last character, which is not a line
    terminator. *)
Definition endsInAnyJson (s : string) : bool :=
  match beforeJson s with
  | Some text => bool_decide (text ≠ "") && negb (endsInLineTerminator text)
  | None => false
  end.

(** [res.match(/^draft_[\s\S]*.json$/)], as a truth value. *)
Definition matchDraft (res : string) : bool :=
  startsWith res "draft_" && endsInAnyJson (dropChars 6 res).

(** The callback of [filter]: whether a resource is transferred. *)
Definition keepResource (templateType res : string) : bool :=
  let result := true in
  let result :=
    if bool_decide (templateType = "StoryMap") then
      let result :=
        if bool_decide (res ∈ ["oembed.json"; "oembed.xml"]) then false else result in
      if matchDraft res then false else result
    else result in
  if bool_decide (templateType = "Web Experience") then
    let result := if bool_decide (res = "config/config.json") then false else result in
    if startsWith res "images/" then false else result
  else result.

Section store.

Variable checkUrlPathTermination : string → string.
Variable appendQueryParam : string → string → string.

(** [getItemResources], as a list of the [resource] names it answers
    with. *)
Variable getItemResources : string → promise (list string).

(** The file paths that are handed to [copyFilesToStorageItem]. *)
Definition resourceItemFilePaths (portalUrl : string) (itemTemplate : IItemTemplate)
  (itemResources : list string) : list Resources.ISourceFileCopyPath :=
  generateSourceFilePaths checkUrlPathTermination appendQueryParam
    portalUrl (itemId itemTemplate) (thumbnail itemTemplate) itemResources
    (bool_decide (type itemTemplate = "Group")).

Definition storeItemResources (portal : Resources.portalAnswers) (portalUrl : string)
  (itemTemplate : IItemTemplate) (solutionItemId : string) : promise (list string) :=
  thenElse
    (thenElse (getItemResources (itemId itemTemplate))
       (λ resources,
          let itemResources := filter (λ res, keepResource (type itemTemplate) res) resources in
          Resources.copyFilesToStorageItem portal
            (resourceItemFilePaths portalUrl itemTemplate itemResources) solutionItemId)
       RejectedWith)
    (λ savedResourceFilenames,
       Fulfilled (filter Resources.truthy savedResourceFilenames))
    RejectedWith.

End store.

End StoreItemResources.

(** The function of the same name in the resource helpers. *)
Module ResourceHelpers.
Import JsString StorageNames.

Section store.

Variable checkUrlPathTermination : string → string.
Variable appendQueryParam : string → string → string.
Variable getItemResources : string → promise (list string).

(** The outer promise is settled by [resolve] alone, and no callback
    takes a rejection of [getItemResources]. *)
Definition storeItemResources (portal : Resources.portalAnswers) (portalUrl : string)
  (itemTemplate : StoreItemResources.IItemTemplate) (solutionItemId : string)
  : promise (list string) :=
  thenElse (getItemResources (StoreItemResources.itemId itemTemplate))
    (λ itemResources,
       thenElse
         (Resources.copyFilesToStorageItem portal
            (StoreItemResources.resourceItemFilePaths checkUrlPathTermination
               appendQueryParam portalUrl itemTemplate itemResources)
            solutionItemId)
         (λ savedResourceFilenames,
            Fulfilled (filter Resources.truthy savedResourceFilenames))
         (λ _, Pending))
    (λ _, Pending).

End store.

(** The part of a form template that storing its files reads and
    writes; [name] is [item.name], empty when the item has none. *)
Record IItemTemplate : Type := {
  itemId : string;
  name : string
}.

(** The data of a form: a file with its name, empty when it has none. *)
Record File : Type := {
  fileName : string;
  content : Resources.Blob
}.

Section forms.

Variable checkUrlPathTermination : string → string.

(** [itemTemplate.item.name || itemData.name || "formData.zip"] *)
Definition dataFilename (itemTemplate : IItemTemplate) (itemData : File) : string :=
  if bool_decide (name itemTemplate ≠ "") then name itemTemplate
  else if bool_decide (fileName itemData ≠ "") then fileName itemData
  else "formData.zip".

(** The promise of the data of the form. *)
Definition storeFormData (portal : Resources.portalAnswers)
  (itemTemplate : IItemTemplate) (itemData : File) (solutionItemId : string)
  : promise (list string) :=
  let storageName :=
    generateResourceStorageFilename (itemId itemTemplate)
      (dataFilename itemTemplate itemData) "info_data" in
  thenElse
    (Resources.addResourceFromBlob portal (content itemData) solutionItemId
       (folder storageName) (filename storageName))
    (λ _, Fulfilled [folder storageName +:+ "/" +:+ filename storageName])
    RejectedWith.

(** The template is shared with the caller: the name of the data is
    written to it.  [None] is data that is not truthy. *)
Definition storeFormItemFiles (portal : Resources.portalAnswers) (portalUrl : string)
  (itemTemplate : IItemTemplate) (itemData : option File) (solutionItemId : string)
  : IItemTemplate * promise (list string) :=
  let '(itemTemplate, storagePromises) :=
    match itemData with
    | Some data =>
        ({| itemId := itemId itemTemplate; name := dataFilename itemTemplate data |},
         [storeFormData portal itemTemplate data solutionItemId])
    | None => (itemTemplate, [])
    end in
  let resourceItemFilePaths :=
    generateSourceFormFilePaths checkUrlPathTermination portalUrl (itemId itemTemplate) in
  let storagePromises :=
    storagePromises
    ++ [Resources.copyFilesToStorageItem portal resourceItemFilePaths solutionItemId] in
  (itemTemplate,
   thenElse (Promise_all storagePromises)
     (λ savedResourceFilenameSets,
        Fulfilled
          (foldl (λ savedResourceFilenames filenameSet,
                    savedResourceFilenames ++ filter Resources.truthy filenameSet)
             [] savedResourceFilenameSets))
     RejectedWith).

End forms.

End ResourceHelpers.

(** ** Templates of groups *)

Module GroupTemplate.
Import JsString StorageNames.

(** The base section of a group, as [getGroup] answers it. *)
Record groupItem : Type := {
  id : string;
  title : string;
  thumbnail : string
}.

Record IItemTemplate : Type := {
  itemId : string;
  type : string;
  item : groupItem;
  dependencies : list string;
  resources : list string;
  estimatedDeploymentCostFactor : nat
}.

(** What the portal answers while one group is converted. *)
Record portalAnswers : Type := {
  getGroupContents : string → promise (list string);
  getGroup : string → promise groupItem;
  getItemResources : string → promise (list string);
  files : Resources.portalAnswers
}.

Section convert.

(** [createInitializedGroupTemplate] and [templatizeTerm] of the common
    package are not among the source files, nor are the two helpers of
    the urls. *)
Variable createInitializedGroupTemplate : groupItem → IItemTemplate.
Variable templatizeTerm : string → string → string → string.
Variable checkUrlPathTermination : string → string.
Variable appendQueryParam : string → string → string.

(** The template before the first request: initialized, with the cost
    factor set and the id of its item templatized. *)
Definition initialTemplate (itemInfo : groupItem) : IItemTemplate :=
  let itemTemplate := createInitializedGroupTemplate itemInfo in
  {| itemId := itemId itemTemplate;
     type := type itemTemplate;
     item := {| id := templatizeTerm (id (item itemTemplate)) (id (item itemTemplate))
                        ".itemId";
                title := title (item itemTemplate);
                thumbnail := thumbnail (item itemTemplate) |};
     dependencies := dependencies itemTemplate;
     resources := resources itemTemplate;
     estimatedDeploymentCostFactor := 2 |}.

Definition convertItemToTemplate (portal : portalAnswers) (portalUrl : string)
  (solutionItemId : string) (itemInfo : groupItem) : promise IItemTemplate :=
  let itemTemplate := initialTemplate itemInfo in
  thenElse (getGroupContents portal (id itemInfo))
    (λ groupContents,
       let itemTemplate :=
         {| itemId := itemId itemTemplate;
            type := "Group";
            item := item itemTemplate;
            dependencies := groupContents;
            resources := resources itemTemplate;
            estimatedDeploymentCostFactor := estimatedDeploymentCostFactor itemTemplate |} in
       thenElse (getGroup portal (id itemInfo))
         (λ groupResponse,
            let itemTemplate :=
              {| itemId := itemId itemTemplate;
                 type := type itemTemplate;
                 item := {| id := id (item itemTemplate);
                            title := title groupResponse;
                            thumbnail := thumbnail groupResponse |};
                 dependencies := dependencies itemTemplate;
                 resources := resources itemTemplate;
                 estimatedDeploymentCostFactor :=
                   estimatedDeploymentCostFactor itemTemplate |} in
            thenElse (getItemResources portal (itemId itemTemplate))
              (λ resourcesResponse,
                 let resourceFilePaths :=
                   generateSourceFilePaths checkUrlPathTermination appendQueryParam
                     portalUrl (itemId itemTemplate) (thumbnail (item itemTemplate))
                     resourcesResponse true in
                 thenElse
                   (Resources.copyFilesToStorageItem (files portal) resourceFilePaths
                      solutionItemId)
                   (λ savedResourceFilenames,
                      Fulfilled
                        {| itemId := itemId itemTemplate;
                           type := type itemTemplate;
                           item := item itemTemplate;
                           dependencies := dependencies itemTemplate;
                           resources := filter Resources.truthy savedResourceFilenames;
                           estimatedDeploymentCostFactor :=
                             estimatedDeploymentCostFactor itemTemplate |})
                   RejectedWith)
              (λ _, Fulfilled itemTemplate))
         (λ _, Fulfilled itemTemplate))
    (λ _, Fulfilled itemTemplate).

End convert.

End GroupTemplate.

(** ** Feature services behind the web maps of an application *)

Module WebMapDependencies.
Import FieldRefs.

Definition typeOfUndefined : string :=
  "TypeError: Cannot read property 'type' of undefined".

(** What [templateTypeHash[key]] reads.  The lookup object is an object
    literal: besides its own entries it has the properties that every
    object inherits from [Object.prototype], which are functions, and for
    [__proto__] the prototype itself; none of them has a [type]. *)
Inductive hashValue : Type :=
| OwnEntry (item : hashItem)
| InheritedProperty
| NoProperty.                 (* [undefined] *)

Definition readHash (templateTypeHash : list (string * hashItem)) (key : string)
  : hashValue :=
  match objectGet templateTypeHash key with
  | Some item => OwnEntry item
  | None =>
      if decide (key ∈ Resolver.inheritedKeys) then InheritedProperty else NoProperty
  end.

(** The body of [depObj.dependencies.forEach]. *)
Definition pushFeatureService (templateTypeHash : list (string * hashItem))
  (depObjDependency : string) (webMapFSDependencies : list string)
  : outcome (list string) :=
  match readHash templateTypeHash depObjDependency with
  | OwnEntry item =>
      if decide (hashType item = "Feature Service")
      then Returned (webMapFSDependencies ++ [depObjDependency])
      else Returned webMapFSDependencies
  | InheritedProperty => Returned webMapFSDependencies
  | NoProperty => Threw typeOfUndefined
  end.

(** The body of [template.dependencies.forEach]. *)
Definition pushWebMapDependencies (templateTypeHash : list (string * hashItem))
  (dep : string) (webMapFSDependencies : list string) : outcome (list string) :=
  match readHash templateTypeHash dep with
  | OwnEntry depObj =>
      if decide (hashType depObj = "Web Map")
      then forEach (hashDependencies depObj) (pushFeatureService templateTypeHash)
             webMapFSDependencies
      else Returned webMapFSDependencies
  | InheritedProperty => Returned webMapFSDependencies
  | NoProperty => Threw typeOfUndefined
  end.

Definition _getWebMapFSDependencies (template : IItemTemplate)
  (templateTypeHash : list (string * hashItem)) : outcome (list string) :=
  forEach (dependencies template) (pushWebMapDependencies templateTypeHash) [].

End WebMapDependencies.

(** * Properties *)

Section sequencer_facts.
Import Sequencer.

Variable items : IItemHash.

Local Abbreviation keys := (items.*1).
Local Abbreviation deps := (dependenciesOf items).
Local Abbreviation color st v := (verticesToVisit st !! v).

(** Colours only move forward: between two states of one run a vertex
    keeps its colour or goes from unvisited to finished. *)
Definition advances (st st' : sortState) : Prop :=
  ∀ u, color st' u = color st u
       ∨ (color st u = Some White ∧ color st' u = Some Black).

(** The build list holds exactly the finished vertices, once each, and
    every one of them comes after its dependencies. *)
Record sortInv (st : sortState) : Prop := {
  inv_black : ∀ u, u ∈ buildList st ↔ color st u = Some Black;
  inv_nodup : NoDup (buildList st);
  inv_order : ∀ j b d, buildList st !! j = Some b → d ∈ deps b → d ∈ keys →
                       ∃ i, buildList st !! i = Some d ∧ i < j;
  inv_dom : ∀ u, is_Some (color st u) ↔ u ∈ keys
}.

(** The vertices in progress are the ancestors of the one being visited. *)
Definition onStack (st : sortState) (v : string) : Prop :=
  ∀ g, color st g = Some Gray → rtc (edge items) g v.

(** At most [n] vertices are still unvisited. *)
Definition whitesWithin (st : sortState) (n : nat) : Prop :=
  ∃ ws, NoDup ws ∧ (∀ u, color st u = Some White → u ∈ ws) ∧ length ws ≤ n.

(** What a search may do: never run out of fuel; throw only the cycle
    error and only on a cyclic graph; otherwise return a state [Q] holds of. *)
Definition searchPost (Q : sortState → Prop) (r : outcome sortState) : Prop :=
  match r with
  | Returned st' => Q st'
  | Threw msg => msg = cyclicalMessage ∧ cyclic items
  | OutOfFuel => False
  end.

Lemma advances_refl st : advances st st.
Proof. intros u. by left. Qed.

Lemma advances_trans st1 st2 st3 :
  advances st1 st2 → advances st2 st3 → advances st1 st3.
Proof.
  intros H12 H23 u. destruct (H12 u) as [E12 | [W1 B2]], (H23 u) as [E23 | [W2 B3]].
  - left. congruence.
  - right. split; congruence.
  - right. split; congruence.
  - congruence.
Qed.

Lemma advances_gray st st' g :
  advances st st' → color st' g = Some Gray ↔ color st g = Some Gray.
Proof. intros H. destruct (H g) as [E | [W B]]; split; congruence. Qed.

Lemma advances_black st st' u :
  advances st st' → color st u = Some Black → color st' u = Some Black.
Proof. intros H Hb. destruct (H u) as [E | [W B]]; congruence. Qed.

Lemma advances_white st st' u :
  advances st st' → color st' u = Some White → color st u = Some White.
Proof. intros H Hw. destruct (H u) as [E | [W B]]; congruence. Qed.

Lemma whitesWithin_advances st st' n :
  advances st st' → whitesWithin st n → whitesWithin st' n.
Proof.
  intros Hadv (ws & Hnd & Hws & Hlen). exists ws.
  split; [done | split; [ | done]].
  intros u Hu. eauto using advances_white.
Qed.

Lemma onStack_advances st st' v :
  advances st st' → onStack st v → onStack st' v.
Proof. intros Hadv Hst g Hg. apply Hst. by apply (advances_gray st st' g Hadv). Qed.

(** Entering a vertex: it turns from unvisited to in progress. *)
Lemma enter_inv st v :
  sortInv st → color st v = Some White → sortInv (setColor v Gray st).
Proof.
  intros [Hb Hnd Hord Hdom] Hw. split; simpl; [ | done | done | ].
  - intros u. rewrite Hb. destruct (decide (v = u)) as [-> | Hne].
    + rewrite lookup_insert_eq. split; congruence.
    + by rewrite lookup_insert_ne.
  - intros u. rewrite <- Hdom. destruct (decide (v = u)) as [-> | Hne].
    + rewrite lookup_insert_eq, Hw. split; eauto.
    + by rewrite lookup_insert_ne.
Qed.

Lemma enter_whites st v n :
  color st v = Some White → whitesWithin st n → 0 < n ∧ whitesWithin (setColor v Gray st) (n - 1).
Proof.
  intros Hw (ws & Hnd & Hws & Hlen).
  assert (Hv : v ∈ ws) by auto.
  apply list_elem_of_split in Hv as (w1 & w2 & ->).
  rewrite length_app in Hlen. simpl in Hlen. split; [lia | ].
  exists (w1 ++ w2). split_and!.
  - apply NoDup_app in Hnd as (H1 & H2 & H3). apply NoDup_cons in H3 as [H3 H4].
    apply NoDup_app. split_and!; [done | | done].
    intros x Hx1 Hx2. apply (H2 x Hx1). by right.
  - intros u. simpl. destruct (decide (v = u)) as [-> | Hne].
    + rewrite lookup_insert_eq. congruence.
    + rewrite lookup_insert_ne by done. intros Hu. specialize (Hws u Hu).
      set_solver.
  - rewrite length_app. lia.
Qed.

(** Leaving a vertex whose dependencies are all finished. *)
Lemma leave_inv st v :
  sortInv st → color st v = Some Gray →
  (∀ d, d ∈ deps v → d ∈ keys → color st d = Some Black) →
  sortInv (pushVertex v (setColor v Black st)).
Proof.
  intros [Hb Hnd Hord Hdom] Hg Hdeps. split; simpl.
  - intros u. rewrite elem_of_app, list_elem_of_singleton, Hb.
    destruct (decide (v = u)) as [-> | Hne].
    + rewrite lookup_insert_eq. naive_solver.
    + rewrite lookup_insert_ne by done. naive_solver.
  - apply NoDup_app. split_and!; [done | | apply NoDup_singleton].
    intros x Hx ->%list_elem_of_singleton. apply Hb in Hx. congruence.
  - intros j b d Hj Hd Hk. apply lookup_app_Some in Hj as [Hj | [Hlen Hj]].
    + destruct (Hord j b d Hj Hd Hk) as (i & Hi & Hlt).
      exists i. split; [ | done]. by apply lookup_app_l_Some.
    + apply list_lookup_singleton_Some in Hj as [Hj0 <-].
      specialize (Hdeps d Hd Hk). apply Hb in Hdeps.
      apply list_elem_of_lookup in Hdeps as [i Hi]. exists i.
      split; [by apply lookup_app_l_Some | ].
      apply lookup_lt_Some in Hi. lia.
  - intros u. rewrite <- Hdom. destruct (decide (v = u)) as [-> | Hne].
    + rewrite lookup_insert_eq, Hg. split; eauto.
    + by rewrite lookup_insert_ne.
Qed.

(** The state a search of [v] hands back, started in [st]. *)
Definition visited (st : sortState) (v : string) (st' : sortState) : Prop :=
  sortInv st' ∧ advances st st' ∧ color st' v = Some Black.

(** The state the loop over the dependencies [ds] hands back. *)
Definition dependenciesDone (st : sortState) (ds : list string)
  (st' : sortState) : Prop :=
  sortInv st' ∧ advances st st'
  ∧ ∀ d, d ∈ ds → d ∈ keys → color st' d = Some Black.

Lemma searchPost_mono (Q Q' : sortState → Prop) r :
  (∀ st, Q st → Q' st) → searchPost Q r → searchPost Q' r.
Proof. destruct r; simpl; auto. Qed.

Lemma gray_dependency_cycle st v d :
  onStack st v → v ∈ keys → d ∈ deps v → color st d = Some Gray →
  sortInv st → cyclic items.
Proof.
  intros Hst Hv Hd Hg Hinv. exists d.
  eapply tc_rtc_l; [by apply Hst | ].
  apply tc_once. split_and!; [done | done | ].
  apply (inv_dom _ Hinv). rewrite Hg. eauto.
Qed.

(** The loop over the dependencies of a vertex [v] in progress, given
    that the nested searches behave. *)
Lemma dependencies_spec (visitRec : string → sortState → outcome sortState)
  (n : nat) (v : string) :
  (∀ d st, sortInv st → color st d = Some White → onStack st d →
           whitesWithin st n → searchPost (visited st d) (visitRec d st)) →
  v ∈ keys →
  ∀ ds st, (∀ d, d ∈ ds → d ∈ deps v) →
    sortInv st → color st v = Some Gray → onStack st v → whitesWithin st n →
    searchPost (dependenciesDone st ds) (forEach ds (visitDependency visitRec) st).
Proof.
  intros Hrec Hv. induction ds as [ | d ds IH]; intros st Hsub Hinv Hg Hst Hws.
  - simpl. split_and!; [done | apply advances_refl | ]. intros d Hd. by apply elem_of_nil in Hd.
  - assert (Hdv : d ∈ deps v) by (apply Hsub; left).
    assert (Hsub' : ∀ d', d' ∈ ds → d' ∈ deps v) by (intros; apply Hsub; by right).
    simpl. unfold visitDependency at 1.
    destruct (color st d) as [[ | | ] | ] eqn:Hd.
    + assert (Hdk : d ∈ keys) by (apply (inv_dom _ Hinv); rewrite Hd; eauto).
      assert (Hstd : onStack st d).
      { intros g Hgg. eapply rtc_r; [by apply Hst | ]. by split_and!. }
      specialize (Hrec d st Hinv Hd Hstd Hws).
      destruct (visitRec d st) as [st1 | msg | ]; simpl in Hrec; [ | done | done].
      destruct Hrec as (Hinv1 & Hadv1 & Hb1).
      assert (Hg1 : color st1 v = Some Gray) by (by apply (advances_gray st st1 v Hadv1)).
      specialize (IH st1 Hsub' Hinv1 Hg1 (onStack_advances _ _ _ Hadv1 Hst)
                     (whitesWithin_advances _ _ _ Hadv1 Hws)).
      eapply searchPost_mono; [ | exact IH].
      intros st2 (Hinv2 & Hadv2 & Hb2). split_and!; [done | by eapply advances_trans | ].
      intros d' [-> | Hd']%elem_of_cons Hk'; [ | by apply Hb2].
      by eapply advances_black.
    + simpl. split; [done | ]. by eapply gray_dependency_cycle.
    + specialize (IH st Hsub' Hinv Hg Hst Hws).
      eapply searchPost_mono; [ | exact IH].
      intros st2 (Hinv2 & Hadv2 & Hb2). split_and!; [done | done | ].
      intros d' [-> | Hd']%elem_of_cons Hk'; [ | by apply Hb2].
      by eapply advances_black.
    + specialize (IH st Hsub' Hinv Hg Hst Hws).
      eapply searchPost_mono; [ | exact IH].
      intros st2 (Hinv2 & Hadv2 & Hb2). split_and!; [done | done | ].
      intros d' [-> | Hd']%elem_of_cons Hk'; [ | by apply Hb2].
      apply (inv_dom _ Hinv) in Hk'. rewrite Hd in Hk'. by destruct Hk'.
Qed.

(** A search started at an unvisited vertex with enough fuel finishes the
    vertex, or throws the cycle error on a cyclic graph. *)
Lemma visit_spec fuel :
  ∀ n v st, n < fuel → sortInv st → color st v = Some White → onStack st v →
    whitesWithin st n → searchPost (visited st v) (visit fuel items v st).
Proof.
  induction fuel as [ | fuel IH]; intros n v st Hn Hinv Hw Hst Hws; [lia | ].
  simpl.
  assert (Hv : v ∈ keys) by (apply (inv_dom _ Hinv); rewrite Hw; eauto).
  destruct (enter_whites st v n Hw Hws) as [Hpos Hws1].
  pose proof (enter_inv st v Hinv Hw) as Hinv1.
  assert (Hg1 : color (setColor v Gray st) v = Some Gray) by apply lookup_insert_eq.
  assert (Hst1 : onStack (setColor v Gray st) v).
  { intros g. simpl. destruct (decide (v = g)) as [-> | Hne].
    - intros _. apply rtc_refl.
    - rewrite lookup_insert_ne by done. apply Hst. }
  pose proof (dependencies_spec (visit fuel items) (n - 1) v
                (λ d st', IH (n - 1) d st' ltac:(lia)) Hv (deps v)
                (setColor v Gray st) (λ d H, H) Hinv1 Hg1 Hst1 Hws1) as Hloop.
  destruct (forEach _ _ _) as [st2 | msg | ]; simpl in Hloop; [ | done | done].
  destruct Hloop as (Hinv2 & Hadv2 & Hb2). simpl.
  assert (Hg2 : color st2 v = Some Gray) by (by apply (advances_gray _ st2 v Hadv2)).
  split_and!.
  - by apply leave_inv.
  - intros u. simpl. destruct (decide (v = u)) as [-> | Hne].
    + rewrite lookup_insert_eq. by right.
    + rewrite lookup_insert_ne by done.
      destruct (Hadv2 u) as [E | [W B]]; simpl in *;
        rewrite lookup_insert_ne in * by done; auto.
  - simpl. apply lookup_insert_eq.
Qed.

Lemma initial_color (l : list string) (m : gmap string SortVisitColor) u :
  foldl (λ m k, <[k := White]> m) m l !! u
  = if decide (u ∈ l) then Some White else m !! u.
Proof.
  revert m. induction l as [ | k l IH]; intros m.
  - cbn [foldl]. case_decide as Hin; [by apply elem_of_nil in Hin | done].
  - cbn [foldl]. rewrite IH.
    destruct (decide (u ∈ l)) as [Hin | Hnin], (decide (u ∈ k :: l)) as [Hin' | Hnin'].
    + done.
    + destruct Hnin'. by right.
    + apply elem_of_cons in Hin' as [-> | Hin']; [apply lookup_insert_eq | done].
    + apply lookup_insert_ne. intros ->. apply Hnin'. by left.
Qed.

Lemma initial_inv : sortInv (initialState items).
Proof.
  split; simpl.
  - intros u. rewrite initial_color. split; [by intros H%elem_of_nil | ].
    case_decide; [done | by rewrite lookup_empty].
  - apply NoDup_nil_2.
  - intros j b d Hj. by rewrite lookup_nil in Hj.
  - intros u. rewrite initial_color. case_decide; split; eauto; try done.
    rewrite lookup_empty. by intros [? ?].
Qed.

Lemma initial_no_gray g : color (initialState items) g ≠ Some Gray.
Proof.
  simpl. rewrite initial_color. case_decide; [done | by rewrite lookup_empty].
Qed.

Lemma initial_whites : NoDup keys → whitesWithin (initialState items) (length items).
Proof.
  intros Hnd. exists keys. split_and!; [done | | by rewrite length_fmap].
  intros u. simpl. rewrite initial_color. case_decide; [done | by rewrite lookup_empty].
Qed.

(** The outer loop, which starts a search at every vertex still unvisited. *)
Lemma outer_spec fuel n :
  n < fuel →
  ∀ ks st, (∀ k, k ∈ ks → k ∈ keys) → sortInv st →
    (∀ g, color st g ≠ Some Gray) → whitesWithin st n →
    searchPost (dependenciesDone st ks) (forEach ks (visitIfWhite fuel items) st).
Proof.
  intros Hn. induction ks as [ | k ks IH]; intros st Hsub Hinv Hng Hws.
  - simpl. split_and!; [done | apply advances_refl | ]. intros d Hd. by apply elem_of_nil in Hd.
  - assert (Hk : k ∈ keys) by (apply Hsub; left).
    assert (Hsub' : ∀ k', k' ∈ ks → k' ∈ keys) by (intros; apply Hsub; by right).
    simpl. unfold visitIfWhite at 1.
    destruct (color st k) as [[ | | ] | ] eqn:Hc.
    + assert (Hst : onStack st k) by (intros g Hg; by destruct (Hng g)).
      pose proof (visit_spec fuel n k st Hn Hinv Hc Hst Hws) as Hvis.
      destruct (visit fuel items k st) as [st1 | msg | ]; simpl in Hvis; [ | done | done].
      destruct Hvis as (Hinv1 & Hadv1 & Hb1).
      assert (Hng1 : ∀ g, color st1 g ≠ Some Gray).
      { intros g Hg. apply (Hng g). by apply (advances_gray st st1 g Hadv1). }
      specialize (IH st1 Hsub' Hinv1 Hng1 (whitesWithin_advances _ _ _ Hadv1 Hws)).
      eapply searchPost_mono; [ | exact IH].
      intros st2 (Hinv2 & Hadv2 & Hb2). split_and!; [done | by eapply advances_trans | ].
      intros d' [-> | Hd']%elem_of_cons Hk'; [ | by apply Hb2].
      by eapply advances_black.
    + by destruct (Hng k).
    + specialize (IH st Hsub' Hinv Hng Hws).
      eapply searchPost_mono; [ | exact IH].
      intros st2 (Hinv2 & Hadv2 & Hb2). split_and!; [done | done | ].
      intros d' [-> | Hd']%elem_of_cons Hk'; [ | by apply Hb2].
      by eapply advances_black.
    + apply (inv_dom _ Hinv) in Hk. rewrite Hc in Hk. by destruct Hk.
Qed.

(** Every outcome of the sequencer is justified: an order is a permutation
    of the input ids that respects every edge, and the cycle error is
    thrown on cyclic graphs only. *)
Lemma sort_sound :
  NoDup keys →
  match topologicallySortItems items with
  | Returned order =>
      order ≡ₚ keys ∧ ∀ T d, edge items T d → before order d T
  | Threw msg => msg = cyclicalMessage ∧ cyclic items
  | OutOfFuel => False
  end.
Proof.
  intros Hnd. unfold topologicallySortItems.
  pose proof (outer_spec (sortFuel items) (length items) ltac:(unfold sortFuel; lia)
                keys (initialState items) (λ k H, H) initial_inv
                initial_no_gray (initial_whites Hnd)) as Hout.
  destruct (forEach _ _ _) as [st | msg | ]; simpl in Hout; [ | done | done].
  destruct Hout as (Hinv & _ & Hb). split.
  - apply NoDup_Permutation; [apply (inv_nodup _ Hinv) | done | ].
    intros u. rewrite (inv_black _ Hinv). split; [ | intros Hu; by apply Hb].
    intros Hu. apply (inv_dom _ Hinv). rewrite Hu. eauto.
  - intros T d (HT & Hd & Hdk).
    assert (HTb : T ∈ buildList st) by (apply (inv_black _ Hinv); by apply Hb).
    apply list_elem_of_lookup in HTb as [j Hj].
    destruct (inv_order _ Hinv j T d Hj Hd Hdk) as (i & Hi & Hlt).
    by exists i, j.
Qed.

(** An order that respects every edge exists for acyclic graphs only. *)
Lemma order_acyclic (order : list string) :
  NoDup order → (∀ T d, edge items T d → before order d T) → ¬ cyclic items.
Proof.
  intros Hnd Hord [c Hc].
  assert (Htc : ∀ x y, tc (edge items) x y → before order y x).
  { induction 1 as [x y Hxy | x y z Hxy _ IH]; [by apply Hord | ].
    destruct IH as (i & j & Hi & Hj & Hij).
    destruct (Hord x y Hxy) as (i' & j' & Hi' & Hj' & Hij').
    assert (j = i') by (by eapply NoDup_lookup). subst i'.
    exists i, j'. split_and!; [done | done | lia]. }
  destruct (Htc c c Hc) as (i & j & Hi & Hj & Hij).
  assert (i = j) by (by eapply NoDup_lookup). lia.
Qed.

Lemma returned_acyclic (order : list string) :
  NoDup keys → topologicallySortItems items = Returned order → ¬ cyclic items.
Proof.
  intros Hnd Hret. pose proof (sort_sound Hnd) as Hs. rewrite Hret in Hs.
  destruct Hs as [Hperm Hord]. apply (order_acyclic order); [ | done].
  by rewrite Hperm.
Qed.

Lemma dependenciesOf_elem (T : string) (ds : list string) :
  NoDup keys → (T, ds) ∈ items → dependenciesOf items T = ds.
Proof.
  induction items as [ | [k ds'] its IH]; intros Hnd Hin; [by apply elem_of_nil in Hin | ].
  simpl in *. apply NoDup_cons in Hnd as [Hk Hnd].
  apply elem_of_cons in Hin as [[= -> ->] | Hin].
  - by rewrite decide_True.
  - rewrite decide_False; [by apply IH | ].
    intros ->. apply Hk. apply list_elem_of_fmap. by exists (T, ds).
Qed.

(** C1. For every dependency graph without cycles, the sequencer returns an
    array that is a permutation of all input item ids in which every
    dependency [d] of a template [T] that exists in the input set appears
    strictly before [T] (dependencies outside the input set put no
    constraint on the order), and running it again on the same input gives
    the same array. *)
Theorem C1_acyclic_graph_is_ordered :
  NoDup keys → ¬ cyclic items →
  ∃ order,
    topologicallySortItems items = Returned order
    ∧ order ≡ₚ keys
    ∧ (∀ T ds d, (T, ds) ∈ items → d ∈ ds → d ∈ keys → before order d T)
    ∧ (∀ again, again = topologicallySortItems items → again = Returned order).
Proof.
  intros Hnd Hacyc. pose proof (sort_sound Hnd) as Hs.
  destruct (topologicallySortItems items) as [order | msg | ]; [ | | done].
  - destruct Hs as [Hperm Hord]. exists order. split_and!; [done | done | | done].
    intros T ds d HT Hd Hdk. apply Hord. split_and!; [ | | done].
    + apply list_elem_of_fmap. by exists (T, ds).
    + by rewrite (dependenciesOf_elem T ds).
  - by destruct Hs as [_ Hc].
Qed.

(** C2. For every dependency graph that contains a cycle, a vertex that
    lists itself among its dependencies included, the sequencer throws the
    error "Cyclical dependency graph detected" and so returns no ordering. *)
Theorem C2_cyclic_graph_is_rejected :
  NoDup keys →
  (cyclic items ∨ ∃ T ds, (T, ds) ∈ items ∧ T ∈ ds) →
  topologicallySortItems items = Threw "Cyclical dependency graph detected"
  ∧ ∀ order, topologicallySortItems items ≠ Returned order.
Proof.
  intros Hnd Hcyc.
  assert (Hc : cyclic items).
  { destruct Hcyc as [Hc | (T & ds & HT & Hself)]; [done | ].
    exists T. apply tc_once.
    assert (HTk : T ∈ keys) by (apply list_elem_of_fmap; by exists (T, ds)).
    split_and!; [done | | done]. by rewrite (dependenciesOf_elem T ds). }
  pose proof (sort_sound Hnd) as Hs.
  destruct (topologicallySortItems items) as [order | msg | ] eqn:Hrun; [ | | done].
  - destruct Hs as [Hperm Hord]. destruct (order_acyclic order); [ | done | done].
    by rewrite Hperm.
  - destruct Hs as [-> _]. split; [done | ]. intros order. discriminate.
Qed.

End sequencer_facts.

(** The orders of the test suite. *)
Example sorts_an_item_and_its_dependencies :
  Sequencer.topologicallySortItems [("abc", ["ghi"; "def"]); ("def", []); ("ghi", [])]
  = Returned ["ghi"; "def"; "abc"]
  ∧ Sequencer.topologicallySortItems
      [("abc", ["ghi"; "def"]); ("def", ["ghi"]); ("ghi", [])]
    = Returned ["ghi"; "def"; "abc"]
  ∧ Sequencer.topologicallySortItems [("abc", ["ghi"]); ("def", []); ("ghi", ["def"])]
    = Returned ["def"; "ghi"; "abc"].
Proof. vm_compute. done. Qed.

(** The diamond of the specification: [D] before [B] and [C], both before [A]. *)
Lemma C1_acyclic_graph_is_ordered_witness :
  ∃ order,
    Sequencer.topologicallySortItems
      [("A", ["B"; "C"]); ("B", ["D"]); ("C", ["D"; "external"]); ("D", [])]
    = Returned order
    ∧ order = ["D"; "B"; "C"; "A"].
Proof.
  destruct (C1_acyclic_graph_is_ordered
              [("A", ["B"; "C"]); ("B", ["D"]); ("C", ["D"; "external"]); ("D", [])])
    as (order & Hrun & _).
  - compute_done.
  - eapply returned_acyclic; [compute_done | ].
    vm_compute. reflexivity.
  - exists order. split; [exact Hrun | ].
    vm_compute in Hrun. by injection Hrun.
Defined.

(** The cyclic graphs of the test suite: a cycle through two items, and
    an item that depends on itself. *)
Lemma C2_cyclic_graph_is_rejected_witness :
  Sequencer.topologicallySortItems
    [("abc", ["ghi"]); ("def", ["ghi"]); ("ghi", ["abc"])]
  = Threw "Cyclical dependency graph detected"
  ∧ Sequencer.topologicallySortItems [("abc", []); ("def", ["def"]); ("ghi", [])]
    = Threw "Cyclical dependency graph detected".
Proof.
  split.
  - apply C2_cyclic_graph_is_rejected.
    + compute_done.
    + left. exists "abc". eapply tc_l; [ | apply tc_once].
      * instantiate (1 := "ghi"). unfold Sequencer.edge. simpl.
        split_and!; compute_done.
      * unfold Sequencer.edge. simpl.
        split_and!; compute_done.
  - apply C2_cyclic_graph_is_rejected.
    + compute_done.
    + right. exists "def", ["def"]. split; compute_done.
Defined.

(** ** Reference Templatizer *)

Section templatizer_facts.
Import JsString Templatizer.

Example templatize_group_id :
  templatizeTerm "grp1234567890" "grp1234567890" ".itemId" = "{{grp1234567890.itemId}}".
Proof. vm_compute. reflexivity. Qed.

Example detemplatize_payload :
  replaceInTemplate "[{{abc.itemId}}, {{def.itemId}}, {{abc.itemId}}]"
                    [("abc", [("itemId", "xyz")])]
  = "[xyz, {{def.itemId}}, xyz]".
Proof. vm_compute. reflexivity. Qed.

Lemma append_cons (c : ascii) (a b : string) :
  String c a +:+ b = String c (a +:+ b).
Proof. done. Qed.


Lemma startsWith_app (p r : string) : startsWith (p +:+ r) p = true.
Proof. induction p as [ | a p IH]; simpl; [done | by rewrite decide_True]. Qed.

Lemma startsWith_inv (s p : string) :
  startsWith s p = true → ∃ r, s = p +:+ r.
Proof.
  revert s. induction p as [ | a p IH]; intros s H; simpl in *; [by exists s | ].
  destruct s as [ | b s]; [done | ]. case_decide; [subst b | done].
  destruct (IH s H) as [r ->]. by exists r.
Qed.

Lemma startsWith_app_l (s p q : string) :
  startsWith s (p +:+ q) = true → startsWith s p = true.
Proof.
  revert s. induction p as [ | a p IH]; intros s H; simpl in *; [done | ].
  destruct s as [ | b s]; [done | ]. case_decide; [by apply IH | done].
Qed.

Lemma includes_cons (c : ascii) (s sub : string) :
  includes (String c s) sub = startsWith (String c s) sub || includes s sub.
Proof. done. Qed.

Lemma includes_app_r (w r sub : string) :
  includes (w +:+ r) sub = false → includes r sub = false.
Proof.
  induction w as [ | a w IH]; [done | ]. rewrite append_cons, includes_cons.
  intros [_ H]%orb_false_elim. by apply IH.
Qed.

Lemma includes_longer (s p q : string) :
  includes s p = false → includes s (p +:+ q) = false.
Proof.
  induction s as [ | c s IH].
  - simpl. rewrite !orb_false_r. intros H.
    destruct (startsWith "" (p +:+ q)) eqn:E; [ | done].
    apply startsWith_app_l in E. congruence.
  - rewrite !includes_cons. intros [H1 H2]%orb_false_elim.
    rewrite (IH H2), orb_false_r.
    destruct (startsWith (String c s) (p +:+ q)) eqn:E; [ | done].
    apply startsWith_app_l in E. congruence.
Qed.








Section roundtrip.

Variables I suffix I2 : string.
Hypothesis I_nonempty : I ≠ "".
Hypothesis I_no_brace : includes I "{" = false.

Local Abbreviation placeholder := ("{{" +:+ I +:+ suffix +:+ "}}").






End roundtrip.

End templatizer_facts.

(** ** Dependency Resolver *)

Section resolver_facts.
Import Resolver.

Variable args : runArguments.

Local Abbreviation ids s := (itemId <$> existingTemplates s).

(** Two items that both depend on [X]: whichever conversion is answered
    first starts the resolution of [X]; the other finds the placeholder. *)
Example shared_dependency_once :
  let A := {| itemId := "A"; type := "Web Map"; dependencies := ["X"] |} in
  let B := {| itemId := "B"; type := "Dashboard"; dependencies := ["X"; "A"] |} in
  let infoA := {| id := "A"; infoType := "Web Map"; tags := []; extent := None |} in
  let infoB := {| id := "B"; infoType := "Dashboard"; tags := []; extent := None |} in
  let s0 := (createItemTemplate "B" (createItemTemplate "A" emptyRun).1).1 in
  let fetched := [(0, ItemFetched infoA); (1, ItemFetched infoB)] in
  ((λ s, ids s) <$> runAnswers args (fetched ++ [(0, Converted A); (1, Converted B)]) s0)
  = Some ["A"; "B"; "X"]
  ∧ ((λ s, ids s) <$> runAnswers args (fetched ++ [(1, Converted B); (0, Converted A)]) s0)
    = Some ["A"; "B"; "X"]
  ∧ (promises <$> runAnswers args (fetched ++ [(1, Converted B); (0, Converted A)]) s0)
    = Some [Waiting (AwaitAll []); Waiting (AwaitAll [2]); Waiting (AwaitGetItem "X")].
Proof. vm_compute. done. Qed.

(** *** The store is looked up by id *)

Lemma find_None (l : list IItemTemplate) (x : string) :
  findTemplateInList l x = None ↔ x ∉ itemId <$> l.
Proof.
  unfold findTemplateInList. rewrite fmap_None, list_find_None, Forall_forall.
  rewrite list_elem_of_fmap. split.
  - intros H (t & -> & Ht). by apply (H t).
  - intros H t Ht Heq. apply H. by exists t.
Qed.

Lemma find_Some (l : list IItemTemplate) (x : string) (t : IItemTemplate) :
  findTemplateInList l x = Some t → t ∈ l ∧ itemId t = x.
Proof.
  unfold findTemplateInList. intros ([i t'] & Hf & [= ->])%fmap_Some.
  apply list_find_Some in Hf as (Hi & Ht & _). split; [ | done].
  by eapply list_elem_of_lookup_2.
Qed.

Lemma find_is_Some (l : list IItemTemplate) (x : string) :
  x ∈ itemId <$> l → is_Some (findTemplateInList l x).
Proof.
  intros Hx. destruct (findTemplateInList l x) eqn:E; [eauto | ].
  by apply find_None in E.
Qed.

Lemma find_app_l (l k : list IItemTemplate) (x : string) (t : IItemTemplate) :
  findTemplateInList l x = Some t → findTemplateInList (l ++ k) x = Some t.
Proof.
  unfold findTemplateInList. intros ([i t'] & Hf & [= ->])%fmap_Some.
  by rewrite (list_find_app_l _ _ _ _ _ Hf).
Qed.

Lemma find_app_r (l k : list IItemTemplate) (x : string) :
  x ∉ itemId <$> l → findTemplateInList (l ++ k) x = findTemplateInList k x.
Proof.
  intros Hx%find_None. unfold findTemplateInList in *.
  apply fmap_None in Hx. rewrite list_find_app_r by done.
  by destruct (list_find _ k) as [[i t] | ].
Qed.

Lemma find_placeholder (x : string) :
  findTemplateInList [createPlaceholderTemplate x] x = Some (createPlaceholderTemplate x).
Proof. unfold findTemplateInList. simpl. by rewrite decide_True. Qed.

(** Replacing a template by id keeps the ids of the store, slot by slot. *)
Lemma replace_ids (l : list IItemTemplate) (t : IItemTemplate) :
  itemId <$> (_replaceTemplate l (itemId t) t).1 = itemId <$> l.
Proof.
  unfold _replaceTemplate, findTemplateIndexInList.
  destruct (list_find _ l) as [[i t'] | ] eqn:Hf; simpl; [ | done].
  apply list_find_Some in Hf as (Hi & Ht & _).
  rewrite list_fmap_insert. apply list_insert_id.
  by rewrite list_lookup_fmap, Hi, <- Ht.
Qed.

Lemma replace_find_other (l : list IItemTemplate) (t : IItemTemplate) (x : string) :
  x ≠ itemId t →
  findTemplateInList (_replaceTemplate l (itemId t) t).1 x = findTemplateInList l x.
Proof.
  intros Hne. unfold _replaceTemplate, findTemplateIndexInList.
  destruct (list_find _ l) as [[i t'] | ] eqn:Hf; simpl; [ | done].
  apply list_find_Some in Hf as (Hi & Ht & _).
  revert i Hi. induction l as [ | a l IH]; intros i Hi; [done | ].
  unfold findTemplateInList in *. destruct i as [ | i]; simpl in *.
  - injection Hi as ->. rewrite !decide_False by congruence. done.
  - destruct (decide (itemId a = x)); [done | ].
    specialize (IH i Hi). destruct (list_find _ (<[i:=t]> l)) as [[j u] | ],
      (list_find _ l) as [[j' u'] | ]; simpl in *; congruence.
Qed.

(** *** Starting resolutions *)

(** The dependencies that start a resolution: those the store does not
    hold yet, each once. *)
Fixpoint newIds (seen deps : list string) : list string :=
  match deps with
  | [] => []
  | d :: deps' =>
      if decide (d ∈ seen) then newIds seen deps' else d :: newIds (seen ++ [d]) deps'
  end.

(** The state after the resolutions of [new] have started: a placeholder
    and a promise waiting for [getItem] each. *)
Definition startBatch (new : list string) (s : state) : state :=
  {| existingTemplates := existingTemplates s ++ (createPlaceholderTemplate <$> new);
     promises := promises s ++ ((λ d, Waiting (AwaitGetItem d)) <$> new);
     itemThumbnails := itemThumbnails s;
     console := console s |}.

Lemma newIds_fresh (seen deps : list string) (d : string) :
  d ∈ newIds seen deps → (d ∉ seen) ∧ (d ∈ deps).
Proof.
  revert seen. induction deps as [ | a deps IH]; intros seen; simpl; [intros H; by apply elem_of_nil in H | ].
  case_decide as Ha.
  - intros [H1 H2]%IH. split; [done | by right].
  - intros [-> | [H1 H2]%IH]%elem_of_cons; [split; [done | by left] | ].
    split; [ | by right]. intros H. apply H1, elem_of_app. by left.
Qed.

Lemma newIds_NoDup (seen deps : list string) : NoDup (newIds seen deps).
Proof.
  revert seen. induction deps as [ | a deps IH]; intros seen; simpl; [apply NoDup_nil_2 | ].
  case_decide as Ha; [apply IH | ]. apply NoDup_cons. split; [ | apply IH].
  intros [H _]%newIds_fresh. apply H, elem_of_app. right. by left.
Qed.

Lemma newIds_covers (seen deps : list string) (d : string) :
  d ∈ deps → d ∈ seen ∨ d ∈ newIds seen deps.
Proof.
  revert seen. induction deps as [ | a deps IH]; intros seen; [intros H; by apply elem_of_nil in H | ].
  simpl. intros [-> | Hd]%elem_of_cons.
  - case_decide; [by left | right; by left].
  - case_decide as Ha; [by apply IH | ].
    destruct (IH (seen ++ [a]) Hd) as [[Hs | ->%list_elem_of_singleton]%elem_of_app | Hn].
    + by left.
    + right. by left.
    + right. by right.
Qed.

Lemma startBatch_ids (new : list string) (s : state) :
  ids (startBatch new s) = ids s ++ new.
Proof.
  simpl. rewrite fmap_app, <- list_fmap_compose. f_equal.
  induction new as [ | d new IH]; simpl; [done | by f_equal].
Qed.

Lemma startBatch_nil (s : state) : startBatch [] s = s.
Proof. destruct s. unfold startBatch. simpl. by rewrite !app_nil_r. Qed.

Lemma startBatch_app (new1 new2 : list string) (s : state) :
  startBatch new2 (startBatch new1 s) = startBatch (new1 ++ new2) s.
Proof. unfold startBatch. simpl. by rewrite !fmap_app, !app_assoc. Qed.

Lemma createItemTemplate_found (x : string) (s : state) :
  x ∈ ids s → createItemTemplate x s = newPromise Resolved s.
Proof.
  intros [t Ht]%find_is_Some. unfold createItemTemplate. by rewrite Ht.
Qed.

Lemma createItemTemplate_fresh (x : string) (s : state) :
  x ∉ ids s → createItemTemplate x s = (startBatch [x] s, length (promises s)).
Proof.
  intros Hx%find_None. unfold createItemTemplate. by rewrite Hx.
Qed.

(** The loop over the dependencies starts the resolutions of the new ids
    and collects their promises, in order. *)
Lemma startDependencies_spec (deps : list string) (s : state) (dfds : list nat) :
  foldl startDependency (s, dfds) deps
  = (startBatch (newIds (ids s) deps) s,
     dfds ++ seq (length (promises s)) (length (newIds (ids s) deps))).
Proof.
  revert s dfds. induction deps as [ | d deps IH]; intros s dfds; simpl.
  - by rewrite startBatch_nil, app_nil_r.
  - unfold startDependency at 2. simpl. case_decide as Hd.
    + destruct (find_is_Some _ _ Hd) as [t ->]. apply IH.
    + rewrite (proj2 (find_None _ _) Hd), createItemTemplate_fresh by done.
      rewrite IH, startBatch_ids, startBatch_app. simpl.
      rewrite length_app. simpl. rewrite <- app_assoc. simpl.
      by rewrite Nat.add_1_r.
Qed.

Lemma onConverted_spec (p : nat) (t : IItemTemplate) (s : state) :
  let s1 := withTemplates (_replaceTemplate (existingTemplates s) (itemId t) t).1 s in
  let new := newIds (ids s) (dependencies t) in
  onConverted p t s
  = if decide (length (dependencies t) = 0) then setPromise p Resolved s1
    else setPromise p (Waiting (AwaitAll (seq (length (promises s)) (length new))))
           (startBatch new s1).
Proof.
  intros s1 new. unfold onConverted. fold s1. case_decide; [done | ].
  rewrite startDependencies_spec. simpl. by rewrite replace_ids.
Qed.

(** *** The store only grows, by ids it did not hold *)

Definition grows (s s' : state) : Prop :=
  ∃ new, ids s' = ids s ++ new ∧ NoDup new ∧ ∀ d, d ∈ new → d ∉ ids s.

Lemma grows_refl (s : state) : grows s s.
Proof.
  exists []. rewrite app_nil_r. split_and!; [done | apply NoDup_nil_2 | ].
  intros d Hd. by apply elem_of_nil in Hd.
Qed.

Lemma grows_same (s s' : state) : ids s' = ids s → grows s s'.
Proof. intros H. destruct (grows_refl s) as (new & Hn & ?). exists new. by rewrite H. Qed.

Lemma grows_trans (s1 s2 s3 : state) : grows s1 s2 → grows s2 s3 → grows s1 s3.
Proof.
  intros (n1 & E1 & N1 & F1) (n2 & E2 & N2 & F2). exists (n1 ++ n2).
  split_and!.
  - by rewrite E2, E1, app_assoc.
  - apply NoDup_app. split_and!; [done | | done].
    intros d Hd1 Hd2. apply (F2 d Hd2). rewrite E1. apply elem_of_app. by right.
  - intros d [Hd | Hd]%elem_of_app; [by apply F1 | ].
    intros Hs. apply (F2 d Hd). rewrite E1. apply elem_of_app. by left.
Qed.

Lemma grows_NoDup (s s' : state) : grows s s' → NoDup (ids s) → NoDup (ids s').
Proof.
  intros (new & E & N & F) Hnd. rewrite E. apply NoDup_app. split_and!; [done | | done].
  intros d Hd Hn. by apply (F d Hn).
Qed.

Lemma grows_elem (s s' : state) (x : string) : grows s s' → x ∈ ids s → x ∈ ids s'.
Proof. intros (new & E & _) Hx. rewrite E. apply elem_of_app. by left. Qed.

Lemma startBatch_grows (new : list string) (s : state) :
  NoDup new → (∀ d, d ∈ new → d ∉ ids s) → grows s (startBatch new s).
Proof. intros Hn Hf. exists new. by rewrite startBatch_ids. Qed.

Lemma call_grows (x : string) (s : state) : grows s (createItemTemplate x s).1.
Proof.
  destruct (decide (x ∈ ids s)) as [Hx | Hx].
  - rewrite createItemTemplate_found by done. by apply grows_same.
  - rewrite createItemTemplate_fresh by done. apply startBatch_grows.
    + apply NoDup_singleton.
    + by intros d ->%list_elem_of_singleton.
Qed.

Lemma onConverted_grows (p : nat) (t : IItemTemplate) (s : state) :
  grows s (onConverted p t s).
Proof.
  rewrite onConverted_spec. case_decide.
  - apply grows_same. simpl. apply replace_ids.
  - exists (newIds (ids s) (dependencies t)). split_and!.
    + simpl. rewrite fmap_app, replace_ids. f_equal.
      rewrite <- list_fmap_compose. apply list_fmap_id.
    + apply newIds_NoDup.
    + intros d Hd. by apply newIds_fresh in Hd as [? _].
Qed.

Lemma step_grows (p : nat) (r : response) (s s' : state) :
  step args p r s = Some s' → grows s s'.
Proof.
  unfold step. destruct (promises s !! p) as [[k | | ] | ]; [ | done ..].
  destruct k, r; intros H; try done; try (injection H as <-);
    try (by apply grows_same); try apply onConverted_grows.
  - unfold onItemFetched. repeat case_match; by apply grows_same.
  - repeat case_match; try done; injection H as <-; by apply grows_same.
Qed.

Lemma reachable_grows (s0 s : state) : reachable args s0 s → grows s0 s.
Proof.
  induction 1 as [ | s x _ IH | s p r s' _ IH Hstep]; [apply grows_refl | | ].
  - eapply grows_trans; [exact IH | apply call_grows].
  - eapply grows_trans; [exact IH | by eapply step_grows].
Qed.

Lemma reachable_trans (s0 s1 s2 : state) :
  reachable args s0 s1 → reachable args s1 s2 → reachable args s0 s2.
Proof.
  intros H01. induction 1 as [ | s x _ IH | s p r s' _ IH Hstep]; [done | | ].
  - by apply reach_call.
  - by eapply reach_step.
Qed.

Lemma no_entry (l : list IItemTemplate) (x : string) :
  x ∉ itemId <$> l → filter (λ t, itemId t = x) l = [].
Proof.
  induction l as [ | a l IH]; [done | ]. rewrite fmap_cons, not_elem_of_cons.
  intros [Hxa Hx]. rewrite filter_cons_False by done. by apply IH.
Qed.

Lemma one_entry (l : list IItemTemplate) (x : string) :
  NoDup (itemId <$> l) → x ∈ itemId <$> l →
  length (filter (λ t, itemId t = x) l) = 1.
Proof.
  induction l as [ | a l IH]; [intros _ Hx; by apply elem_of_nil in Hx | ].
  rewrite fmap_cons. intros [Ha Hnd]%NoDup_cons Hx.
  destruct (decide (itemId a = x)) as [Hax | Hax].
  - rewrite filter_cons_True by done. subst x. by rewrite no_entry.
  - rewrite filter_cons_False by done. apply IH; [done | ].
    apply elem_of_cons in Hx as [-> | Hx]; done.
Qed.

(** C3. During a resolution run the store holds exactly one entry per
    source item id.  A call of [createItemTemplate] checks the store before
    any asynchronous work: when an entry for the id is present (a
    placeholder counts) it resolves at once and leaves the store as it is;
    otherwise it pushes a placeholder in the same synchronous step.  From
    then on, whatever items depend on the id and in whatever order the
    answers of the collaborators arrive, the store holds one entry for it. *)
Theorem C3_one_template_per_item (s0 : state) :
  NoDup (ids s0) →
  ∀ s x, reachable args s0 s →
    let s1 := (createItemTemplate x s).1 in
    (∀ t, findTemplateInList (existingTemplates s) x = Some t →
          existingTemplates s1 = existingTemplates s
          ∧ promises s1 = promises s ++ [Resolved])
    ∧ (findTemplateInList (existingTemplates s) x = None →
       existingTemplates s1 = existingTemplates s ++ [createPlaceholderTemplate x]
       ∧ promises s1 = promises s ++ [Waiting (AwaitGetItem x)])
    ∧ (∀ s2, reachable args s1 s2 →
             NoDup (ids s2) ∧ length (entriesFor x s2) = 1).
Proof.
  intros Hnd s x Hs s1. split_and!.
  - intros t Ht. subst s1. unfold createItemTemplate. by rewrite Ht.
  - intros Hnone. subst s1. unfold createItemTemplate. by rewrite Hnone.
  - intros s2 Hs2.
    assert (Hs1 : reachable args s0 s1) by (by apply reach_call).
    pose proof (reachable_grows _ _ (reachable_trans _ _ _ Hs1 Hs2)) as Hg.
    pose proof (grows_NoDup _ _ Hg Hnd) as Hnd2. split; [done | ].
    apply one_entry; [done | ].
    apply (grows_elem s1 s2); [by apply reachable_grows | ].
    subst s1. destruct (decide (x ∈ ids s)) as [Hx | Hx].
    + by rewrite createItemTemplate_found.
    + rewrite createItemTemplate_fresh by done. cbn [fst].
      rewrite startBatch_ids. apply elem_of_app. right. by left.
Qed.

(** *** Who may replace a placeholder

    A call owns the id it is resolving from its start until its converter
    has answered; only the owner replaces the placeholder of an id. *)

Definition target (k : continuation) : option string :=
  match k with
  | AwaitGetItem x | AwaitGetGroup x => Some x
  | AwaitConvert _ itemInfo | AwaitGroupConvert itemInfo => Some (id itemInfo)
  | AwaitThumbnailBlob _ | AwaitAddThumbnail _ | AwaitAll _ | AwaitNothing => None
  end.

Definition targetOf (ps : promiseState) : option string :=
  match ps with
  | Waiting k => target k
  | Resolved | Rejected => None
  end.

Definition owns (s : state) (p : nat) (x : string) : Prop :=
  ∃ ps, promises s !! p = Some ps ∧ targetOf ps = Some x.

Record ownerInv (s : state) : Prop := {
  own_nodup : NoDup (ids s);
  own_unique : ∀ p q x, owns s p x → owns s q x → p = q;
  own_placeholder : ∀ p x, owns s p x →
    findTemplateInList (existingTemplates s) x = Some (createPlaceholderTemplate x)
}.

Definition unowned (x : string) (s : state) : Prop := ∀ p, ¬ owns s p x.

Lemma owns_in_store (s : state) (p : nat) (x : string) :
  ownerInv s → owns s p x → x ∈ ids s.
Proof.
  intros Hinv Ho. apply (own_placeholder _ Hinv) in Ho.
  apply find_Some in Ho as [Hin _]. apply list_elem_of_fmap.
  by exists (createPlaceholderTemplate x).
Qed.

Lemma start_ownerInv (s0 : state) :
  NoDup (ids s0) → promises s0 = [] → ownerInv s0.
Proof.
  intros Hnd Hp. split; [done | | ]; intros p; intros; unfold owns in *;
    rewrite Hp in *; naive_solver.
Qed.

(** A callback that leaves the store alone and passes its id on, or drops it. *)
Definition quietStep (p : nat) (s s' : state) : Prop :=
  existingTemplates s' = existingTemplates s
  ∧ ∃ ps, promises s' = <[p := ps]> (promises s)
          ∧ ∀ x, targetOf ps = Some x → owns s p x.

Lemma quietStep_owns (p q : nat) (x : string) (s s' : state) :
  quietStep p s s' → owns s' q x → owns s q x.
Proof.
  intros (_ & ps & Hp & Hps) (ps' & Hq & Ht). rewrite Hp in Hq.
  apply list_lookup_insert_Some in Hq as [(-> & -> & _) | [_ Hq]].
  - by apply Hps.
  - by exists ps'.
Qed.

Lemma quietStep_ownerInv (p : nat) (s s' : state) :
  quietStep p s s' → ownerInv s → ownerInv s'.
Proof.
  intros Hq [Hnd Hu Hp]. pose proof Hq as (Hst & _). split.
  - by rewrite Hst.
  - intros p1 p2 x H1 H2. eapply Hu; by eapply quietStep_owns.
  - intros q x Ho. rewrite Hst. eapply Hp. by eapply quietStep_owns.
Qed.

Lemma quietStep_unowned (p : nat) (x : string) (s s' : state) :
  quietStep p s s' → unowned x s → unowned x s'.
Proof. intros Hq Hun q Ho. apply (Hun q). by eapply quietStep_owns. Qed.

Lemma find_placeholders (new : list string) (x : string) :
  x ∈ new →
  findTemplateInList (createPlaceholderTemplate <$> new) x
  = Some (createPlaceholderTemplate x).
Proof.
  induction new as [ | d new IH]; [by intros ?%elem_of_nil | ].
  intros Hx. unfold findTemplateInList in *. simpl.
  destruct (decide (d = x)) as [-> | Hne]; [done | ].
  apply elem_of_cons in Hx as [-> | Hx]; [done | ]. specialize (IH Hx).
  destruct (list_find _ _) as [[i t] | ]; simpl in *; congruence.
Qed.

Lemma startBatch_owns (new : list string) (s : state) (q : nat) (x : string) :
  owns (startBatch new s) q x → owns s q x ∨ (x ∈ new ∧ length (promises s) ≤ q).
Proof.
  intros (ps & Hq & Ht). simpl in Hq.
  apply lookup_app_Some in Hq as [Hq | [Hlen Hq]]; [left; by exists ps | right].
  apply list_lookup_fmap_Some in Hq as (d & -> & Hd). simpl in Ht.
  injection Ht as <-. split; [by eapply list_elem_of_lookup_2 | done].
Qed.

Lemma startBatch_ownerInv (new : list string) (s : state) :
  NoDup new → (∀ d, d ∈ new → d ∉ ids s) → ownerInv s → ownerInv (startBatch new s).
Proof.
  intros Hnew Hfresh Hinv. split.
  - eapply grows_NoDup; [by apply startBatch_grows | apply Hinv].
  - intros p q x Hp Hq.
    pose proof Hp as [Hp' | [Hxp Hlp]]%startBatch_owns;
    pose proof Hq as [Hq' | [Hxq Hlq]]%startBatch_owns.
    + by eapply (own_unique _ Hinv).
    + destruct (Hfresh x Hxq). by eapply owns_in_store.
    + destruct (Hfresh x Hxp). by eapply owns_in_store.
    + destruct Hp as (ps & Hp & Htp), Hq as (qs & Hq & Htq). simpl in Hp, Hq.
      rewrite lookup_app_r in Hp, Hq by done.
      apply list_lookup_fmap_Some in Hp as (d & -> & Hd).
      apply list_lookup_fmap_Some in Hq as (d' & -> & Hd').
      simpl in Htp, Htq. injection Htp as ->. injection Htq as ->.
      pose proof (NoDup_lookup _ _ _ _ Hnew Hd Hd'). lia.
  - intros p x [Hp | [Hx _]]%startBatch_owns; simpl.
    + by apply find_app_l, (own_placeholder _ Hinv p).
    + rewrite find_app_r by auto. by apply find_placeholders.
Qed.

Lemma startBatch_unowned (new : list string) (s : state) (x : string) :
  x ∈ ids s → (∀ d, d ∈ new → d ∉ ids s) → unowned x s →
  unowned x (startBatch new s)
  ∧ findTemplateInList (existingTemplates (startBatch new s)) x
    = findTemplateInList (existingTemplates s) x.
Proof.
  intros Hx Hfresh Hun. split.
  - intros q [Hq | [Hq _]]%startBatch_owns; [by apply (Hun q) | by apply (Hfresh x)].
  - destruct (find_is_Some _ _ Hx) as [t Ht]. simpl. rewrite Ht. by apply find_app_l.
Qed.

Lemma setPromise_startBatch (p : nat) (ps : promiseState) (new : list string) (s : state) :
  p < length (promises s) →
  setPromise p ps (startBatch new s) = startBatch new (setPromise p ps s).
Proof. intros Hp. unfold setPromise, startBatch. simpl. by rewrite insert_app_l. Qed.

(** The state right after the owner has replaced its placeholder. *)
Definition replaced (p : nat) (ps : promiseState) (t : IItemTemplate) (s : state) : state :=
  setPromise p ps
    (withTemplates (_replaceTemplate (existingTemplates s) (itemId t) t).1 s).

Lemma replaced_ids (p : nat) (ps : promiseState) (t : IItemTemplate) (s : state) :
  ids (replaced p ps t s) = ids s.
Proof. simpl. apply replace_ids. Qed.

Lemma replaced_owns (p q : nat) (ps : promiseState) (t : IItemTemplate) (s : state)
  (x : string) :
  targetOf ps = None → owns (replaced p ps t s) q x → q ≠ p ∧ owns s q x.
Proof.
  intros Hps (qs & Hq & Ht). simpl in Hq.
  apply list_lookup_insert_Some in Hq as [(-> & -> & _) | [Hne Hq]]; [congruence | ].
  split; [done | by exists qs].
Qed.

Lemma replaced_ownerInv (p : nat) (ps : promiseState) (t : IItemTemplate) (s : state) :
  targetOf ps = None → owns s p (itemId t) → ownerInv s → ownerInv (replaced p ps t s).
Proof.
  intros Hps Hown Hinv. split.
  - rewrite replaced_ids. apply Hinv.
  - intros q1 q2 x [_ H1]%replaced_owns [_ H2]%replaced_owns; [ | done ..].
    by eapply (own_unique _ Hinv).
  - intros q x [Hne Hq]%replaced_owns; [ | done]. simpl.
    rewrite replace_find_other; [by eapply (own_placeholder _ Hinv) | ].
    intros ->. apply Hne. by eapply (own_unique _ Hinv).
Qed.

Lemma replaced_unowned (p : nat) (ps : promiseState) (t : IItemTemplate) (s : state)
  (x : string) :
  targetOf ps = None → owns s p (itemId t) → unowned x s →
  unowned x (replaced p ps t s)
  ∧ findTemplateInList (existingTemplates (replaced p ps t s)) x
    = findTemplateInList (existingTemplates s) x.
Proof.
  intros Hps Hown Hun. split.
  - intros q [_ Hq]%replaced_owns; [by apply (Hun q) | done].
  - simpl. apply replace_find_other. intros ->. by apply (Hun p).
Qed.

Lemma onConverted_replaced (p : nat) (t : IItemTemplate) (s : state) :
  p < length (promises s) →
  ∃ ps new,
    onConverted p t s = startBatch new (replaced p ps t s)
    ∧ targetOf ps = None ∧ NoDup new ∧ (∀ d, d ∈ new → d ∉ ids s).
Proof.
  intros Hp. rewrite onConverted_spec. case_decide.
  - exists Resolved, []. rewrite startBatch_nil. split_and!; [done | done | apply NoDup_nil_2 | ].
    intros d Hd. by apply elem_of_nil in Hd.
  - eexists (Waiting (AwaitAll _)), (newIds (ids s) (dependencies t)).
    split_and!; [by rewrite setPromise_startBatch | done | apply newIds_NoDup | ].
    intros d Hd. by apply newIds_fresh in Hd as [? _].
Qed.

Lemma onConverted_ownerInv (p : nat) (t : IItemTemplate) (s : state) :
  owns s p (itemId t) → ownerInv s → ownerInv (onConverted p t s).
Proof.
  intros Hown Hinv.
  assert (Hp : p < length (promises s)).
  { destruct Hown as (ps & Hp & _). by eapply lookup_lt_Some. }
  destruct (onConverted_replaced p t s Hp) as (ps & new & -> & Hps & Hnd & Hfresh).
  apply startBatch_ownerInv; [done | by rewrite replaced_ids | ].
  by apply replaced_ownerInv.
Qed.

Lemma onConverted_unowned (p : nat) (t : IItemTemplate) (s : state) (x : string) :
  owns s p (itemId t) → x ∈ ids s → unowned x s →
  unowned x (onConverted p t s)
  ∧ findTemplateInList (existingTemplates (onConverted p t s)) x
    = findTemplateInList (existingTemplates s) x.
Proof.
  intros Hown Hx Hun.
  assert (Hp : p < length (promises s)).
  { destruct Hown as (ps & Hp & _). by eapply lookup_lt_Some. }
  destruct (onConverted_replaced p t s Hp) as (ps & new & -> & Hps & Hnd & Hfresh).
  destruct (replaced_unowned p ps t s x Hps Hown Hun) as [Hun1 Hf1].
  destruct (startBatch_unowned new (replaced p ps t s) x) as [Hun2 Hf2];
    [by rewrite replaced_ids | by rewrite replaced_ids | done | ].
  split; [done | by rewrite Hf2].
Qed.

(** Every callback either leaves the store alone or is the owner's
    replacement of its placeholder. *)
Lemma step_shape (p : nat) (k : continuation) (r : response) (s s' : state) :
  promises s !! p = Some (Waiting k) → answersRequest k r →
  step args p r s = Some s' →
  quietStep p s s' ∨ ∃ t, owns s p (itemId t) ∧ s' = onConverted p t s.
Proof.
  intros Hp Hans. unfold step. rewrite Hp.
  assert (Hquiet : ∀ ps s1,
    existingTemplates s1 = existingTemplates s → promises s1 = promises s →
    (∀ x, targetOf ps = Some x → target k = Some x) →
    quietStep p s (setPromise p ps s1)).
  { intros ps s1 Hst Hpr Hps. split; [done | ]. exists ps. simpl. rewrite Hpr.
    split; [done | ]. intros x Hx. exists (Waiting k). split; [done | by apply Hps]. }
  destruct k, r; simpl in Hans; intros H; try done; try (injection H as <-);
    try (left; by apply Hquiet).
  - left. unfold onItemFetched. repeat case_match; apply Hquiet; try done.
    simpl. intros x [= <-]. f_equal. rewrite <- Hans.
    unfold templatizeExtent. by repeat case_match.
  - right. exists itemTemplate. split; [ | done].
    exists (Waiting (AwaitConvert itemHandler itemInfo)). split; [done | ]. simpl. by f_equal.
  - left. apply Hquiet; try done. simpl. intros x [= <-]. by f_equal.
  - right. exists itemTemplate. split; [ | done].
    exists (Waiting (AwaitGroupConvert itemInfo)). split; [done | ]. simpl. by f_equal.
  - left. repeat case_match; try done; injection H as <-; by apply Hquiet.
Qed.

Lemma call_owns (y : string) (s : state) (q : nat) (x : string) :
  y ∈ ids s → owns (createItemTemplate y s).1 q x → owns s q x.
Proof.
  intros Hy. rewrite createItemTemplate_found by done. intros (ps & Hq & Ht).
  simpl in Hq. apply lookup_app_Some in Hq as [Hq | [_ Hq]]; [by exists ps | ].
  apply list_lookup_singleton_Some in Hq as [_ <-]. done.
Qed.

Lemma call_ownerInv (y : string) (s : state) :
  ownerInv s → ownerInv (createItemTemplate y s).1.
Proof.
  intros Hinv. destruct (decide (y ∈ ids s)) as [Hy | Hy].
  - split.
    + eapply grows_NoDup; [apply call_grows | apply Hinv].
    + intros p q x Hp%call_owns Hq%call_owns; [ | done ..].
      by eapply (own_unique _ Hinv).
    + intros p x Hp%call_owns; [ | done].
      rewrite createItemTemplate_found by done. simpl.
      by eapply (own_placeholder _ Hinv).
  - rewrite createItemTemplate_fresh by done. cbn [fst].
    apply startBatch_ownerInv; [apply NoDup_singleton | | done].
    by intros d ->%list_elem_of_singleton.
Qed.

Lemma call_unowned (y : string) (s : state) (x : string) :
  x ∈ ids s → unowned x s →
  unowned x (createItemTemplate y s).1
  ∧ findTemplateInList (existingTemplates (createItemTemplate y s).1) x
    = findTemplateInList (existingTemplates s) x.
Proof.
  intros Hx Hun. destruct (decide (y ∈ ids s)) as [Hy | Hy].
  - split; [intros q Hq%call_owns; [by apply (Hun q) | done] | ].
    by rewrite createItemTemplate_found.
  - rewrite createItemTemplate_fresh by done. cbn [fst].
    apply startBatch_unowned; [done | | done].
    by intros d ->%list_elem_of_singleton.
Qed.

Lemma answering_ownerInv (s0 s : state) :
  ownerInv s0 → reachableAnswering args s0 s → ownerInv s.
Proof.
  intros H0. induction 1 as [ | s y _ IH | s p k r s' _ IH Hp Hans Hstep]; [done | | ].
  - by apply call_ownerInv.
  - destruct (step_shape p k r s s' Hp Hans Hstep) as [Hq | (t & Hown & ->)].
    + by eapply quietStep_ownerInv.
    + by apply onConverted_ownerInv.
Qed.

Lemma answering_grows (s0 s : state) : reachableAnswering args s0 s → grows s0 s.
Proof.
  induction 1 as [ | s y _ IH | s p k r s' _ IH Hp Hans Hstep]; [apply grows_refl | | ].
  - eapply grows_trans; [exact IH | apply call_grows].
  - eapply grows_trans; [exact IH | by eapply step_grows].
Qed.

Lemma answering_trans (s0 s1 s2 : state) :
  reachableAnswering args s0 s1 → reachableAnswering args s1 s2 →
  reachableAnswering args s0 s2.
Proof.
  intros H01. induction 1 as [ | s y _ IH | s p k r s' _ IH Hp Hans Hstep]; [done | | ].
  - by apply answering_call.
  - by eapply answering_step.
Qed.

(** An id that no call owns keeps its entry for the rest of the run. *)
Lemma answering_unowned (s0 s : state) (x : string) :
  ownerInv s0 → x ∈ ids s0 → unowned x s0 → reachableAnswering args s0 s →
  unowned x s
  ∧ findTemplateInList (existingTemplates s) x
    = findTemplateInList (existingTemplates s0) x.
Proof.
  intros H0 Hx Hun. induction 1 as [ | s y Hs IH | s p k r s' Hs IH Hp Hans Hstep];
    [done | | ]; destruct IH as [IHun IHf];
    assert (Hxs : x ∈ ids s) by (eapply grows_elem; [by apply answering_grows | done]).
  - destruct (call_unowned y s x Hxs IHun) as [H1 H2]. split; [done | congruence].
  - destruct (step_shape p k r s s' Hp Hans Hstep) as [Hq | (t & Hown & ->)].
    + split; [by eapply quietStep_unowned | ]. destruct Hq as [-> _]. done.
    + destruct (onConverted_unowned p t s x Hown Hxs IHun) as [H1 H2].
      split; [done | congruence].
Qed.

(** *** Promises of other calls *)

Lemma step_promises (q : nat) (r : response) (s s' : state) :
  step args q r s = Some s' →
  ∃ ps extra, promises s' = <[q := ps]> (promises s ++ extra).
Proof.
  unfold step. destruct (promises s !! q) as [[k | | ] | ] eqn:Hq; [ | done ..].
  assert (Hset : ∀ ps s1, promises s1 = promises s →
    ∃ ps' extra, promises (setPromise q ps s1) = <[q := ps']> (promises s ++ extra)).
  { intros ps s1 Hs1. exists ps, []. simpl. by rewrite Hs1, app_nil_r. }
  destruct k, r; intros H; try done; try (injection H as <-); try (by apply Hset).
  - unfold onItemFetched. repeat case_match; by apply Hset.
  - rewrite onConverted_spec. case_decide; [by apply Hset | ]. by eexists _, _.
  - rewrite onConverted_spec. case_decide; [by apply Hset | ]. by eexists _, _.
  - repeat case_match; try done; injection H as <-; by apply Hset.
Qed.

Lemma step_frame (p q : nat) (r : response) (s s' : state) (ps : promiseState) :
  step args q r s = Some s' → p ≠ q →
  promises s !! p = Some ps → promises s' !! p = Some ps.
Proof.
  intros (qs & extra & ->)%step_promises Hne Hp.
  rewrite list_lookup_insert_ne by done. by apply lookup_app_l_Some.
Qed.

Lemma call_frame (p : nat) (y : string) (s : state) (ps : promiseState) :
  promises s !! p = Some ps → promises (createItemTemplate y s).1 !! p = Some ps.
Proof.
  intros Hp. unfold createItemTemplate. case_match; simpl; by apply lookup_app_l_Some.
Qed.

Lemma step_waiting (p : nat) (r : response) (s s' : state) :
  step args p r s = Some s' → ∃ k, promises s !! p = Some (Waiting k).
Proof.
  unfold step. destruct (promises s !! p) as [[k | | ] | ]; [eauto | done ..].
Qed.

(** A settled promise stays as it is. *)
Lemma settled_stays (s0 s : state) (p : nat) (ps : promiseState) :
  (ps = Resolved ∨ ps = Rejected) → promises s0 !! p = Some ps →
  reachableAnswering args s0 s → promises s !! p = Some ps.
Proof.
  intros Hps H0. induction 1 as [ | s y _ IH | s q k r s' _ IH Hq Hans Hstep]; [done | | ].
  - by apply call_frame.
  - eapply step_frame; [done | | done]. intros ->. destruct Hps; congruence.
Qed.

(** The states of a call that is setting the thumbnail of the solution. *)
Definition thumbnailPhase (ps : promiseState) : Prop :=
  match ps with
  | Waiting (AwaitThumbnailBlob _) | Waiting (AwaitAddThumbnail _) | Resolved => True
  | _ => False
  end.

Lemma thumbnailPhase_stays (s0 s : state) (p : nat) :
  (∃ ps, promises s0 !! p = Some ps ∧ thumbnailPhase ps) →
  reachableAnswering args s0 s →
  ∃ ps, promises s !! p = Some ps ∧ thumbnailPhase ps.
Proof.
  intros H0. induction 1 as [ | s y _ IH | s q k r s' _ IH Hq Hans Hstep]; [done | | ].
  - destruct IH as (ps & Hp & Hph). exists ps. split; [by apply call_frame | done].
  - destruct IH as (ps & Hp & Hph). destruct (decide (p = q)) as [-> | Hne].
    + rewrite Hq in Hp. injection Hp as <-. unfold step in Hstep. rewrite Hq in Hstep.
      assert (Hlt : q < length (promises s)) by (by eapply lookup_lt_Some).
      destruct k, r; try done; injection Hstep as <-; simpl;
        rewrite list_lookup_insert_eq by done; eauto.
    + exists ps. split; [by eapply step_frame | done].
Qed.

Lemma tags_templatizeExtent (info : ItemInfo) : tags (templatizeExtent info) = tags info.
Proof. unfold templatizeExtent. by repeat case_match. Qed.

Lemma infoType_templatizeExtent (info : ItemInfo) :
  infoType (templatizeExtent info) = infoType info.
Proof. unfold templatizeExtent. by repeat case_match. Qed.

Lemma id_templatizeExtent (info : ItemInfo) : id (templatizeExtent info) = id info.
Proof. unfold templatizeExtent. by repeat case_match. Qed.

(** A call that drops its id without replacing the placeholder leaves the
    placeholder in the store for the rest of the run. *)
Lemma dropped_keeps_placeholder (s s1 s2 : state) (p : nat) (x : string)
  (ps : promiseState) :
  ownerInv s → promises s !! p = Some (Waiting (AwaitGetItem x)) →
  existingTemplates s1 = existingTemplates s →
  promises s1 = <[p := ps]> (promises s) → targetOf ps = None →
  reachableAnswering args s1 s2 →
  findTemplateInList (existingTemplates s2) x = Some (createPlaceholderTemplate x).
Proof.
  intros Hinv Hp Hst Hpr Hps Hrun.
  assert (Hown : owns s p x) by (by exists (Waiting (AwaitGetItem x))).
  assert (Hq : quietStep p s s1).
  { split; [done | ]. exists ps. split; [done | ]. intros y Hy. congruence. }
  assert (Hun : unowned x s1).
  { intros q Hqx. pose proof (quietStep_owns _ _ _ _ _ Hq Hqx) as Hqs.
    assert (q = p) by (by eapply (own_unique _ Hinv)). subst q.
    destruct Hqx as (qs & Hqs' & Ht). rewrite Hpr in Hqs'.
    apply list_lookup_insert_Some in Hqs' as [(_ & <- & _) | [? _]]; congruence. }
  assert (Hx : x ∈ ids s1) by (rewrite Hst; by eapply owns_in_store).
  destruct (answering_unowned s1 s2 x) as [_ ->];
    [by eapply quietStep_ownerInv | done | done | done | ].
  rewrite Hst. by apply (own_placeholder _ Hinv p).
Qed.

(** C6. When the converter of a template with dependencies has answered,
    the resolutions of all dependency ids that the store does not hold yet
    are started in that same callback, and the parent call then awaits all
    of them together: it rejects as soon as one of them has rejected and
    resolves only when all have resolved.  A failure to fetch the id as an
    item and as a group, or a failure of the converter, rejects the call. *)
Theorem C6_dependencies_awaited_together (s : state) (p : nat) :
  (∀ k t, promises s !! p = Some (Waiting k) →
     ((∃ h info, k = AwaitConvert h info) ∨ (∃ info, k = AwaitGroupConvert info)) →
     dependencies t ≠ [] →
     ∃ s1 dfds,
       step args p (Converted t) s = Some s1
       ∧ promises s1 !! p = Some (Waiting (AwaitAll dfds))
       ∧ (∀ d, d ∈ dependencies t →
            d ∈ ids s ∨ ∃ q, q ∈ dfds ∧ promises s1 !! q = Some (Waiting (AwaitGetItem d)))
       ∧ (∀ q, q ∈ dfds →
            length (promises s) ≤ q
            ∧ ∃ d, d ∈ dependencies t ∧ (d ∉ ids s)
                   ∧ promises s1 !! q = Some (Waiting (AwaitGetItem d))))
  ∧ (∀ dfds, promises s !! p = Some (Waiting (AwaitAll dfds)) →
       ((∃ q, q ∈ dfds ∧ promises s !! q = Some Rejected) →
        step args p AllSettled s = Some (setPromise p Rejected s))
       ∧ ((∀ q, q ∈ dfds → promises s !! q = Some Resolved) →
          step args p AllSettled s = Some (setPromise p Resolved s))
       ∧ (∀ s', step args p AllSettled s = Some s' →
                promises s' !! p = Some Resolved →
                ∀ q, q ∈ dfds → promises s !! q = Some Resolved))
  ∧ (∀ x, promises s !! p = Some (Waiting (AwaitGetItem x)) →
       step args p ItemFetchFailed s = Some (setPromise p (Waiting (AwaitGetGroup x)) s))
  ∧ (∀ x, promises s !! p = Some (Waiting (AwaitGetGroup x)) →
       step args p GroupFetchFailed s = Some (setPromise p Rejected s))
  ∧ (∀ k, promises s !! p = Some (Waiting k) →
       ((∃ h info, k = AwaitConvert h info) ∨ (∃ info, k = AwaitGroupConvert info)) →
       step args p ConversionFailed s = Some (setPromise p Rejected s)).
Proof.
  split_and!.
  - intros k t Hp Hk Hdeps.
    assert (Hlt : p < length (promises s)) by (by eapply lookup_lt_Some).
    assert (Hstep : step args p (Converted t) s = Some (onConverted p t s)).
    { unfold step. rewrite Hp. by destruct Hk as [(h & info & ->) | (info & ->)]. }
    rewrite Hstep, onConverted_spec.
    rewrite decide_False by (by destruct (dependencies t)).
    set (new := newIds (ids s) (dependencies t)).
    set (n := length (promises s)).
    assert (Hnew : ∀ j d, new !! j = Some d →
      promises (setPromise p (Waiting (AwaitAll (seq n (length new))))
                  (startBatch new
                     (withTemplates
                        (_replaceTemplate (existingTemplates s) (itemId t) t).1 s)))
        !! (n + j) = Some (Waiting (AwaitGetItem d))).
    { intros j d Hj. simpl. rewrite list_lookup_insert_ne by (unfold n; lia).
      rewrite lookup_app_r by (unfold n; lia).
      replace (n + j - length (promises s)) with j by (unfold n; lia).
      by rewrite list_lookup_fmap, Hj. }
    eexists _, (seq n (length new)). split_and!; [done | | | ].
    + simpl. rewrite list_lookup_insert_eq; [done | ]. rewrite length_app. lia.
    + intros d Hd. destruct (newIds_covers (ids s) _ d Hd) as [Hs | Hn]; [by left | right].
      fold new in Hn. apply list_elem_of_lookup in Hn as [j Hj]. exists (n + j).
      split; [ | by apply Hnew]. apply elem_of_seq. apply lookup_lt_Some in Hj. lia.
    + intros q [Hq1 Hq2]%elem_of_seq. split; [done | ].
      destruct (lookup_lt_is_Some_2 new (q - n)) as [d Hd]; [lia | ].
      assert (Hdn : d ∈ new) by (by eapply list_elem_of_lookup_2).
      apply newIds_fresh in Hdn as [Hfresh Hin]. exists d. split_and!; [done | done | ].
      replace q with (n + (q - n)) by lia. by apply Hnew.
  - intros dfds Hp. unfold step. rewrite Hp. unfold anyRejected, allResolved. split_and!.
    + intros (q & Hq & Hrej). rewrite bool_decide_eq_true_2; [done | ].
      apply Exists_exists. by exists q.
    + intros Hall. rewrite bool_decide_eq_false_2.
      * rewrite bool_decide_eq_true_2; [done | ]. by apply Forall_forall.
      * intros (q & Hq & Hrej)%Exists_exists. specialize (Hall q Hq). congruence.
    + intros s' Hstep Hres. case_bool_decide as Hany.
      * injection Hstep as <-. simpl in Hres.
        rewrite list_lookup_insert_eq in Hres by (by eapply lookup_lt_Some). done.
      * case_bool_decide as Hall; [ | done]. by apply Forall_forall.
  - intros x Hp. unfold step. by rewrite Hp.
  - intros x Hp. unfold step. by rewrite Hp.
  - intros k Hp Hk. unfold step. rewrite Hp.
    by destruct Hk as [(h & info & ->) | (info & ->)].
Qed.

(** C7, as the code has it.  For every item that is not tagged
    [deploy.thumbnail] and whose lower-cased type maps to [null] in the
    dispatch table, the call logs a warning and resolves, the store is left
    as it is, and for the rest of the run (in which the collaborators
    answer about the ids they were asked for) the entry of the item stays
    the placeholder: no populated template ever replaces it. *)
Theorem C7_unsupported_type_is_skipped (s0 s : state) (p : nat) (info : ItemInfo) :
  NoDup (ids s0) → promises s0 = [] →
  reachableAnswering args s0 s →
  promises s !! p = Some (Waiting (AwaitGetItem (id info))) →
  "deploy.thumbnail" ∉ tags info →
  moduleMap (toLowerCase (infoType info)) = Null →
  ∃ s1,
    step args p (ItemFetched info) s = Some s1
    ∧ console s1
      = console s ++ [ConsoleWarn ("Unimplemented item type (module level) "
                                   +:+ infoType info +:+ " for " +:+ id info)]
    ∧ promises s1 !! p = Some Resolved
    ∧ existingTemplates s1 = existingTemplates s
    ∧ ∀ s2, reachableAnswering args s1 s2 →
        promises s2 !! p = Some Resolved
        ∧ findTemplateInList (existingTemplates s2) (id info)
          = Some (createPlaceholderTemplate (id info)).
Proof.
  intros Hnd Hp0 Hrun Hp Htag Htype.
  pose proof (answering_ownerInv s0 s (start_ownerInv s0 Hnd Hp0) Hrun) as Hinv.
  assert (Hlt : p < length (promises s)) by (by eapply lookup_lt_Some).
  eexists. split_and!.
  - unfold step. rewrite Hp. unfold onItemFetched.
    rewrite tags_templatizeExtent, decide_False by done.
    rewrite infoType_templatizeExtent, id_templatizeExtent, Htype. done.
  - done.
  - simpl. by rewrite list_lookup_insert_eq.
  - done.
  - intros s2 Hrun2. split.
    + eapply settled_stays; [by left | | done]. simpl. by rewrite list_lookup_insert_eq.
    + by refine (dropped_keeps_placeholder s _ s2 p (id info) Resolved Hinv Hp _ _ _ Hrun2).
Qed.

(** C8. For every item tagged [deploy.thumbnail], the call fetches the
    data of the item and adds it as the thumbnail of the solution item.
    The item does not become a template of its own: the store is not
    written, the entry of the item stays the placeholder pushed when its
    resolution began, and for the rest of the run (in which the
    collaborators answer about the ids they were asked for) no populated
    template is put in its place.  The call never rejects: it resolves when
    the thumbnail has been added, when the fetch fails and when the upload
    fails. *)
Theorem C8_thumbnail_item_sets_solution_thumbnail (s0 s : state) (p : nat)
  (info : ItemInfo) :
  NoDup (ids s0) → promises s0 = [] →
  reachableAnswering args s0 s →
  promises s !! p = Some (Waiting (AwaitGetItem (id info))) →
  "deploy.thumbnail" ∈ tags info →
  ∃ s1,
    step args p (ItemFetched info) s = Some s1
    ∧ existingTemplates s1 = existingTemplates s
    ∧ promises s1 !! p
      = Some (Waiting (AwaitThumbnailBlob
                         (portal args +:+ "/content/items/" +:+ id info +:+ "/data")))
    ∧ ∀ s2, reachableAnswering args s1 s2 →
        findTemplateInList (existingTemplates s2) (id info)
        = Some (createPlaceholderTemplate (id info))
        ∧ match promises s2 !! p with
          | Some (Waiting (AwaitThumbnailBlob _)) =>
              (∀ blob, ∃ s3,
                 step args p (BlobFetched blob) s2 = Some s3
                 ∧ existingTemplates s3 = existingTemplates s2
                 ∧ promises s3 !! p = Some (Waiting (AwaitAddThumbnail blob)))
              ∧ ∃ s3,
                  step args p BlobFetchFailed s2 = Some s3
                  ∧ existingTemplates s3 = existingTemplates s2
                  ∧ promises s3 !! p = Some Resolved
          | Some (Waiting (AwaitAddThumbnail blob)) =>
              (∃ s3,
                 step args p ThumbnailAdded s2 = Some s3
                 ∧ existingTemplates s3 = existingTemplates s2
                 ∧ itemThumbnails s3 !! solutionItemId args = Some blob
                 ∧ promises s3 !! p = Some Resolved)
              ∧ ∃ s3,
                  step args p ThumbnailAddFailed s2 = Some s3
                  ∧ existingTemplates s3 = existingTemplates s2
                  ∧ promises s3 !! p = Some Resolved
          | Some Resolved => True
          | _ => False
          end.
Proof.
  intros Hnd Hp0 Hrun Hp Htag.
  pose proof (answering_ownerInv s0 s (start_ownerInv s0 Hnd Hp0) Hrun) as Hinv.
  assert (Hlt : p < length (promises s)) by (by eapply lookup_lt_Some).
  eexists. split_and!.
  - unfold step. rewrite Hp. unfold onItemFetched.
    rewrite tags_templatizeExtent, decide_True by done. done.
  - done.
  - simpl. by rewrite list_lookup_insert_eq.
  - intros s2 Hrun2. split.
    + by refine (dropped_keeps_placeholder s _ s2 p (id info)
                  (Waiting (AwaitThumbnailBlob _)) Hinv Hp _ _ _ Hrun2).
    + match type of Hrun2 with
      | reachableAnswering _ ?s1 _ =>
          destruct (thumbnailPhase_stays s1 s2 p) as (ps & Hp2 & Hph); [ | done | ]
      end.
      { eexists. split; [simpl; by rewrite list_lookup_insert_eq | done]. }
      assert (Hlt2 : p < length (promises s2)) by (by eapply lookup_lt_Some).
      rewrite Hp2. destruct ps as [[ | url | blob | | | | | ] | | ]; try done.
      * split; [intros blob | ]; eexists; unfold step; rewrite Hp2;
          (split_and!; [done | done | simpl; by rewrite list_lookup_insert_eq]).
      * split; eexists; unfold step; rewrite Hp2.
        -- split_and!; [done | done | simpl; apply lookup_insert_eq
                        | simpl; by rewrite list_lookup_insert_eq].
        -- split_and!; [done | done | simpl; by rewrite list_lookup_insert_eq].
Qed.

End resolver_facts.

Section resolver_runs.
Import Resolver.

Lemma runAnswers_reachable (args : runArguments) (answers : list (nat * response))
  (s s' : state) :
  runAnswers args answers s = Some s' → reachable args s s'.
Proof.
  revert s. induction answers as [ | [p r] answers IH]; intros s; simpl.
  - intros [= ->]. apply reach_start.
  - destruct (step args p r s) as [s1 | ] eqn:Hstep; [ | done]. intros Hrun.
    eapply reachable_trans; [ | by apply IH].
    eapply reach_step; [apply reach_start | done].
Qed.

Definition demoArguments : runArguments :=
  {| solutionItemId := "sol1234567890";
     portal := "https://www.arcgis.com/sharing/rest" |}.

Definition webMapA : IItemTemplate :=
  {| itemId := "A"; type := "Web Map"; dependencies := ["X"] |}.
Definition dashboardB : IItemTemplate :=
  {| itemId := "B"; type := "Dashboard"; dependencies := ["X"; "A"] |}.
Definition infoOf (t : IItemTemplate) : ItemInfo :=
  {| id := itemId t; infoType := type t; tags := []; extent := None |}.

(** [A] and [B] both depend on [X]; the converter of [B] answers first. *)
Definition sharedDependencyRun : option state :=
  runAnswers demoArguments
    [(0, ItemFetched (infoOf webMapA)); (1, ItemFetched (infoOf dashboardB));
     (1, Converted dashboardB); (0, Converted webMapA)]
    (createItemTemplate "B" (createItemTemplate "A" emptyRun).1).1.

(** A failure in one dependency rejects every call up to the root:
    [A] depends on [B], [B] on [C], and [C] is neither an item nor a group. *)
Example dependency_failure_rejects_ancestors :
  let A := {| itemId := "A"; type := "Web Mapping Application"; dependencies := ["B"] |} in
  let B := {| itemId := "B"; type := "Web Map"; dependencies := ["C"] |} in
  promises
    <$> runAnswers demoArguments
          [(0, ItemFetched (infoOf A)); (0, Converted A);
           (1, ItemFetched (infoOf B)); (1, Converted B);
           (2, ItemFetchFailed); (2, GroupFetchFailed);
           (1, AllSettled); (0, AllSettled)]
          (createItemTemplate "A" emptyRun).1
  = Some [Rejected; Rejected; Rejected].
Proof. vm_compute. reflexivity. Qed.

(** A parent is not settled while a dependency is pending and none has
    rejected. *)
Example parent_waits_for_dependencies :
  let A := {| itemId := "A"; type := "Web Mapping Application"; dependencies := ["B"; "C"] |} in
  runAnswers demoArguments
    [(0, ItemFetched (infoOf A)); (0, Converted A);
     (1, ItemFetched {| id := "B"; infoType := "PDF"; tags := []; extent := None |});
     (0, AllSettled)]
    (createItemTemplate "A" emptyRun).1
  = None.
Proof. vm_compute. reflexivity. Qed.

(** A type that names a property of [Object.prototype]: the handler looked
    up is no module, the callback throws, and the call stays pending. *)
Example inherited_key_is_no_module :
  promises
    <$> runAnswers demoArguments
          [(0, ItemFetched {| id := "itm1234567890"; infoType := "Constructor";
                              tags := []; extent := None |})]
          (createItemTemplate "itm1234567890" emptyRun).1
  = Some [Waiting AwaitNothing].
Proof. vm_compute. reflexivity. Qed.

End resolver_runs.

Lemma C3_one_template_per_item_witness :
  ∃ s, sharedDependencyRun = Some s
       ∧ length (Resolver.entriesFor "X" (Resolver.createItemTemplate "X" s).1) = 1.
Proof.
  destruct sharedDependencyRun as [s | ] eqn:Hrun; [ | vm_compute in Hrun; discriminate].
  exists s. split; [reflexivity | ].
  apply (C3_one_template_per_item demoArguments Resolver.emptyRun (NoDup_nil_2 (A:=string)) s "X").
  - eapply reachable_trans; [ | apply (runAnswers_reachable _ _ _ _ Hrun)].
    apply Resolver.reach_call, Resolver.reach_call, Resolver.reach_start.
  - apply Resolver.reach_start.
Defined.

(** C7 as the specification states it, for every item whose type
    maps to [null]: an image tagged as the thumbnail of the solution is
    such an item, and no warning is logged for it. *)
Lemma C7_no_warning_for_thumbnail_item :
  ¬ (∀ (s : Resolver.state) (p : nat) (info : Resolver.ItemInfo),
       Resolver.promises s !! p
       = Some (Resolver.Waiting (Resolver.AwaitGetItem (Resolver.id info))) →
       Resolver.moduleMap (Resolver.toLowerCase (Resolver.infoType info)) = Resolver.Null →
       ∃ s1,
         Resolver.step demoArguments p (Resolver.ItemFetched info) s = Some s1
         ∧ Resolver.console s1
           = Resolver.console s
             ++ [Resolver.ConsoleWarn
                   ("Unimplemented item type (module level) "
                    +:+ Resolver.infoType info +:+ " for " +:+ Resolver.id info)]
         ∧ Resolver.promises s1 !! p = Some Resolver.Resolved).
Proof.
  intros H.
  destruct (H (Resolver.createItemTemplate "img1234567890" Resolver.emptyRun).1 0
              {| Resolver.id := "img1234567890"; Resolver.infoType := "Image";
                 Resolver.tags := ["deploy.thumbnail"]; Resolver.extent := None |})
    as (s1 & Hstep & Hconsole & _); [reflexivity | vm_compute; reflexivity | ].
  vm_compute in Hstep. injection Hstep as <-. vm_compute in Hconsole. discriminate.
Qed.

Lemma C7_unsupported_type_is_skipped_witness :
  ∃ s1,
    Resolver.step demoArguments 0
      (Resolver.ItemFetched
         {| Resolver.id := "pdf1234567890"; Resolver.infoType := "PDF";
            Resolver.tags := ["report"]; Resolver.extent := Some "[[0,0],[1,1]]" |})
      (Resolver.createItemTemplate "pdf1234567890" Resolver.emptyRun).1
    = Some s1
    ∧ Resolver.console s1
      = [Resolver.ConsoleWarn "Unimplemented item type (module level) PDF for pdf1234567890"]
    ∧ Resolver.existingTemplates s1
      = [Resolver.createPlaceholderTemplate "pdf1234567890"].
Proof.
  destruct (C7_unsupported_type_is_skipped demoArguments Resolver.emptyRun
              (Resolver.createItemTemplate "pdf1234567890" Resolver.emptyRun).1 0
              {| Resolver.id := "pdf1234567890"; Resolver.infoType := "PDF";
                 Resolver.tags := ["report"]; Resolver.extent := Some "[[0,0],[1,1]]" |})
    as (s1 & Hstep & Hconsole & _ & Hstore & _).
  - apply NoDup_nil_2.
  - reflexivity.
  - apply Resolver.answering_call, Resolver.answering_start.
  - reflexivity.
  - compute_done.
  - vm_compute. reflexivity.
  - exists s1. split; [exact Hstep | ]. split; [exact Hconsole | exact Hstore].
Defined.

Lemma C8_thumbnail_item_sets_solution_thumbnail_witness :
  ∃ s1,
    Resolver.step demoArguments 0
      (Resolver.ItemFetched
         {| Resolver.id := "img1234567890"; Resolver.infoType := "Image";
            Resolver.tags := ["deploy.thumbnail"]; Resolver.extent := None |})
      (Resolver.createItemTemplate "img1234567890" Resolver.emptyRun).1
    = Some s1
    ∧ Resolver.promises s1 !! 0
      = Some (Resolver.Waiting
                (Resolver.AwaitThumbnailBlob
                   "https://www.arcgis.com/sharing/rest/content/items/img1234567890/data")).
Proof.
  destruct (C8_thumbnail_item_sets_solution_thumbnail demoArguments Resolver.emptyRun
              (Resolver.createItemTemplate "img1234567890" Resolver.emptyRun).1 0
              {| Resolver.id := "img1234567890"; Resolver.infoType := "Image";
                 Resolver.tags := ["deploy.thumbnail"]; Resolver.extent := None |})
    as (s1 & Hstep & _ & Hpromise & _).
  - apply NoDup_nil_2.
  - reflexivity.
  - apply Resolver.answering_call, Resolver.answering_start.
  - reflexivity.
  - compute_done.
  - exists s1. split; [exact Hstep | exact Hpromise].
Defined.

(** ** Resource helpers *)

Section resources_facts.
Import JsString Resources.

Variable portal : portalAnswers.
Variable storageItemId : string.

Local Abbreviation storedName filePath := (folder filePath +:+ "/" +:+ filename filePath).

(** The promise of one file is fulfilled or pending, never rejected. *)
Lemma copyThisFile_cases (filePath : ISourceFileCopyPath) :
  (copied portal storageItemId filePath
   ∧ copyThisFile portal storageItemId filePath = Fulfilled (storedName filePath))
  ∨ (¬ copied portal storageItemId filePath
     ∧ (copyThisFile portal storageItemId filePath = Fulfilled ""
        ∨ copyThisFile portal storageItemId filePath = Pending)).
Proof.
  unfold copied, copyThisFile.
  destruct (copyResource _ _ _ _ _) as [[] | reason | ]; simpl.
  - by left.
  - right. split; [done | by left].
  - right. split; [done | by right].
Qed.

Lemma copyResource_settles (sourceUrl itemId folder filename : string) :
  answers portal → copyResource portal sourceUrl itemId folder filename ≠ Pending.
Proof.
  intros [Hget Hadd]. unfold copyResource.
  specialize (Hget sourceUrl). destruct (getBlob portal sourceUrl) as [blob | | ]; simpl; [ | done ..].
  set (add := thenElse _ _ _).
  assert (Hput : add ≠ Pending).
  { subst add. unfold addResourceFromBlob. destruct (_ && _); [done | ].
    specialize (Hadd itemId folder filename blob).
    by destruct (addItemResource portal itemId folder filename blob). }
  destruct (_ || _); [ | done].
  by destruct (jsonErrorTruthy blob) as [[ | ] | ].
Qed.

Lemma Promise_all_never_rejected (filePaths : list ISourceFileCopyPath) :
  ∀ reason,
    Promise_all (copyThisFile portal storageItemId <$> filePaths) ≠ RejectedWith reason.
Proof.
  induction filePaths as [ | fp filePaths IH]; intros reason; [done | ].
  rewrite fmap_cons. cbn [Promise_all].
  destruct (copyThisFile_cases fp) as [[_ ->] | [_ [-> | ->]]];
    destruct (Promise_all _) as [saved | reason' | ] eqn:E; try done;
    by destruct (IH reason').
Qed.

Lemma Promise_all_fulfilled (filePaths : list ISourceFileCopyPath) :
  answers portal →
  Promise_all (copyThisFile portal storageItemId <$> filePaths)
  = Fulfilled ((λ fp, if decide (copied portal storageItemId fp)
                      then storedName fp else "") <$> filePaths).
Proof.
  intros Hans. induction filePaths as [ | fp filePaths IH]; [done | ].
  rewrite !fmap_cons. cbn [Promise_all].
  rewrite IH. destruct (copyThisFile_cases fp) as [[Hc ->] | [Hc [-> | Hpend]]].
  - by rewrite decide_True.
  - by rewrite decide_False.
  - unfold copyThisFile in Hpend.
    pose proof (copyResource_settles (url fp) storageItemId (folder fp) (filename fp) Hans).
    by destruct (copyResource _ _ _ _ _).
Qed.

Lemma storedName_truthy (fp : ISourceFileCopyPath) : truthy (storedName fp).
Proof. unfold truthy. by destruct (folder fp). Qed.

Lemma filter_saved (filePaths : list ISourceFileCopyPath) :
  filter truthy ((λ fp, if decide (copied portal storageItemId fp)
                        then storedName fp else "") <$> filePaths)
  = (λ fp, storedName fp) <$> filter (copied portal storageItemId) filePaths.
Proof.
  induction filePaths as [ | fp filePaths IH]; [done | ].
  rewrite fmap_cons. destruct (decide (copied portal storageItemId fp)) as [Hc | Hc].
  - rewrite filter_cons_True by apply storedName_truthy.
    rewrite (filter_cons_True (copied portal storageItemId)) by done.
    by rewrite fmap_cons, IH.
  - rewrite filter_cons_False by (unfold truthy; naive_solver).
    by rewrite (filter_cons_False (copied portal storageItemId)) by done.
Qed.

(** C10. [copyFilesToStorageItem] never rejects, and once the portal has
    answered every request it resolves with a list as long as the list of
    file paths, in which a copied file contributes ["folder/filename"] and
    a failed copy the empty string.  So a missing thumbnail or metadata
    file does not fail the creation of a template, and the callers, which
    drop the empty strings, are left with exactly the names of the files
    that were stored. *)
Theorem C10_copyFilesToStorageItem_never_rejects
  (filePaths : list ISourceFileCopyPath) :
  (∀ reason, copyFilesToStorageItem portal filePaths storageItemId ≠ RejectedWith reason)
  ∧ (∀ reason, storedResources portal filePaths storageItemId ≠ RejectedWith reason)
  ∧ (answers portal →
     ∃ saved,
       copyFilesToStorageItem portal filePaths storageItemId = Fulfilled saved
       ∧ length saved = length filePaths
       ∧ (∀ i fp, filePaths !! i = Some fp →
            saved !! i = Some (if decide (copied portal storageItemId fp)
                               then folder fp +:+ "/" +:+ filename fp else ""))
       ∧ storedResources portal filePaths storageItemId
         = Fulfilled (filter truthy saved)
       ∧ filter truthy saved
         = (λ fp, folder fp +:+ "/" +:+ filename fp)
             <$> filter (copied portal storageItemId) filePaths).
Proof.
  assert (Hnever : ∀ reason,
    copyFilesToStorageItem portal filePaths storageItemId ≠ RejectedWith reason).
  { intros reason. unfold copyFilesToStorageItem.
    by destruct (Promise_all _). }
  split_and!; [done | | ].
  - intros reason. unfold storedResources.
    destruct (copyFilesToStorageItem _ _ _) as [saved | reason' | ] eqn:E; simpl; [done | | done].
    by destruct (Hnever reason').
  - intros Hans. unfold storedResources, copyFilesToStorageItem.
    rewrite Promise_all_fulfilled by done. simpl. eexists. split_and!; [done | | | done | ].
    + by rewrite length_fmap.
    + intros i fp Hi. by rewrite list_lookup_fmap, Hi.
    + apply filter_saved.
Qed.

End resources_facts.

(** A group with one resource, no metadata and a thumbnail. *)
Lemma C10_copyFilesToStorageItem_never_rejects_witness :
  let portal :=
    {| Resources.getBlob := λ u,
         if decide (u = "https://www.arcgis.com/sharing/rest/community/groups/grp1/info/metadata/metadata.xml")
         then RejectedWith "404"
         else Fulfilled {| Resources.blobType := "image/png";
                           Resources.jsonErrorTruthy := None |};
       Resources.addItemResource := λ _ _ _ _, Fulfilled () |} in
  Resources.storedResources portal
    [ {| Resources.url := "https://www.arcgis.com/sharing/rest/content/items/grp1/resources/a.png";
         Resources.folder := "grp1"; Resources.filename := "a.png" |};
      {| Resources.url := "https://www.arcgis.com/sharing/rest/community/groups/grp1/info/metadata/metadata.xml";
         Resources.folder := "grp1_info_metadata"; Resources.filename := "metadata.xml" |};
      {| Resources.url := "https://www.arcgis.com/sharing/rest/community/groups/grp1/info/thumb.png?w=400";
         Resources.folder := "grp1_info_thumbnail"; Resources.filename := "thumb.png" |} ]
    "sol1234567890"
  = Fulfilled ["grp1/a.png"; "grp1_info_thumbnail/thumb.png"].
Proof.
  intros portal.
  destruct (C10_copyFilesToStorageItem_never_rejects portal "sol1234567890"
              [ {| Resources.url := "https://www.arcgis.com/sharing/rest/content/items/grp1/resources/a.png";
                   Resources.folder := "grp1"; Resources.filename := "a.png" |};
                {| Resources.url := "https://www.arcgis.com/sharing/rest/community/groups/grp1/info/metadata/metadata.xml";
                   Resources.folder := "grp1_info_metadata"; Resources.filename := "metadata.xml" |};
                {| Resources.url := "https://www.arcgis.com/sharing/rest/community/groups/grp1/info/thumb.png?w=400";
                   Resources.folder := "grp1_info_thumbnail"; Resources.filename := "thumb.png" |} ])
    as (_ & _ & Hsaved).
  destruct Hsaved as (saved & Hcopy & _ & _ & Hstored & _).
  - split; [intros u; unfold portal; simpl; by case_decide | done].
  - rewrite Hstored. vm_compute in Hcopy. injection Hcopy as <-. vm_compute. reflexivity.
Defined.

(** ** Deployment of groups *)

Section group_deploy_facts.
Import Templatizer GroupDeploy.

Variable getUniqueTitle : string → templateDictionary → string → string.
Variable resourceFilePaths : string → list string.

Local Abbreviation createItemFromTemplate := (createItemFromTemplate getUniqueTitle).
Local Abbreviation deploy := (deploy getUniqueTitle).

Lemma dictionaryGet_set (key : string) (entry : list (string * string))
  (dictionary : templateDictionary) :
  dictionaryGet (dictionarySet key entry dictionary) key = Some entry.
Proof.
  induction dictionary as [ | [k e] dictionary IH]; simpl.
  - by rewrite decide_True.
  - case_decide as Hk; simpl; [by rewrite decide_True | by rewrite decide_False].
Qed.

Lemma dictionaryGet_set_other (key other : string) (entry : list (string * string))
  (dictionary : templateDictionary) :
  key ≠ other →
  dictionaryGet (dictionarySet key entry dictionary) other = dictionaryGet dictionary other.
Proof.
  intros Hne. induction dictionary as [ | [k e] dictionary IH]; simpl.
  - by rewrite decide_False.
  - case_decide as Hk; simpl.
    + subst k. by rewrite !decide_False.
    + case_decide; [done | apply IH].
Qed.

Lemma dictionarySet_set (key : string) (entry entry' : list (string * string))
  (dictionary : templateDictionary) :
  dictionarySet key entry (dictionarySet key entry' dictionary)
  = dictionarySet key entry dictionary.
Proof.
  induction dictionary as [ | [k e] dictionary IH]; simpl.
  - by rewrite decide_True.
  - case_decide as Hk; simpl; [by rewrite decide_True | ].
    rewrite decide_False by done. by rewrite IH.
Qed.

Lemma dictionarySetItemId_written (key value : string) (dictionary : templateDictionary) :
  dictionarySetItemId key value (dictionarySet key [("itemId", value)] dictionary)
  = dictionarySet key [("itemId", value)] dictionary.
Proof.
  unfold dictionarySetItemId. rewrite dictionaryGet_set. simpl.
  apply dictionarySet_set.
Qed.

(** When the creation call fails, the call rejects and the dictionary is
    the one it was given. *)
Lemma creation_failure (template : IItemTemplate) (destination : deployAnswers)
  (st : deployState) :
  failsToCreate destination →
  ∃ st',
    createItemFromTemplate template (resourceFilePaths (itemId template)) destination st
    = (st', RejectedWith Resources.failReason)
    ∧ templateDictionaryOf st' = templateDictionaryOf st.
Proof.
  intros Hfail. unfold GroupDeploy.createItemFromTemplate.
  destruct (Hfail (groupToCreate getUniqueTitle template (templateDictionaryOf st)))
    as [[reason ->] | [newId ->]]; simpl; eauto.
Qed.

(** When the creation call and the copy of the resources succeed, the call
    resolves and the dictionary has gained the entry of the template. *)
Lemma creation_success (template : IItemTemplate) (destination : deployAnswers)
  (st : deployState) (newId : string) :
  creates destination newId → copies destination →
  ∃ st' response,
    createItemFromTemplate template (resourceFilePaths (itemId template)) destination st
    = (st', Fulfilled response)
    ∧ templateDictionaryOf st'
      = dictionarySet (itemId template) [("itemId", newId)] (templateDictionaryOf st).
Proof.
  intros Hcreate Hcopy. unfold GroupDeploy.createItemFromTemplate.
  rewrite Hcreate. simpl.
  destruct (Hcopy (resourceFilePaths (itemId template)) newId) as [done ->].
  eexists _, _. split; [done | ]. simpl. apply dictionarySetItemId_written.
Qed.

(** Whatever the destination answers, a call changes no entry but the one
    of its template, and that one only after the creation call succeeded. *)
Lemma entry_written_after_creation (template : IItemTemplate)
  (destination : deployAnswers) (st : deployState) (key : string) :
  let st' := (createItemFromTemplate template (resourceFilePaths (itemId template))
                destination st).1 in
  dictionaryGet (templateDictionaryOf st') key
  ≠ dictionaryGet (templateDictionaryOf st) key →
  key = itemId template
  ∧ ∃ newId,
      createGroup destination (groupToCreate getUniqueTitle template (templateDictionaryOf st))
      = Fulfilled {| success := true; groupId := newId |}
      ∧ dictionaryGet (templateDictionaryOf st') key = Some [("itemId", newId)].
Proof.
  unfold GroupDeploy.createItemFromTemplate.
  destruct (createGroup destination _) as [[[ | ] newId] | reason | ]; simpl; [ | done ..].
  assert (Hwritten : ∀ d,
    d = dictionarySet (itemId template) [("itemId", newId)] (templateDictionaryOf st) →
    dictionaryGet d key ≠ dictionaryGet (templateDictionaryOf st) key →
    key = itemId template
    ∧ ∃ newId', Fulfilled {| success := true; groupId := newId |}
                = Fulfilled {| success := true; groupId := newId' |}
                ∧ dictionaryGet d key = Some [("itemId", newId')]).
  { intros d -> Hne. destruct (decide (itemId template = key)) as [<- | Hk].
    - split; [done | ]. exists newId. by rewrite dictionaryGet_set.
    - by rewrite dictionaryGet_set_other in Hne. }
  destruct (copyFilesFromStorageItem destination _ newId); simpl; apply Hwritten; try done.
  apply dictionarySetItemId_written.
Qed.

(** C5. The dictionary receives the entry keyed by the source id of a
    template only after the creation call for that template has succeeded,
    and a call whose creation fails rejects and leaves the dictionary as it
    was.  So when the templates before [Y] in the order deploy and the
    creation of [Y] fails, the deployment stops at [Y]: the dictionary holds
    an entry for every template before [Y], and none for [Y] or for the
    templates after it. *)
Theorem C5_dictionary_written_after_creation
  (before after : list IItemTemplate) (Y : IItemTemplate)
  (destination : string → deployAnswers) (newIdOf : string → string)
  (st : deployState) :
  NoDup (itemId <$> before ++ Y :: after) →
  (∀ Z, Z ∈ Y :: after → dictionaryGet (templateDictionaryOf st) (itemId Z) = None) →
  (∀ X, X ∈ before →
        creates (destination (itemId X)) (newIdOf (itemId X))
        ∧ copies (destination (itemId X))) →
  failsToCreate (destination (itemId Y)) →
  ∃ st',
    deploy (before ++ Y :: after) resourceFilePaths destination st = (st', FailedAt (itemId Y))
    ∧ (∀ X, X ∈ before →
            dictionaryGet (templateDictionaryOf st') (itemId X)
            = Some [("itemId", newIdOf (itemId X))])
    ∧ (∀ Z, Z ∈ Y :: after → dictionaryGet (templateDictionaryOf st') (itemId Z) = None)
    ∧ (∀ template answers st1 key,
         dictionaryGet
           (templateDictionaryOf
              (createItemFromTemplate template (resourceFilePaths (itemId template))
                 answers st1).1) key
         ≠ dictionaryGet (templateDictionaryOf st1) key →
         key = itemId template
         ∧ ∃ newId,
             createGroup answers
               (groupToCreate getUniqueTitle template (templateDictionaryOf st1))
             = Fulfilled {| success := true; groupId := newId |}).
Proof.
  intros Hnd Hnone Hbefore Hfail.
  assert (Hlast : ∀ template answers st1 key,
    dictionaryGet
      (templateDictionaryOf
         (createItemFromTemplate template (resourceFilePaths (itemId template))
            answers st1).1) key
    ≠ dictionaryGet (templateDictionaryOf st1) key →
    key = itemId template
    ∧ ∃ newId,
        createGroup answers
          (groupToCreate getUniqueTitle template (templateDictionaryOf st1))
        = Fulfilled {| success := true; groupId := newId |}).
  { intros template answers st1 key Hne.
    destruct (entry_written_after_creation template answers st1 key Hne)
      as (-> & newId & Hc & _). eauto. }
  revert st Hnone. induction before as [ | X before IH]; intros st Hnone.
  - simpl. destruct (creation_failure Y (destination (itemId Y)) st Hfail)
      as (st' & -> & Hdict).
    exists st'. split_and!; [done | | | done].
    + intros X HX. by apply elem_of_nil in HX.
    + intros Z HZ. rewrite Hdict. by apply Hnone.
  - simpl in Hnd. apply NoDup_cons in Hnd as [HX Hnd].
    destruct (Hbefore X) as [Hcreate Hcopy]; [by left | ].
    destruct (creation_success X (destination (itemId X)) st _ Hcreate Hcopy)
      as (st1 & response & Hcall & Hdict).
    destruct (IH Hnd) with (st := st1) as (st' & Hrun & Hpre & Hpost & _).
    { intros X' HX'. apply Hbefore. by right. }
    { intros Z HZ. rewrite Hdict, dictionaryGet_set_other; [by apply Hnone | ].
      intros Heq. apply HX. rewrite Heq. apply list_elem_of_fmap.
      exists Z. split; [done | ]. apply elem_of_app. by right. }
    exists st'. split_and!; [ | | done | done].
    + simpl. by rewrite Hcall.
    + intros X' [-> | HX']%elem_of_cons; [ | by apply Hpre].
      destruct (decide (dictionaryGet (templateDictionaryOf st') (itemId X)
                        = Some [("itemId", newIdOf (itemId X))])) as [ | Hchanged]; [done | ].
      exfalso. clear IH Hpre Hpost.
      assert (Hkept : ∀ rest st2 st3 result,
        itemId X ∉ itemId <$> rest →
        deploy rest resourceFilePaths destination st2 = (st3, result) →
        dictionaryGet (templateDictionaryOf st3) (itemId X)
        = dictionaryGet (templateDictionaryOf st2) (itemId X)).
      { induction rest as [ | T rest IHrest]; intros st2 st3 result Hnotin; simpl.
        - by intros [= -> _].
        - rewrite fmap_cons, not_elem_of_cons in Hnotin. destruct Hnotin as [HT Hrest].
          destruct (GroupDeploy.createItemFromTemplate _ T _ _ st2) as [st2' out] eqn:Hcall2.
          assert (Hsame : dictionaryGet (templateDictionaryOf st2') (itemId X)
                          = dictionaryGet (templateDictionaryOf st2) (itemId X)).
          { destruct (decide (dictionaryGet (templateDictionaryOf st2') (itemId X)
                              = dictionaryGet (templateDictionaryOf st2) (itemId X)))
              as [ | Hne]; [done | ].
            pose proof (Hlast T (destination (itemId T)) st2 (itemId X)) as Hl.
            rewrite Hcall2 in Hl. destruct (Hl Hne) as [Heq _]. done. }
          destruct out; [ | intros [= <- _]; done ..].
          intros Hrest'. rewrite <- Hsame. by eapply IHrest. }
      apply Hchanged. rewrite (Hkept _ _ _ _ HX Hrun), Hdict. apply dictionaryGet_set.
Qed.

End group_deploy_facts.

(** The order [X, Y, Z] of the specification, where creating [Y] fails. *)
Lemma C5_dictionary_written_after_creation_witness :
  let group := λ i, {| GroupDeploy.itemId := i; GroupDeploy.type := "Group";
                       GroupDeploy.item :=
                         {| GroupDeploy.id := "{{" +:+ i +:+ ".itemId}}";
                            GroupDeploy.title := "Group " +:+ i;
                            GroupDeploy.access := "public" |} |} in
  let destination := λ i : string,
    {| GroupDeploy.createGroup := λ _,
         if decide (i = "Y") then RejectedWith "500"
         else Fulfilled {| GroupDeploy.success := true; GroupDeploy.groupId := "new" +:+ i |};
       GroupDeploy.copyFilesFromStorageItem := λ _ _, Fulfilled true |} in
  ∃ st',
    GroupDeploy.deploy (λ title _ _, title) [group "X"; group "Y"; group "Z"] (λ _, [])
      destination
      {| GroupDeploy.templateDictionaryOf := []; GroupDeploy.progressTicks := 0 |}
    = (st', GroupDeploy.FailedAt "Y")
    ∧ GroupDeploy.templateDictionaryOf st' = [("X", [("itemId", "newX")])].
Proof.
  intros group destination.
  destruct (C5_dictionary_written_after_creation (λ title _ _, title) (λ _, [])
              [group "X"] [group "Z"] (group "Y") destination (λ i, "new" +:+ i)
              {| GroupDeploy.templateDictionaryOf := []; GroupDeploy.progressTicks := 0 |})
    as (st' & Hrun & _).
  - compute_done.
  - done.
  - intros X ->%list_elem_of_singleton. split; [done | by eexists].
  - intros newItem. left. by eexists.
  - exists st'. split; [exact Hrun | ]. vm_compute in Hrun. by injection Hrun as <-.
Defined.

(** ** Field references of web maps *)

Section field_refs_facts.
Import JsString FieldRefs.

Variable cleanLayerBasedItemId : string → string.

Local Abbreviation recordLayer := (recordLayer cleanLayerBasedItemId).
Local Abbreviation hashItemOf := (hashItemOf cleanLayerBasedItemId).
Local Abbreviation _getTemplateTypeHash := (_getTemplateTypeHash cleanLayerBasedItemId).

Example heatmap_layer_recovered :
  layerItemIdOrFromUrl
    {| layerItemId := None; layerId := "heat_1"; layerUrl := Some "{{svc1234567890.layer12.url}}" |}
  = Some "svc1234567890".
Proof. vm_compute. reflexivity. Qed.

Example service_url_of_layer :
  replaceFirst "." (".layer" +:+ numberToString (Num 12) +:+ ".") "{{svc1234567890.url}}"
  = "{{svc1234567890.layer12.url}}".
Proof. vm_compute. reflexivity. Qed.

Lemma append_assoc (a b c : string) : (a +:+ b) +:+ c = a +:+ b +:+ c.
Proof. induction a as [ | x a IH]; [done | ]. by rewrite !append_cons, IH. Qed.















(** The layers and tables of a web map. *)
Definition layersOf (template : IItemTemplate) : list layerRecord :=
  default [] (operationalLayers template) ++ default [] (tables template).

Lemma hashType_hashItemOf (template : IItemTemplate) :
  hashType (hashItemOf template) = type template.
Proof.
  unfold FieldRefs.hashItemOf, _updateWebMapHashInfo. by repeat case_match.
Qed.


(** *** The lookup object *)

Lemma objectSet_fresh {V : Type} (key : string) (value : V) (obj : list (string * V)) :
  key ∉ obj.*1 → objectSet key value obj = obj ++ [(key, value)].
Proof.
  induction obj as [ | [k v] obj IH]; [done | ]. simpl.
  rewrite not_elem_of_cons. intros [Hk Hobj].
  rewrite decide_False by done. by rewrite IH.
Qed.

Lemma templateTypeHash_spec (templates : list IItemTemplate) :
  NoDup (itemId <$> templates) →
  _getTemplateTypeHash templates = (λ t, (itemId t, hashItemOf t)) <$> templates.
Proof.
  unfold FieldRefs._getTemplateTypeHash.
  assert (Hgen : ∀ acc : list (string * hashItem),
    NoDup (acc.*1 ++ (itemId <$> templates)) →
    foldl (λ h t, objectSet (itemId t) (hashItemOf t) h) acc templates
    = acc ++ ((λ t, (itemId t, hashItemOf t)) <$> templates)).
  { induction templates as [ | t templates IH]; intros acc Hnd; simpl.
    - by rewrite app_nil_r.
    - rewrite objectSet_fresh.
      + rewrite IH; [by rewrite <- app_assoc | ].
        rewrite fmap_app. simpl. by rewrite <- app_assoc.
      + apply NoDup_app in Hnd as (_ & Hdisj & _). intros Hin.
        apply (Hdisj _ Hin). by left. }
  intros Hnd. by apply (Hgen []).
Qed.

Lemma objectGet_templates (templates : list IItemTemplate) (t : IItemTemplate) :
  NoDup (itemId <$> templates) → t ∈ templates →
  objectGet ((λ t, (itemId t, hashItemOf t)) <$> templates) (itemId t)
  = Some (hashItemOf t).
Proof.
  induction templates as [ | a templates IH]; [by intros _ ?%elem_of_nil | ].
  rewrite fmap_cons. intros [Ha Hnd]%NoDup_cons Hin. simpl.
  apply elem_of_cons in Hin as [-> | Hin]; [by rewrite decide_True | ].
  rewrite decide_False; [by apply IH | ].
  intros Heq. apply Ha. rewrite Heq. apply list_elem_of_fmap. by exists t.
Qed.


Lemma webMapIdsOf_elem (templates : list IItemTemplate) (t : IItemTemplate) :
  t ∈ templates → type t = "Web Map" →
  itemId t ∈ webMapIdsOf ((λ t, (itemId t, hashItemOf t)) <$> templates).
Proof.
  intros Ht Htype. unfold webMapIdsOf. apply list_elem_of_fmap.
  exists (itemId t, hashItemOf t). split; [done | ].
  apply list_elem_of_filter. split; [simpl; by rewrite hashType_hashItemOf | ].
  apply list_elem_of_fmap. by exists t.
Qed.

(** *** Attaching the ids *)

(** The layer ids of a datasource only grow; nothing else changes. *)
Definition grown (ds ds' : IDatasourceInfo) : Prop :=
  dsItemId ds' = dsItemId ds ∧ dsLayerId ds' = dsLayerId ds ∧ dsUrl ds' = dsUrl ds
  ∧ ∀ i, i ∈ ids ds → i ∈ ids ds'.

(** The url under which [_addMapLayerIds] looks for a layer of [ds]. *)
Definition expectedUrl (ds : IDatasourceInfo) : string :=
  if truthy (dsUrl ds) && negb (isNaN (dsLayerId ds))
  then replaceFirst "." (".layer" +:+ numberToString (dsLayerId ds) +:+ ".")
         (default "" (dsUrl ds))
  else "".

Definition matchesLayer (ds : IDatasourceInfo) (opLayer : string * hashLayer) : Prop :=
  opLayer.1 = dsItemId ds ∧ hashLayerUrl opLayer.2 = Some (expectedUrl ds).

Lemma grown_refl (ds : IDatasourceInfo) : grown ds ds.
Proof. by split_and!. Qed.

Lemma grown_trans (ds1 ds2 ds3 : IDatasourceInfo) :
  grown ds1 ds2 → grown ds2 ds3 → grown ds1 ds3.
Proof.
  intros (A1 & B1 & C1 & D1) (A2 & B2 & C2 & D2). split_and!; [congruence .. | auto].
Qed.

Lemma grown_matches (ds ds' : IDatasourceInfo) (opLayer : string * hashLayer) :
  grown ds ds' → matchesLayer ds opLayer → matchesLayer ds' opLayer.
Proof.
  intros (A & B & C & _) [M1 M2]. unfold matchesLayer, expectedUrl. by rewrite A, B, C.
Qed.

Lemma attachLayerId_grown (ds : IDatasourceInfo) (opLayer : string * hashLayer) :
  grown ds (attachLayerId ds opLayer).
Proof.
  unfold attachLayerId. case_decide; [ | apply grown_refl].
  destruct (_ && _); [ | apply grown_refl]. split_and!; [done .. | ].
  intros i Hi. simpl. apply elem_of_app. by left.
Qed.

Lemma attachLayerId_matches (ds : IDatasourceInfo) (opLayer : string * hashLayer) :
  matchesLayer ds opLayer → hashLayerId opLayer.2 ∈ ids (attachLayerId ds opLayer).
Proof.
  intros [M1 M2]. unfold attachLayerId. rewrite decide_True by done.
  fold (expectedUrl ds). rewrite M2, bool_decide_eq_true_2 by done. simpl.
  case_bool_decide as Hin; simpl.
  - apply elem_of_app. right. by left.
  - done.
Qed.

Lemma attachLayers_grown (opLayers : list (string * hashLayer)) (ds : IDatasourceInfo) :
  grown ds (foldl attachLayerId ds opLayers).
Proof.
  revert ds. induction opLayers as [ | op opLayers IH]; intros ds; [apply grown_refl | ].
  simpl. eapply grown_trans; [apply attachLayerId_grown | apply IH].
Qed.

Lemma attachLayers_matches (opLayers : list (string * hashLayer)) (ds : IDatasourceInfo)
  (opLayer : string * hashLayer) :
  opLayer ∈ opLayers → matchesLayer ds opLayer →
  hashLayerId opLayer.2 ∈ ids (foldl attachLayerId ds opLayers).
Proof.
  revert ds. induction opLayers as [ | op opLayers IH]; intros ds Hin Hm;
    [by apply elem_of_nil in Hin | ].
  simpl. apply elem_of_cons in Hin as [<- | Hin].
  - destruct (attachLayers_grown opLayers (attachLayerId ds opLayer)) as (_ & _ & _ & Hg).
    by apply Hg, attachLayerId_matches.
  - apply IH; [done | ]. eapply grown_matches; [apply attachLayerId_grown | done].
Qed.

(** The loop over the web maps, when every web map has its layers
    recorded. *)
Lemma attachWebMaps_spec (templateTypeHash : list (string * hashItem))
  (webMapIds : list string) (ds : IDatasourceInfo) :
  (∀ wid, wid ∈ webMapIds →
     ∃ item opLayers, objectGet templateTypeHash wid = Some item
                      ∧ layersAndTables item = Some opLayers) →
  ∃ ds',
    forEach webMapIds (attachWebMap templateTypeHash) ds = Returned ds'
    ∧ grown ds ds'
    ∧ ∀ wid item opLayers opLayer,
        wid ∈ webMapIds → objectGet templateTypeHash wid = Some item →
        layersAndTables item = Some opLayers → opLayer ∈ opLayers →
        matchesLayer ds opLayer → hashLayerId opLayer.2 ∈ ids ds'.
Proof.
  revert ds. induction webMapIds as [ | w webMapIds IH]; intros ds Hall.
  - exists ds. split_and!; [done | apply grown_refl | ].
    intros wid item opLayers opLayer Hw. by apply elem_of_nil in Hw.
  - destruct (Hall w) as (item & opLayers & Hget & Hlayers); [by left | ].
    destruct (IH (foldl attachLayerId ds opLayers)) as (ds' & Hrun & Hgrown & Hrest).
    { intros wid Hwid. apply Hall. by right. }
    exists ds'. split_and!.
    + simpl. unfold attachWebMap at 1. by rewrite Hget, Hlayers.
    + eapply grown_trans; [apply attachLayers_grown | done].
    + intros wid item' opLayers' opLayer [-> | Hwid]%elem_of_cons Hget' Hlayers' Hin Hm.
      * rewrite Hget in Hget'. injection Hget' as <-.
        rewrite Hlayers in Hlayers'. injection Hlayers' as <-.
        destruct Hgrown as (_ & _ & _ & Hg). by apply Hg, attachLayers_matches.
      * eapply Hrest; [done .. | ].
        eapply grown_matches; [apply attachLayers_grown | done].
Qed.

Lemma mapOutcome_spec {A B : Type} (f : A → outcome B) (P : A → B → Prop)
  (l : list A) :
  (∀ a, a ∈ l → ∃ b, f a = Returned b ∧ P a b) →
  ∃ bs, mapOutcome f l = Returned bs
        ∧ length bs = length l
        ∧ ∀ i a, l !! i = Some a → ∃ b, bs !! i = Some b ∧ P a b.
Proof.
  induction l as [ | a l IH]; intros Hall.
  - exists []. split_and!; [done | done | ]. intros i a Hi. by rewrite lookup_nil in Hi.
  - destruct (Hall a) as (b & Hb & HP); [by left | ].
    destruct IH as (bs & Hbs & Hlen & Hpoint); [intros a' Ha'; apply Hall; by right | ].
    exists (b :: bs). split_and!.
    + simpl. by rewrite Hb, Hbs.
    + simpl. by rewrite Hlen.
    + intros [ | i] a' Hi; simpl in *; [injection Hi as <-; eauto | by apply Hpoint].
Qed.

Lemma attachWebMaps_throw (templateTypeHash : list (string * hashItem))
  (webMapIds : list string) (bad : string) (ds : IDatasourceInfo) :
  bad ∈ webMapIds →
  (∀ ds, attachWebMap templateTypeHash bad ds = Threw typeErrorMessage) →
  forEach webMapIds (attachWebMap templateTypeHash) ds = Threw typeErrorMessage.
Proof.
  intros Hbad Hthrow. revert ds.
  induction webMapIds as [ | w webMapIds IH]; intros ds; [by apply elem_of_nil in Hbad | ].
  cbn [forEach]. destruct (decide (w = bad)) as [-> | Hne]; [by rewrite Hthrow | ].
  assert (Hstep : attachWebMap templateTypeHash w ds
                  = match objectGet templateTypeHash w with
                    | Some item =>
                        match layersAndTables item with
                        | Some opLayers => Returned (foldl attachLayerId ds opLayers)
                        | None => Threw typeErrorMessage
                        end
                    | None => Threw typeErrorMessage
                    end) by done.
  rewrite Hstep. clear Hstep.
  destruct (objectGet templateTypeHash w) as [item | ]; [ | done].
  destruct (layersAndTables item) as [opLayers | ]; [ | done].
  apply IH. apply elem_of_cons in Hbad as [-> | Hbad]; done.
Qed.


End field_refs_facts.

Section field_refs_runs.
Import FieldRefs.

Definition heatmapLayer (N : nat) : layerRecord :=
  {| layerItemId := None; layerId := "heatmap_7";
     layerUrl := Some (layerPlaceholder "svc1234567890" N) |}.

Definition webMapWith (layer : layerRecord) : IItemTemplate :=
  {| itemId := "map1234567890"; type := "Web Map"; dependencies := ["svc1234567890"];
     operationalLayers := Some [layer]; tables := None |}.

Definition serviceLayerInfo (N : nat) : IDatasourceInfo :=
  {| dsItemId := "svc1234567890"; dsLayerId := Num N;
     basePath := "svc1234567890.layer" +:+ pretty N +:+ ".fields";
     dsUrl := Some (servicePlaceholder "svc1234567890"); ids := [] |}.

(** Layer 100 of a feature service: the pattern does not cover the
    number, the text handed to [cleanLayerBasedItemId] is not the id, and
    the in-map id is not attached. *)
Example layer_100_not_attached :
  _addMapLayerIds [serviceLayerInfo 100]
    (_getTemplateTypeHash (λ itemId, itemId) [webMapWith (heatmapLayer 100)])
  = Returned [serviceLayerInfo 100]
  ∧ layersAndTables
      <$> objectGet (_getTemplateTypeHash (λ itemId, itemId) [webMapWith (heatmapLayer 100)])
            "map1234567890"
    = Some (Some [("svc1234567890.layer100.url}}",
                   {| hashLayerId := "heatmap_7";
                      hashLayerUrl := Some "{{svc1234567890.layer100.url}}" |})]).
Proof. vm_compute. done. Qed.

Example layer_99_attached :
  _addMapLayerIds [serviceLayerInfo 99]
    (_getTemplateTypeHash (λ itemId, itemId) [webMapWith (heatmapLayer 99)])
  = Returned [ {| dsItemId := "svc1234567890"; dsLayerId := Num 99;
                  basePath := "svc1234567890.layer99.fields";
                  dsUrl := Some "{{svc1234567890.url}}"; ids := ["heatmap_7"] |} ].
Proof. vm_compute. done. Qed.

(** A web map without layers or tables makes [_addMapLayerIds] fail. *)
Example web_map_without_layers :
  _addMapLayerIds [serviceLayerInfo 0]
    (_getTemplateTypeHash (λ itemId, itemId)
       [ {| itemId := "map1234567890"; type := "Web Map"; dependencies := [];
            operationalLayers := None; tables := None |} ])
  = Threw typeErrorMessage.
Proof. vm_compute. done. Qed.

End field_refs_runs.



(** ** Names of stored files *)

Section storage_names_facts.
Import JsString StorageNames.

Local Abbreviation has s c := (includes s (String c EmptyString)).

Lemma append_nil_r (s : string) : s +:+ "" = s.
Proof. induction s as [ | a s IH]; [done | ]. by rewrite append_cons, IH. Qed.

Lemma has_cons (c a : ascii) (w : string) :
  has (String a w) c = (bool_decide (a = c) || has w c).
Proof.
  rewrite includes_cons. f_equal. simpl.
  destruct (decide (c = a)) as [-> | Hne].
  - by rewrite bool_decide_true.
  - rewrite bool_decide_false; [done | congruence].
Qed.

Lemma has_app (c : ascii) (a b : string) : has (a +:+ b) c = (has a c || has b c).
Proof.
  induction a as [ | x a IH]; [done | ].
  by rewrite append_cons, !has_cons, IH, orb_assoc.
Qed.

Lemma split_nonempty (sep : ascii) (s : string) : split sep s ≠ [].
Proof.
  induction s as [ | a s IH]; [done | ]. simpl.
  destruct (decide (a = sep)); [done | ]. by destruct (split sep s).
Qed.

Lemma split_whole (sep : ascii) (s : string) : has s sep = false → split sep s = [s].
Proof.
  induction s as [ | a s IH]; [done | ].
  rewrite has_cons. intros [Ha Hs]%orb_false_elim. apply bool_decide_eq_false in Ha.
  simpl. rewrite decide_False, (IH Hs); done.
Qed.

Lemma split_app (sep : ascii) (a b : string) :
  has a sep = false → split sep (a +:+ String sep b) = a :: split sep b.
Proof.
  induction a as [ | x a IH].
  - intros _. simpl. by rewrite decide_True.
  - rewrite has_cons. intros [Hx Ha]%orb_false_elim. apply bool_decide_eq_false in Hx.
    rewrite append_cons. simpl. rewrite decide_False, (IH Ha); done.
Qed.

Lemma split_parts (sep : ascii) (s part : string) :
  part ∈ split sep s → has part sep = false.
Proof.
  revert part. induction s as [ | a s IH]; intros part.
  - simpl. by intros ->%list_elem_of_singleton.
  - simpl. destruct (decide (a = sep)) as [-> | Hne].
    + intros [-> | Hin]%elem_of_cons; [done | by apply IH].
    + pose proof (split_nonempty sep s) as Hnil.
      destruct (split sep s) as [ | first parts]; [done | ].
      intros [-> | Hin]%elem_of_cons.
      * rewrite has_cons, bool_decide_false by done. apply IH. by left.
      * apply IH. by right.
Qed.

Lemma endsWith_refl (s : string) : endsWith s s = true.
Proof. destruct s as [ | a s]; [done | ]. cbn [endsWith]. by rewrite bool_decide_true. Qed.

Lemma endsWith_app (p suffix : string) : endsWith (p +:+ suffix) suffix = true.
Proof.
  induction p as [ | a p IH]; [apply endsWith_refl | ].
  rewrite append_cons. simpl. rewrite IH. apply orb_true_r.
Qed.

Lemma endsWith_inv (s suffix : string) :
  endsWith s suffix = true → ∃ p, s = p +:+ suffix.
Proof.
  induction s as [ | a s IH]; simpl.
  - rewrite orb_false_r. intros <-%bool_decide_eq_true. by exists "".
  - intros [<-%bool_decide_eq_true | H]%orb_prop; [by exists "" | ].
    destruct (IH H) as [p ->]. by exists (String a p).
Qed.

(** A name without the first character of a suffix does not end with it. *)
Lemma endsWith_has (s suffix : string) (c : ascii) :
  has s c = false → endsWith s (String c suffix) = false.
Proof.
  intros Hno. destruct (endsWith s (String c suffix)) eqn:E; [ | done].
  apply endsWith_inv in E as [p ->].
  rewrite has_app, has_cons, bool_decide_true, orb_true_r in Hno; done.
Qed.

Lemma indexOf_none (s : string) (c : ascii) : has s c = false → indexOf s c = None.
Proof.
  induction s as [ | a s IH]; [done | ].
  rewrite has_cons. intros [Ha Hs]%orb_false_elim. apply bool_decide_eq_false in Ha.
  simpl. rewrite decide_False, (IH Hs); done.
Qed.

Lemma indexOf_app (a b : string) (c : ascii) :
  has a c = false → indexOf (a +:+ String c b) c = Some (String.length a).
Proof.
  induction a as [ | x a IH].
  - intros _. simpl. by rewrite decide_True.
  - rewrite has_cons. intros [Hx Ha]%orb_false_elim. apply bool_decide_eq_false in Hx.
    rewrite append_cons. simpl. rewrite decide_False, (IH Ha); done.
Qed.

Lemma dropChars_separator (a b : string) (c : ascii) :
  dropChars (String.length a + 1) (a +:+ String c b) = b.
Proof.
  induction a as [ | x a IH]; [done | ]. rewrite append_cons. simpl. apply IH.
Qed.

(** The folders that [generateResourceFilenameFromStorage] keeps for
    thumbnails, metadata, info files and data. *)
Definition reservedFolder (folder : string) : bool :=
  endsWith folder "_info_thumbnail" || endsWith folder "_info_metadata"
  || endsWith folder "_info" || endsWith folder "_info_data"
  || endsWith folder "_info_dataz".

(** What is read back from a stored name with one ["/"]. *)
Lemma fromStorage_parts (folder file : string) :
  has folder "/" = false → has file "/" = false →
  split "/" (folder +:+ "/" +:+ file) = [folder; file].
Proof.
  intros Hfolder Hfile. change (folder +:+ "/" +:+ file) with (folder +:+ String "/" file).
  by rewrite split_app, (split_whole _ file).
Qed.

Lemma fromStorage_resource (folder file : string) :
  has folder "/" = false → has file "/" = false → reservedFolder folder = false →
  generateResourceFilenameFromStorage (folder +:+ "/" +:+ file)
  = Returned {| deployType := Resource;
                deployFolder :=
                  match indexOf folder "_" with
                  | Some folderStart =>
                      if decide (0 < folderStart) then dropChars (folderStart + 1) folder
                      else ""
                  | None => ""
                  end;
                deployFilename := Some file |}.
Proof.
  intros Hfolder Hfile Hres. unfold generateResourceFilenameFromStorage.
  rewrite fromStorage_parts by done. cbn [lookup list_lookup default from_option id].
  unfold reservedFolder in Hres.
  apply orb_false_elim in Hres as [Hres H5]. apply orb_false_elim in Hres as [Hres H4].
  apply orb_false_elim in Hres as [Hres H3]. apply orb_false_elim in Hres as [H1 H2].
  by rewrite H1, H2, H3, H4, H5.
Qed.

Fixpoint lastChar (s : string) : option ascii :=
  match s with
  | EmptyString => None
  | String c EmptyString => Some c
  | String _ s' => lastChar s'
  end.

Lemma lastChar_app (x a : string) : a ≠ "" → lastChar (x +:+ a) = lastChar a.
Proof.
  intros Ha. induction x as [ | c x IH]; [done | ].
  rewrite append_cons. cbn [lastChar]. rewrite IH.
  destruct (x +:+ a) eqn:E; [ | done]. by destruct x, a.
Qed.

Lemma endsWith_lastChar (s suffix : string) :
  suffix ≠ "" → endsWith s suffix = true → lastChar s = lastChar suffix.
Proof. intros Hne [p ->]%endsWith_inv. by apply lastChar_app. Qed.

(** A folder that ends in one reserved suffix does not end in another one
    whose last character differs. *)
Lemma endsWith_other (x a b : string) :
  a ≠ "" → b ≠ "" → lastChar a ≠ lastChar b → endsWith (x +:+ a) b = false.
Proof.
  intros Ha Hb Hdiff. destruct (endsWith (x +:+ a) b) eqn:E; [ | done].
  apply endsWith_lastChar in E; [ | done]. by rewrite lastChar_app in E.
Qed.

Lemma reservedFolder_has (folder : string) :
  includes folder "_" = false → reservedFolder folder = false.
Proof.
  intros Hno. unfold reservedFolder. by rewrite !(endsWith_has folder _ "_" Hno).
Qed.

Lemma stored_with_folder (itemId dir rest : string) :
  includes dir "/" = false →
  ∃ file others,
    split "/" rest = file :: others
    ∧ includes file "/" = false
    ∧ generateResourceStorageFilename itemId (dir +:+ "/" +:+ rest) ""
      = {| folder := itemId +:+ "_" +:+ dir; filename := file |}.
Proof.
  intros Hdir. pose proof (split_nonempty "/" rest) as Hnil.
  destruct (split "/" rest) as [ | file others] eqn:Hrest; [done | ].
  exists file, others. split; [done | ]. split.
  { apply (split_parts "/" rest). rewrite Hrest. by left. }
  unfold generateResourceStorageFilename.
  change (dir +:+ "/" +:+ rest) with (dir +:+ String "/" rest).
  rewrite split_app, Hrest by done. cbn [length lookup list_lookup default from_option id].
  rewrite decide_True by lia. simpl. by rewrite append_nil_r.
Qed.

(** X1. A resource that an item keeps in a folder comes back as it was
    stored.  For an item id that is not empty and holds neither ["_"] nor
    ["/"], the name under which [generateResourceStorageFilename] and
    [copyFilesToStorageItem] store the resource [dir/file] is read back by
    [generateResourceFilenameFromStorage] as a resource of folder [dir]
    and name [file], unless the storage folder ends in one of the
    suffixes kept for thumbnails, metadata, info files and data. *)
Theorem X1_resource_in_folder_round_trip (itemId dir file : string) :
  itemId ≠ "" →
  includes itemId "_" = false → includes itemId "/" = false →
  includes dir "/" = false → includes file "/" = false →
  reservedFolder (itemId +:+ "_" +:+ dir) = false →
  generateResourceFilenameFromStorage
    (storedAs (generateResourceStorageFilename itemId (dir +:+ "/" +:+ file) ""))
  = Returned {| deployType := Resource; deployFolder := dir;
                deployFilename := Some file |}.
Proof.
  intros Hne Hunder Hslash Hdir Hfile Hres.
  destruct (stored_with_folder itemId dir file Hdir) as (f & others & Hsplit & _ & ->).
  rewrite (split_whole _ file Hfile) in Hsplit. injection Hsplit as <- <-.
  unfold storedAs. cbn [folder filename].
  rewrite fromStorage_resource; [ | | done | done].
  - change (itemId +:+ "_" +:+ dir) with (itemId +:+ String "_" dir).
    rewrite indexOf_app by done. rewrite decide_True by (destruct itemId; [done | simpl; lia]).
    by rewrite dropChars_separator.
  - change (itemId +:+ "_" +:+ dir) with (itemId +:+ String "_" dir).
    by rewrite has_app, has_cons, Hslash, Hdir.
Qed.

(** X2. A resource that an item keeps at the top level comes back as it
    was stored: for an item id with neither ["_"] nor ["/"], the stored
    name of the resource [file] is read back as a resource of that name
    in no folder. *)
Theorem X2_top_level_resource_round_trip (itemId file : string) :
  includes itemId "_" = false → includes itemId "/" = false →
  includes file "/" = false →
  generateResourceFilenameFromStorage
    (storedAs (generateResourceStorageFilename itemId file ""))
  = Returned {| deployType := Resource; deployFolder := "";
                deployFilename := Some file |}.
Proof.
  intros Hunder Hslash Hfile. unfold generateResourceStorageFilename.
  rewrite (split_whole _ file Hfile). cbn [length]. rewrite decide_False by lia.
  simpl. rewrite append_nil_r. unfold storedAs. cbn [folder filename].
  rewrite fromStorage_resource; [ | done | done | by apply reservedFolder_has].
  by rewrite indexOf_none.
Qed.

(** X3. A resource in a folder whose storage folder ends in a reserved
    suffix, such as a folder called [info], is not read back as a
    resource: it is taken for a thumbnail, a metadata file, an info file
    or data. *)
Theorem X3_reserved_folder_is_not_a_resource (itemId dir rest : string) :
  includes itemId "/" = false → includes dir "/" = false →
  reservedFolder (itemId +:+ "_" +:+ dir) = true →
  ∃ name,
    generateResourceFilenameFromStorage
      (storedAs (generateResourceStorageFilename itemId (dir +:+ "/" +:+ rest) ""))
    = Returned name
    ∧ deployType name ≠ Resource.
Proof.
  intros Hslash Hdir Hres.
  destruct (stored_with_folder itemId dir rest Hdir) as (file & others & _ & Hfile & ->).
  unfold storedAs. cbn [folder filename].
  unfold generateResourceFilenameFromStorage. rewrite fromStorage_parts; [ | | done].
  - cbn [lookup list_lookup default from_option id]. unfold reservedFolder in Hres.
    destruct (endsWith _ "_info_thumbnail"); [by eexists | ].
    destruct (endsWith _ "_info_metadata"); [by eexists | ].
    destruct (endsWith _ "_info"); [by eexists | ].
    destruct (endsWith _ "_info_data"); [by eexists | ].
    destruct (endsWith _ "_info_dataz"); [by eexists | done].
  - change (itemId +:+ "_" +:+ dir) with (itemId +:+ String "_" dir).
    by rewrite has_app, has_cons, Hslash, Hdir.
Qed.

(** X4. The stored names of a thumbnail, of the metadata and of an info
    file are recognised again: for an item id without ["/"],
    [generateResourceFilenameFromStorage] gives the stored name of a
    thumbnail the type thumbnail and its file name, whatever the
    thumbnail's path was, the stored name of the metadata the type
    metadata and the name [metadata.xml], and the stored name of an info
    file the type info and its file name. *)
Theorem X4_special_files_are_recognised (itemId thumbnailurl infoFilename : string) :
  includes itemId "/" = false → includes infoFilename "/" = false →
  generateResourceFilenameFromStorage
    (storedAs (generateThumbnailStorageFilename itemId thumbnailurl))
  = Returned {| deployType := Thumbnail; deployFolder := itemId +:+ "_info_thumbnail";
                deployFilename :=
                  Some (filename (generateThumbnailStorageFilename itemId thumbnailurl)) |}
  ∧ generateResourceFilenameFromStorage
      (storedAs (generateMetadataStorageFilename itemId))
    = Returned {| deployType := Metadata; deployFolder := itemId +:+ "_info_metadata";
                  deployFilename := Some "metadata.xml" |}
  ∧ generateResourceFilenameFromStorage
      (storedAs (generateInfoStorageFilename itemId infoFilename))
    = Returned {| deployType := Info; deployFolder := itemId +:+ "_info";
                  deployFilename := Some infoFilename |}.
Proof.
  intros Hslash Hinfo.
  assert (Hfolder : ∀ suffix, includes suffix "/" = false →
                    includes (itemId +:+ suffix) "/" = false).
  { intros suffix Hs. by rewrite has_app, Hslash, Hs. }
  split; [ | split].
  - assert (Hname : includes (filename (generateThumbnailStorageFilename itemId thumbnailurl))
                      "/" = false).
    { unfold generateThumbnailStorageFilename. cbn [filename].
      pose proof (split_parts "/" thumbnailurl) as Hparts.
      destruct (split "/" thumbnailurl) as [ | first [ | second others]]; simpl.
      - done.
      - apply Hparts. by left.
      - apply Hparts. right. by left. }
    unfold storedAs. cbn [folder generateThumbnailStorageFilename].
    unfold generateResourceFilenameFromStorage.
    rewrite fromStorage_parts; [ | by apply Hfolder | done].
    cbn [lookup list_lookup default from_option id]. by rewrite endsWith_app.
  - unfold storedAs. cbn [folder filename generateMetadataStorageFilename].
    unfold generateResourceFilenameFromStorage.
    rewrite fromStorage_parts; [ | by apply Hfolder | done].
    cbn [lookup list_lookup default from_option id].
    by rewrite (endsWith_other itemId "_info_metadata" "_info_thumbnail"), endsWith_app.
  - unfold storedAs. cbn [folder filename generateInfoStorageFilename].
    unfold generateResourceFilenameFromStorage.
    rewrite fromStorage_parts; [ | by apply Hfolder | done].
    cbn [lookup list_lookup default from_option id].
    by rewrite (endsWith_other itemId "_info" "_info_thumbnail"),
         (endsWith_other itemId "_info" "_info_metadata"), endsWith_app.
Qed.

(** X5. Of a resource nested deeper than one folder only the first two
    parts of the path are kept: whatever follows the second ["/"], the
    resource is stored in the folder of the first part under the name of
    the second, so that two files of one subfolder get the same stored
    name. *)
Theorem X5_nested_resources_share_a_name (itemId dir sub file file' : string) :
  includes dir "/" = false → includes sub "/" = false →
  generateResourceStorageFilename itemId (dir +:+ "/" +:+ sub +:+ "/" +:+ file) ""
  = {| folder := itemId +:+ "_" +:+ dir; filename := sub |}
  ∧ generateResourceStorageFilename itemId (dir +:+ "/" +:+ sub +:+ "/" +:+ file') ""
    = generateResourceStorageFilename itemId (dir +:+ "/" +:+ sub +:+ "/" +:+ file) "".
Proof.
  intros Hdir Hsub.
  assert (Hstored : ∀ f,
    generateResourceStorageFilename itemId (dir +:+ "/" +:+ sub +:+ "/" +:+ f) ""
    = {| folder := itemId +:+ "_" +:+ dir; filename := sub |}).
  { intros f.
    destruct (stored_with_folder itemId dir (sub +:+ "/" +:+ f) Hdir)
      as (name & others & Hsplit & _ & ->).
    change (sub +:+ "/" +:+ f) with (sub +:+ String "/" f) in Hsplit.
    rewrite split_app in Hsplit by done. by injection Hsplit as <- _. }
  by rewrite !Hstored.
Qed.

(** The extensions that [supportedExtensions] lists between its bars. *)
Definition extensions : list string :=
  [".json"; ".xml"; ".txt"; ".png"; ".pbf"; ".zip"; ".jpeg"; ".jpg"; ".gif"; ".bmp";
   ".gz"; ".svg"; ".svgz"; ".geodatabase"].

Lemma allLetters_app (a b : string) :
  allLetters (a +:+ b) = allLetters a && allLetters b.
Proof.
  induction a as [ | c a IH]; [done | ].
  rewrite append_cons. cbn [allLetters]. by rewrite IH, andb_assoc.
Qed.

Lemma matchExtension_app (stem w : string) :
  w ≠ "" → allLetters w = true →
  matchExtension (stem +:+ String "." w) = Some (String "." w).
Proof.
  intros Hne Hw. induction stem as [ | c stem IH].
  - change ("" +:+ String "." w) with (String "." w). cbn [matchExtension].
    by rewrite Hw, bool_decide_true, bool_decide_true.
  - rewrite append_cons. cbn [matchExtension].
    rewrite allLetters_app. cbn [allLetters].
    change (isLetter ".") with false. by rewrite andb_false_r, andb_false_r.
Qed.

Lemma matchExtension_inv (filename ext : string) :
  matchExtension filename = Some ext →
  ∃ stem w, filename = stem +:+ ext ∧ ext = String "." w ∧ w ≠ "" ∧ allLetters w = true.
Proof.
  induction filename as [ | c rest IH]; [done | ]. cbn [matchExtension].
  destruct (bool_decide (c = "."%char) && bool_decide (rest ≠ "") && allLetters rest) eqn:E.
  - intros [= <-].
    apply andb_prop in E as [E Hletters]. apply andb_prop in E as [Hc Hrest].
    apply bool_decide_eq_true in Hc as ->. apply bool_decide_eq_true in Hrest.
    by exists "", rest.
  - intros H. destruct (IH H) as (stem & w & -> & Hext & Hw). by exists (String c stem), w.
Qed.

(** The letters at the start of a text. *)
Fixpoint letterPrefix (s : string) : string :=
  match s with
  | EmptyString => EmptyString
  | String c s' => if isLetter c then String c (letterPrefix s') else EmptyString
  end.

(** The runs of letters that follow ["|."] in a text. *)
Fixpoint tokens (s : string) : list string :=
  match s with
  | EmptyString => []
  | String c s' =>
      (if startsWith (String c s') "|." then [letterPrefix (dropChars 2 (String c s'))]
       else [])
      ++ tokens s'
  end.

Lemma startsWith_token (w text : string) :
  allLetters w = true → startsWith text (w +:+ "|") = true → letterPrefix text = w.
Proof.
  revert text. induction w as [ | a w IH]; intros text Hw Hstart.
  - apply startsWith_inv in Hstart as [r ->]. done.
  - cbn [allLetters] in Hw. apply andb_prop in Hw as [Ha Hw].
    rewrite append_cons in Hstart. destruct text as [ | b text]; [done | ].
    cbn [startsWith] in Hstart. destruct (decide (a = b)) as [<- | ]; [ | done].
    cbn [letterPrefix]. by rewrite Ha, (IH text Hw Hstart).
Qed.

Lemma includes_tokens (text w : string) :
  allLetters w = true →
  includes text (String "|" (String "." (w +:+ "|"))) = true → w ∈ tokens text.
Proof.
  intros Hw. induction text as [ | c text IH]; [done | ].
  rewrite includes_cons. cbn [tokens].
  intros [Hstart | Hlater]%orb_prop; [ | apply elem_of_app; right; by apply IH].
  apply elem_of_app. left.
  apply startsWith_inv in Hstart as [r Hr]. rewrite Hr.
  change (String "|" (String "." (w +:+ "|")) +:+ r)
    with (String "|" (String "." ((w +:+ "|") +:+ r))).
  cbn [startsWith dropChars]. rewrite !decide_True by done.
  apply list_elem_of_singleton. symmetry.
  apply startsWith_token; [done | apply startsWith_app].
Qed.

Lemma supported_inv (filename : string) :
  isSupportedFileType filename = true →
  ∃ stem ext, ext ∈ extensions ∧ filename = stem +:+ ext.
Proof.
  unfold isSupportedFileType.
  destruct (matchExtension filename) as [ext | ] eqn:Hmatch; [ | done].
  apply matchExtension_inv in Hmatch as (stem & w & -> & -> & Hne & Hw).
  intros Hin. exists stem, (String "." w). split; [ | done].
  apply (includes_tokens _ w Hw) in Hin.
  apply (list_elem_of_fmap_2 (String "."%char)) in Hin. exact Hin.
Qed.

Lemma supported_intro (stem ext : string) :
  ext ∈ extensions → isSupportedFileType (stem +:+ ext) = true.
Proof.
  intros Hin. unfold extensions in Hin.
  repeat (apply elem_of_cons in Hin as [-> | Hin]);
    [unfold isSupportedFileType; rewrite matchExtension_app by done;
     vm_compute; reflexivity .. | ].
  by apply elem_of_nil in Hin.
Qed.

(** X6. [isSupportedFileType] accepts exactly the file names that end in
    one of the fourteen extensions that [supportedExtensions] lists, in
    lower case as listed. *)
Theorem X6_supported_file_types (filename : string) :
  isSupportedFileType filename = true
  ↔ ∃ stem ext, ext ∈ extensions ∧ filename = stem +:+ ext.
Proof.
  split; [apply supported_inv | ].
  intros (stem & ext & Hin & ->). by apply supported_intro.
Qed.

(** X7. A file name that ends in an upper-case letter is not supported,
    although the extension is matched without regard to case: the list of
    extensions is searched as it is written. *)
Theorem X7_upper_case_extension_is_not_supported (stem : string) (c : ascii) :
  65 ≤ nat_of_ascii c ≤ 90 → isSupportedFileType (stem +:+ String c "") = false.
Proof.
  intros Hc. destruct (isSupportedFileType (stem +:+ String c "")) eqn:E; [ | done].
  apply supported_inv in E as (stem' & ext & Hin & Heq).
  apply (f_equal lastChar) in Heq. rewrite lastChar_app in Heq by done.
  unfold extensions in Hin.
  repeat (apply elem_of_cons in Hin as [-> | Hin]);
    [rewrite lastChar_app in Heq by done; injection Heq as ->;
     vm_compute in Hc; lia .. | ].
  by apply elem_of_nil in Hin.
Qed.

(** X8. The file that [convertBlobToSupportableResource] builds has a
    supported name or no name: a name that is not supported gets [.zip]
    appended, a supported name is kept, and the name reported beside the
    file is the original one. *)
Theorem X8_converted_blob_has_a_supported_name {File : Type}
  (new_File : list Blob → string → string → File) (blob : Blob) (filename : string) :
  ∃ used,
    StorageNames.blob (convertBlobToSupportableResource new_File blob filename)
    = new_File [blob] used (blobType blob)
    ∧ (used = "" ∨ isSupportedFileType used = true)
    ∧ (used = fileMimeFilename (convertBlobToSupportableResource new_File blob filename)
       ∨ used = fileMimeFilename (convertBlobToSupportableResource new_File blob filename)
                +:+ ".zip").
Proof.
  exists (filenameToUse blob filename). split; [done | ].
  unfold filenameToUse. cbn [convertBlobToSupportableResource fileMimeFilename].
  set (originalFilename := if FieldRefs.truthy (name blob) then _ else _).
  destruct (bool_decide (originalFilename ≠ "")) eqn:Hne; simpl.
  - destruct (isSupportedFileType originalFilename) eqn:Hs; simpl.
    + split; [by right | by left].
    + split; [right; apply supported_intro; compute_done | by right].
  - apply bool_decide_eq_false in Hne. split; [left | by left].
    by destruct (decide (originalFilename = "")).
Qed.

End storage_names_facts.

(** The resources of an item with the id [itm1]. *)
Lemma X1_resource_in_folder_round_trip_witness :
  StorageNames.generateResourceFilenameFromStorage "itm1_images/logo.png"
  = Returned {| StorageNames.deployType := StorageNames.Resource;
                StorageNames.deployFolder := "images";
                StorageNames.deployFilename := Some "logo.png" |}.
Proof.
  apply (X1_resource_in_folder_round_trip "itm1" "images" "logo.png");
    [done | reflexivity ..].
Defined.

Lemma X2_top_level_resource_round_trip_witness :
  StorageNames.generateResourceFilenameFromStorage "itm1/logo.png"
  = Returned {| StorageNames.deployType := StorageNames.Resource;
                StorageNames.deployFolder := "";
                StorageNames.deployFilename := Some "logo.png" |}.
Proof.
  apply (X2_top_level_resource_round_trip "itm1" "logo.png"); reflexivity.
Defined.

Lemma X3_reserved_folder_is_not_a_resource_witness :
  ∃ name,
    StorageNames.generateResourceFilenameFromStorage "itm1_info/readme.txt" = Returned name
    ∧ StorageNames.deployType name ≠ StorageNames.Resource.
Proof.
  apply (X3_reserved_folder_is_not_a_resource "itm1" "info" "readme.txt"); reflexivity.
Defined.

Lemma X4_special_files_are_recognised_witness :
  StorageNames.generateResourceFilenameFromStorage "itm1_info_thumbnail/ago_downloaded.png"
  = Returned {| StorageNames.deployType := StorageNames.Thumbnail;
                StorageNames.deployFolder := "itm1_info_thumbnail";
                StorageNames.deployFilename := Some "ago_downloaded.png" |}.
Proof.
  apply (X4_special_files_are_recognised "itm1" "thumbnail/ago_downloaded.png" "form.json");
    reflexivity.
Defined.

Lemma X5_nested_resources_share_a_name_witness :
  StorageNames.generateResourceStorageFilename "itm1" "images/icons/b.png" ""
  = StorageNames.generateResourceStorageFilename "itm1" "images/icons/a.png" "".
Proof.
  apply (X5_nested_resources_share_a_name "itm1" "images" "icons" "a.png" "b.png");
    reflexivity.
Defined.

Lemma X7_upper_case_extension_is_not_supported_witness :
  StorageNames.isSupportedFileType "photo.PNG" = false.
Proof.
  apply (X7_upper_case_extension_is_not_supported "photo.PN" "G"). vm_compute. lia.
Defined.

(** ** Copying stored files to a deployed item *)

Section storage_copy_facts.
Import JsString StorageNames StorageCopy.

Lemma Promise_all_Fulfilled {A : Type} (ps : list (promise A)) (l : list A) :
  Promise_all ps = Fulfilled l ↔ ps = Fulfilled <$> l.
Proof.
  revert l. induction ps as [ | p ps IH]; intros l.
  - simpl. split; [intros [= <-]; done | ]. destruct l; [done | intros [=]].
  - cbn [Promise_all]. split.
    + destruct p as [a | r | ]; destruct (Promise_all ps) as [l' | r' | ] eqn:E; try done.
      intros [= <-]. rewrite fmap_cons. f_equal. by apply IH.
    + destruct l as [ | a l]; [done | ]. rewrite fmap_cons. intros [= -> Hps].
      apply IH in Hps. by rewrite Hps.
Qed.

Lemma Promise_all_RejectedWith {A : Type} (ps : list (promise A)) :
  (∃ reason, Promise_all ps = RejectedWith reason)
  ↔ Exists (λ p, ∃ reason, p = RejectedWith reason) ps.
Proof.
  induction ps as [ | p ps IH].
  - simpl. split; [by intros [reason ?] | by intros ?%Exists_nil].
  - cbn [Promise_all]. rewrite Exists_cons, <- IH. split.
    + destruct p as [a | r | ]; [ | left; by exists r | ];
        destruct (Promise_all ps) as [l' | r' | ] eqn:E; intros [reason H]; try done;
        right; by exists r'.
    + intros [[reason ->] | [reason ->]]; [by exists reason | ].
      destruct p as [a | r | ]; by eexists.
Qed.

Variable appendQueryParam : string → string → string.
Variable portal : portalAnswers.
Variables storageAuthentication destinationAuthentication : UserSession.
Variable destinationItemId : string.
Variable isGroup : bool.
Variable mimeTypes : option (list (string * string)).

Local Abbreviation copyFromStorage :=
  (copyFromStorage appendQueryParam portal storageAuthentication destinationItemId
     destinationAuthentication isGroup mimeTypes).
Local Abbreviation copyFilesFromStorageItem filePaths :=
  (copyFilesFromStorageItem appendQueryParam portal storageAuthentication filePaths
     destinationItemId destinationAuthentication isGroup mimeTypes).

Lemma copyFiles_rejected (filePaths : list IDeployFileCopyPath) :
  (∃ reason, copyFilesFromStorageItem filePaths = RejectedWith reason)
  ↔ Exists (λ filePath, ∃ reason, copyFromStorage filePath = RejectedWith reason) filePaths.
Proof.
  transitivity (Exists (λ p : promise unit, ∃ reason, p = RejectedWith reason)
                  (copyFromStorage <$> filePaths)); [ | apply Exists_fmap].
  rewrite <- Promise_all_RejectedWith.
  unfold StorageCopy.copyFilesFromStorageItem. destruct (Promise_all _) as [l | r | ]; simpl.
  - split; by intros [reason ?].
  - split; intros _; by exists r.
  - split; by intros [reason ?].
Qed.

(** X9. [copyFilesFromStorageItem] copies all files or fails: it
    resolves exactly when the copy of every file has succeeded, and then
    with [true], never with [false]; it rejects exactly when the copy of
    some file has been rejected. *)
Theorem X9_copy_from_storage_is_all_or_nothing (filePaths : list IDeployFileCopyPath) :
  (∀ done, copyFilesFromStorageItem filePaths = Fulfilled done → done = true)
  ∧ (copyFilesFromStorageItem filePaths = Fulfilled true
     ↔ Forall (λ filePath, copyFromStorage filePath = Fulfilled ()) filePaths)
  ∧ ((∃ reason, copyFilesFromStorageItem filePaths = RejectedWith reason)
     ↔ Exists (λ filePath, ∃ reason, copyFromStorage filePath = RejectedWith reason)
         filePaths).
Proof.
  split; [ | split; [ | apply copyFiles_rejected]].
  - intros done. unfold StorageCopy.copyFilesFromStorageItem.
    destruct (Promise_all _); simpl; congruence.
  - unfold StorageCopy.copyFilesFromStorageItem. split.
    + destruct (Promise_all _) as [l | r | ] eqn:E; simpl; [intros _ | done ..].
      apply Promise_all_Fulfilled in E.
      apply Forall_forall. intros filePath Hin.
      apply (list_elem_of_fmap_2 copyFromStorage) in Hin. rewrite E in Hin.
      by apply list_elem_of_fmap_1 in Hin as ([] & -> & _).
    + intros Hall.
      assert (Promise_all (copyFromStorage <$> filePaths)
              = Fulfilled (replicate (length filePaths) ())) as ->; [ | done].
      apply Promise_all_Fulfilled. induction Hall as [ | fp fps Hfp _ IH]; [done | ].
      rewrite fmap_cons, Hfp, IH. done.
Qed.

(** X10. Stored metadata must be XML: when the blob of a metadata file
    has neither the type [text/xml] nor the type [application/xml],
    [copyFilesFromStorageItem] rejects, whatever the other files are. *)
Theorem X10_metadata_must_be_xml (filePaths : list IDeployFileCopyPath)
  (filePath : IDeployFileCopyPath) (blob : Resources.Blob) :
  filePath ∈ filePaths →
  deployType (deployName filePath) = Metadata →
  getBlob portal (deployUrl filePath) storageAuthentication = Fulfilled blob →
  Resources.blobType blob ≠ "text/xml" →
  Resources.blobType blob ≠ "application/xml" →
  ∃ reason, copyFilesFromStorageItem filePaths = RejectedWith reason.
Proof.
  intros Hin Htype Hblob Hxml Happ. apply copyFiles_rejected, Exists_exists.
  exists filePath. split; [done | ]. exists Resources.failReason.
  unfold StorageCopy.copyFromStorage, copyMetadata. rewrite Htype, Hblob. simpl.
  by rewrite !bool_decide_true.
Qed.

End storage_copy_facts.

(** A storage item that answers every request for a blob with the JSON
    of an error, and the path of the metadata of a group. *)
Definition errorAnswers : StorageCopy.portalAnswers :=
  {| StorageCopy.getBlob := λ _ _,
       Fulfilled {| Resources.blobType := "application/json";
                    Resources.jsonErrorTruthy := Some true |};
     StorageCopy.getBlobAsFile := λ _ _ _, Pending;
     StorageCopy.addItemResource := λ _ _ _ _ _, Fulfilled ();
     StorageCopy.updateItem := λ _ _ _, Fulfilled ();
     StorageCopy.updateGroup := λ _ _ _, Fulfilled ();
     StorageCopy.updateItemInfo := λ _ _ _, Fulfilled ();
     StorageCopy.updateItemData := λ _ _ _ _ _, Fulfilled () |}.

Definition storedMetadata : StorageNames.IDeployFileCopyPath :=
  {| StorageNames.deployUrl :=
       "https://www.arcgis.com/sharing/rest/content/items/sol1/resources/grp1_info_metadata/metadata.xml";
     StorageNames.deployName :=
       {| StorageNames.deployType := StorageNames.Metadata;
          StorageNames.deployFolder := "grp1_info_metadata";
          StorageNames.deployFilename := Some "metadata.xml" |} |}.

Lemma X10_metadata_must_be_xml_witness :
  ∃ reason,
    StorageCopy.copyFilesFromStorageItem (λ url param, url +:+ "?" +:+ param) errorAnswers
      "storage" [storedMetadata] "new1" "destination" true None
    = RejectedWith reason.
Proof.
  apply (X10_metadata_must_be_xml (λ url param, url +:+ "?" +:+ param) errorAnswers
           "storage" "destination" "new1" true None [storedMetadata] storedMetadata
           {| Resources.blobType := "application/json";
              Resources.jsonErrorTruthy := Some true |});
    [by left | reflexivity | reflexivity | done | done].
Defined.

(** ** Storing the resources of an item *)

Section store_resources_facts.
Import JsString StorageNames StoreItemResources.

Variable checkUrlPathTermination : string → string.
Variable appendQueryParam : string → string → string.
Variable getItemResources : string → promise (list string).
Variable portal : Resources.portalAnswers.
Variable portalUrl : string.
Variable itemTemplate : IItemTemplate.
Variable solutionItemId : string.

Local Abbreviation storedName filePath :=
  (Resources.folder filePath +:+ "/" +:+ Resources.filename filePath).
Local Abbreviation filePathsOf itemResources :=
  (resourceItemFilePaths checkUrlPathTermination appendQueryParam portalUrl itemTemplate
     itemResources).
Local Abbreviation kept resources :=
  (filter (λ res, keepResource (type itemTemplate) res) resources).

Lemma append_inj_l (a x y : string) : a +:+ x = a +:+ y → x = y.
Proof.
  induction a as [ | c a IH]; [done | ]. rewrite !append_cons. intros [= H]. by apply IH.
Qed.

Lemma startsWith_cancel (a x y : string) : startsWith (a +:+ x) (a +:+ y) = startsWith x y.
Proof.
  induction a as [ | c a IH]; [done | ]. rewrite !append_cons. cbn [startsWith].
  by rewrite decide_True.
Qed.

(** The names that a fulfilled [copyFilesToStorageItem] reports. *)
Lemma saved_names (filePaths : list Resources.ISourceFileCopyPath) (saved : list string) :
  Resources.copyFilesToStorageItem portal filePaths solutionItemId = Fulfilled saved →
  filter Resources.truthy saved
  = (λ fp, storedName fp) <$> filter (Resources.copied portal solutionItemId) filePaths.
Proof.
  unfold Resources.copyFilesToStorageItem.
  destruct (Promise_all _) as [l | r | ] eqn:E; simpl; [intros [= <-] | done ..].
  rewrite <- filter_saved. f_equal.
  revert l E. induction filePaths as [ | fp filePaths IH]; intros l.
  - simpl. by intros [= <-].
  - rewrite !fmap_cons. cbn [Promise_all].
    destruct (copyThisFile_cases portal solutionItemId fp) as [[Hc ->] | [Hc [-> | ->]]];
      destruct (Promise_all _) as [l' | r' | ] eqn:E'; try done; intros [= <-].
    + rewrite decide_True by done. f_equal. by apply IH.
    + rewrite decide_False by done. f_equal. by apply IH.
Qed.

(** The shape of the stored name of every file path of an item. *)
Inductive pathShape (itemId : string) (resources : list string) : string → Prop :=
| shape_top res :
    res ∈ resources → includes res "/" = false →
    pathShape itemId resources (itemId +:+ "/" +:+ res)
| shape_folder dir rest file others :
    dir +:+ "/" +:+ rest ∈ resources → includes dir "/" = false →
    split "/" rest = file :: others →
    pathShape itemId resources (itemId +:+ "_" +:+ dir +:+ "/" +:+ file)
| shape_metadata :
    pathShape itemId resources (itemId +:+ "_info_metadata/metadata.xml")
| shape_thumbnail file :
    pathShape itemId resources (itemId +:+ "_info_thumbnail/" +:+ file).

Lemma split_two (sep : ascii) (s first second : string) (others : list string) :
  split sep s = first :: second :: others →
  ∃ rest, s = first +:+ String sep rest ∧ includes first (String sep "") = false
          ∧ split sep rest = second :: others.
Proof.
  revert first. induction s as [ | c s IH]; intros first; [done | ].
  cbn [split]. destruct (decide (c = sep)) as [-> | Hne].
  - intros [= <- Hrest]. by exists s.
  - pose proof (split_nonempty sep s) as Hnil.
    destruct (split sep s) as [ | part parts] eqn:E; [done | ].
    intros [= <- ->]. destruct (IH part eq_refl) as (rest & -> & Hpart & Hrest).
    exists rest. split; [done | ]. split; [ | done].
    by rewrite has_cons, bool_decide_false, Hpart.
Qed.

Lemma split_one (sep : ascii) (s first : string) :
  split sep s = [first] → s = first ∧ includes s (String sep "") = false.
Proof.
  revert first. induction s as [ | c s IH]; intros first; [by intros [= <-] | ].
  cbn [split]. destruct (decide (c = sep)) as [-> | Hne].
  - intros [= _ Hrest]. by destruct (split_nonempty sep s).
  - pose proof (split_nonempty sep s) as Hnil.
    destruct (split sep s) as [ | part parts] eqn:E; [done | ].
    intros [= <- ->]. destruct (IH part eq_refl) as [-> Hpart].
    split; [done | ]. by rewrite has_cons, bool_decide_false, Hpart.
Qed.

Lemma storedAs_resource (itemId res : string) (resources : list string) :
  res ∈ resources →
  pathShape itemId resources (storedAs (generateResourceStorageFilename itemId res "")).
Proof.
  intros Hin. pose proof (split_nonempty "/" res) as Hnil.
  destruct (split "/" res) as [ | first [ | second others]] eqn:Hsplit; [done | | ].
  - apply split_one in Hsplit as [<- Hno].
    unfold generateResourceStorageFilename. rewrite (split_whole _ res Hno).
    cbn [length]. rewrite decide_False by lia. unfold storedAs. simpl.
    rewrite append_nil_r. by apply shape_top.
  - apply split_two in Hsplit as (rest & -> & Hfirst & Hrest).
    change (first +:+ String "/" rest) with (first +:+ "/" +:+ rest) in *.
    destruct (stored_with_folder itemId first rest Hfirst)
      as (file & others' & Hsplit & _ & ->).
    unfold storedAs. cbn [folder filename]. rewrite !append_assoc.
    by eapply shape_folder.
Qed.

Lemma filePaths_shape (itemResources : list string) (fp : Resources.ISourceFileCopyPath) :
  fp ∈ filePathsOf itemResources →
  pathShape (itemId itemTemplate) itemResources (storedName fp).
Proof.
  unfold resourceItemFilePaths, generateSourceFilePaths. intros Hin.
  assert (Hcases :
    fp ∈ ((λ resourceFilename,
             sourceFileCopyPath
               (generateSourceResourceUrl checkUrlPathTermination portalUrl
                  (itemId itemTemplate) resourceFilename)
               (generateResourceStorageFilename (itemId itemTemplate) resourceFilename ""))
            <$> itemResources)
    ∨ Resources.folder fp = itemId itemTemplate +:+ "_info_metadata"
      ∧ Resources.filename fp = "metadata.xml"
    ∨ Resources.folder fp = itemId itemTemplate +:+ "_info_thumbnail").
  { destruct (bool_decide (thumbnail itemTemplate ≠ "")).
    - apply elem_of_app in Hin as [Hin | ->%list_elem_of_singleton]; [ | by right; right].
      apply elem_of_app in Hin as [Hin | ->%list_elem_of_singleton]; [by left | by right; left].
    - apply elem_of_app in Hin as [Hin | ->%list_elem_of_singleton]; [by left | by right; left]. }
  destruct Hcases as [Hres | [[-> ->] | ->]].
  - apply list_elem_of_fmap_1 in Hres as (res & -> & Hres).
    by apply storedAs_resource.
  - rewrite append_assoc. apply shape_metadata.
  - rewrite append_assoc. apply (shape_thumbnail _ _ (Resources.filename fp)).
Qed.

Lemma pathShape_prefix (itemId : string) (resources : list string) (n : string) :
  pathShape itemId resources n → n ≠ "" ∧ startsWith n itemId = true.
Proof.
  intros [res _ _ | dir rest file others _ _ _ | | file];
    (split; [by destruct itemId | apply startsWith_app]).
Qed.

(** What a fulfilled [storeItemResources] has done. *)
Lemma stored_inv (names : list string) :
  storeItemResources checkUrlPathTermination appendQueryParam getItemResources
    portal portalUrl itemTemplate solutionItemId = Fulfilled names →
  ∃ resources,
    getItemResources (itemId itemTemplate) = Fulfilled resources
    ∧ names
      = (λ fp, storedName fp)
          <$> filter (Resources.copied portal solutionItemId) (filePathsOf (kept resources)).
Proof.
  unfold storeItemResources.
  destruct (getItemResources (itemId itemTemplate)) as [resources | r | ]; simpl; [ | done ..].
  destruct (Resources.copyFilesToStorageItem _ _ _) as [saved | r | ] eqn:E; simpl; [ | done ..].
  intros [= <-]. exists resources. split; [done | ]. by apply saved_names.
Qed.

Lemma stored_shape (names : list string) (resources : list string) (n : string) :
  names
  = (λ fp, storedName fp)
      <$> filter (Resources.copied portal solutionItemId) (filePathsOf (kept resources)) →
  n ∈ names → pathShape (itemId itemTemplate) (kept resources) n.
Proof.
  intros -> (fp & -> & Hfp)%list_elem_of_fmap_1.
  apply list_elem_of_filter in Hfp as [_ Hfp]. by apply filePaths_shape.
Qed.

(** X11. [storeItemResources] resolves with the stored names of the
    files that were copied, in the order of the file paths: those of the
    resources that passed the filter, of the metadata and of the
    thumbnail.  Every name is non-empty and begins with the id of the
    item. *)
Theorem X11_stored_resources_are_the_copied_files (names : list string) :
  storeItemResources checkUrlPathTermination appendQueryParam getItemResources
    portal portalUrl itemTemplate solutionItemId = Fulfilled names →
  ∃ resources,
    getItemResources (itemId itemTemplate) = Fulfilled resources
    ∧ names
      = (λ fp, Resources.folder fp +:+ "/" +:+ Resources.filename fp)
          <$> filter (Resources.copied portal solutionItemId)
                (resourceItemFilePaths checkUrlPathTermination appendQueryParam
                   portalUrl itemTemplate
                   (filter (λ res, keepResource (type itemTemplate) res) resources))
    ∧ Forall (λ n, n ≠ "" ∧ startsWith n (itemId itemTemplate) = true) names.
Proof.
  intros (resources & Hget & Hnames)%stored_inv. exists resources.
  split; [done | ]. split; [done | ]. apply Forall_forall. intros n Hn.
  eapply pathShape_prefix, stored_shape; done.
Qed.

Lemma startsWith_until (sep : ascii) (q p rest : string) :
  includes p (String sep "") = false → includes q (String sep "") = false →
  startsWith (p +:+ String sep rest) (q +:+ String sep "") = true → p = q.
Proof.
  revert p. induction q as [ | b q IH]; intros p Hp Hq.
  - destruct p as [ | a p]; [done | ].
    rewrite has_cons in Hp. apply orb_false_elim in Hp as [Ha _].
    apply bool_decide_eq_false in Ha. rewrite append_cons. simpl.
    destruct (decide (sep = a)); [congruence | done].
  - rewrite has_cons in Hq. apply orb_false_elim in Hq as [Hb Hq].
    apply bool_decide_eq_false in Hb. rewrite append_cons.
    destruct p as [ | a p].
    + simpl. destruct (decide (b = sep)); [congruence | done].
    + rewrite has_cons in Hp. apply orb_false_elim in Hp as [_ Hp].
      rewrite append_cons. cbn [startsWith].
      destruct (decide (b = a)) as [-> | ]; [ | done].
      intros H. f_equal. by apply IH.
Qed.

(** The draft pattern: the character before the final [json] is any
    character but a line terminator, the dot of the pattern not being
    escaped.  A name whose [json] follows U+2028 does not match, and the
    filter keeps it. *)
Example draft_names :
  matchDraft "draft_1589.json" = true
  ∧ matchDraft "draft_1589xjson" = true
  ∧ matchDraft "draft_json" = false
  ∧ matchDraft ("draft_a.b" +:+ lineSeparator +:+ "json") = false
  ∧ keepResource "StoryMap" ("draft_a.b" +:+ lineSeparator +:+ "json") = true.
Proof. by vm_compute. Qed.

(** X12. A resource that the filter drops is not stored.  Among the
    names that [storeItemResources] resolves with there is none of a
    top-level resource that the filter has dropped, such as
    [oembed.json] or a draft of a StoryMap, and for a Web Experience
    none of a file of the folder [images]. *)
Theorem X12_dropped_resources_are_not_stored (names : list string) :
  storeItemResources checkUrlPathTermination appendQueryParam getItemResources
    portal portalUrl itemTemplate solutionItemId = Fulfilled names →
  (∀ res, includes res "/" = false → keepResource (type itemTemplate) res = false →
          itemId itemTemplate +:+ "/" +:+ res ∉ names)
  ∧ (type itemTemplate = "Web Experience" →
     ∀ n, n ∈ names → startsWith n (itemId itemTemplate +:+ "_images/") = false).
Proof.
  intros (resources & _ & Hnames)%stored_inv. split.
  - intros res Hres Hdrop Hin. apply (stored_shape _ _ _ Hnames) in Hin.
    remember (itemId itemTemplate +:+ "/" +:+ res) as n eqn:Hn.
    destruct Hin as [res' Hin _ | dir rest file others _ _ _ | | file];
      apply append_inj_l in Hn; try discriminate Hn.
    apply append_inj_l in Hn as ->. apply list_elem_of_filter in Hin as [Hkeep _].
    rewrite Hdrop in Hkeep. done.
  - intros Htype n Hin. apply (stored_shape _ _ _ Hnames) in Hin.
    destruct Hin as [res' Hin _ | dir rest file others Hin Hdir _ | | file];
      rewrite startsWith_cancel; try reflexivity.
    change (startsWith ("_" +:+ dir +:+ "/" +:+ file) "_images/")
      with (startsWith (dir +:+ String "/" file) ("images" +:+ String "/" "")).
    destruct (startsWith _ _) eqn:E; [exfalso | done].
    apply startsWith_until in E as ->; [ | done ..].
    apply list_elem_of_filter in Hin as [Hkeep _]. rewrite Htype in Hkeep.
    vm_compute in Hkeep. done.
Qed.

(** X13. The two functions called [storeItemResources] differ when the
    resources of the item cannot be listed: the one of the resources
    module rejects with the reason given, the one of the resource helpers
    never settles and so never rejects.  They agree in every other case
    for a template that is neither a StoryMap nor a Web Experience. *)
Theorem X13_store_item_resources_versions :
  (∀ reason,
     getItemResources (itemId itemTemplate) = RejectedWith reason →
     storeItemResources checkUrlPathTermination appendQueryParam getItemResources
       portal portalUrl itemTemplate solutionItemId = RejectedWith reason
     ∧ ResourceHelpers.storeItemResources checkUrlPathTermination appendQueryParam
         getItemResources portal portalUrl itemTemplate solutionItemId = Pending)
  ∧ (∀ reason,
       ResourceHelpers.storeItemResources checkUrlPathTermination appendQueryParam
         getItemResources portal portalUrl itemTemplate solutionItemId
       ≠ RejectedWith reason)
  ∧ (type itemTemplate ≠ "StoryMap" → type itemTemplate ≠ "Web Experience" →
     (∀ reason, getItemResources (itemId itemTemplate) ≠ RejectedWith reason) →
     storeItemResources checkUrlPathTermination appendQueryParam getItemResources
       portal portalUrl itemTemplate solutionItemId
     = ResourceHelpers.storeItemResources checkUrlPathTermination appendQueryParam
         getItemResources portal portalUrl itemTemplate solutionItemId).
Proof.
  unfold storeItemResources, ResourceHelpers.storeItemResources.
  split; [ | split].
  - intros reason ->. done.
  - intros reason.
    destruct (getItemResources (itemId itemTemplate)) as [resources | r | ]; simpl; [ | done ..].
    by destruct (Resources.copyFilesToStorageItem _ _ _).
  - intros Hstory Hexperience Hlisted.
    destruct (getItemResources (itemId itemTemplate)) as [resources | r | ]; simpl;
      [ | by destruct (Hlisted r) | done].
    assert (kept resources = resources) as ->.
    { induction resources as [ | res resources IH]; [done | ].
      rewrite filter_cons_True; [by rewrite IH | ].
      unfold keepResource. by rewrite !bool_decide_false. }
    destruct (Resources.copyFilesToStorageItem _ _ _) as [saved | r | ] eqn:E; simpl; [done | | done].
    pose proof (Hnever := Promise_all_never_rejected portal solutionItemId
                  (filePathsOf resources) r).
    unfold Resources.copyFilesToStorageItem in E.
    by destruct (Promise_all _).
Qed.

End store_resources_facts.

(** A Web Experience with an image, its configuration and a data file,
    on a portal that has everything asked for. *)
Definition completeAnswers : Resources.portalAnswers :=
  {| Resources.getBlob := λ _,
       Fulfilled {| Resources.blobType := "image/png";
                    Resources.jsonErrorTruthy := None |};
     Resources.addItemResource := λ _ _ _ _, Fulfilled () |}.

Definition webExperience : StoreItemResources.IItemTemplate :=
  {| StoreItemResources.itemId := "exp1";
     StoreItemResources.type := "Web Experience";
     StoreItemResources.thumbnail := "thumbnail/ago_downloaded.png" |}.

Lemma X12_dropped_resources_are_not_stored_witness :
  "exp1_images/logo.png"
  ∉ ["exp1/data.json"; "exp1_info_metadata/metadata.xml";
     "exp1_info_thumbnail/ago_downloaded.png"].
Proof.
  destruct (X12_dropped_resources_are_not_stored
              (λ url, url +:+ "/") (λ url param, url +:+ "?" +:+ param)
              (λ _, Fulfilled ["images/logo.png"; "config/config.json"; "data.json"])
              completeAnswers "https://www.arcgis.com/sharing/rest" webExperience "sol1"
              ["exp1/data.json"; "exp1_info_metadata/metadata.xml";
               "exp1_info_thumbnail/ago_downloaded.png"])
    as [_ Himages]; [vm_compute; reflexivity | ].
  intros Hin. specialize (Himages eq_refl _ Hin). vm_compute in Himages. discriminate.
Defined.

Lemma X11_stored_resources_are_the_copied_files_witness :
  Forall (λ n, n ≠ "" ∧ JsString.startsWith n "exp1" = true)
    ["exp1/data.json"; "exp1_info_metadata/metadata.xml";
     "exp1_info_thumbnail/ago_downloaded.png"].
Proof.
  destruct (X11_stored_resources_are_the_copied_files
              (λ url, url +:+ "/") (λ url param, url +:+ "?" +:+ param)
              (λ _, Fulfilled ["images/logo.png"; "config/config.json"; "data.json"])
              completeAnswers "https://www.arcgis.com/sharing/rest" webExperience "sol1"
              ["exp1/data.json"; "exp1_info_metadata/metadata.xml";
               "exp1_info_thumbnail/ago_downloaded.png"])
    as (resources & _ & _ & Hall); [vm_compute; reflexivity | exact Hall].
Defined.

(** ** Templates of groups *)

Section group_template_facts.
Import JsString StorageNames GroupTemplate.

Variable createInitializedGroupTemplate : groupItem → IItemTemplate.
Variable templatizeTerm : string → string → string → string.
Variable checkUrlPathTermination : string → string.
Variable appendQueryParam : string → string → string.
Variable portal : portalAnswers.
Variable portalUrl : string.
Variable solutionItemId : string.
Variable itemInfo : groupItem.

Local Abbreviation convertItemToTemplate :=
  (convertItemToTemplate createInitializedGroupTemplate templatizeTerm
     checkUrlPathTermination appendQueryParam portal portalUrl solutionItemId itemInfo).
Local Abbreviation initialTemplate :=
  (initialTemplate createInitializedGroupTemplate templatizeTerm itemInfo).

(** Every request of the conversion is answered. *)
Definition answering (portal : portalAnswers) : Prop :=
  (∀ groupId, getGroupContents portal groupId ≠ Pending)
  ∧ (∀ groupId, getGroup portal groupId ≠ Pending)
  ∧ (∀ itemId, getItemResources portal itemId ≠ Pending)
  ∧ Resources.answers (files portal).

(** X14. The conversion of a group to a template never rejects: a
    request that fails ends it with the template as far as it has got,
    and a file that cannot be copied is left out.  Once the portal has
    answered every request the conversion resolves. *)
Theorem X14_group_conversion_always_resolves :
  (∀ reason, convertItemToTemplate ≠ RejectedWith reason)
  ∧ (answering portal → ∃ itemTemplate, convertItemToTemplate = Fulfilled itemTemplate).
Proof.
  unfold GroupTemplate.convertItemToTemplate. split.
  - intros reason.
    destruct (getGroupContents portal (id itemInfo)) as [contents | r | ]; simpl; [ | done ..].
    destruct (getGroup portal (id itemInfo)) as [groupResponse | r | ]; simpl; [ | done ..].
    destruct (getItemResources portal _) as [resources | r | ]; simpl; [ | done ..].
    destruct (Resources.copyFilesToStorageItem _ _ _) as [saved | r | ] eqn:E;
      simpl; [done | | done].
    unfold Resources.copyFilesToStorageItem in E.
    pose proof (Promise_all_never_rejected (files portal) solutionItemId) as Hnever.
    destruct (Promise_all _) as [l | r' | ] eqn:E'; [done | | done].
    by destruct (Hnever _ _ E').
  - intros (Hcontents & Hgroup & Hresources & Hfiles).
    specialize (Hcontents (id itemInfo)). specialize (Hgroup (id itemInfo)).
    destruct (getGroupContents portal (id itemInfo)) as [contents | r | ];
      simpl; [ | by eexists | done].
    destruct (getGroup portal (id itemInfo)) as [groupResponse | r | ];
      simpl; [ | by eexists | done].
    match goal with |- context [getItemResources portal ?i] => specialize (Hresources i) end.
    destruct (getItemResources portal _) as [resources | r | ]; simpl; [ | by eexists | done].
    unfold Resources.copyFilesToStorageItem.
    rewrite Promise_all_fulfilled by done. simpl. by eexists.
Qed.

(** X15. Whatever the portal has answered, the template that the
    conversion of a group resolves with keeps the id of the initialized
    template, has the templatized id in its item section and the cost
    factor 2.  If the contents of the group were fetched, it has the
    type [Group] and the contents as its dependencies; if not, it is the
    initialized template with nothing else changed. *)
Theorem X15_group_template_contents (itemTemplate : IItemTemplate) :
  convertItemToTemplate = Fulfilled itemTemplate →
  itemId itemTemplate = itemId (createInitializedGroupTemplate itemInfo)
  ∧ id (item itemTemplate)
    = templatizeTerm (id (item (createInitializedGroupTemplate itemInfo)))
        (id (item (createInitializedGroupTemplate itemInfo))) ".itemId"
  ∧ estimatedDeploymentCostFactor itemTemplate = 2
  ∧ match getGroupContents portal (id itemInfo) with
    | Fulfilled groupContents =>
        type itemTemplate = "Group" ∧ dependencies itemTemplate = groupContents
    | _ => itemTemplate = initialTemplate
    end.
Proof.
  unfold GroupTemplate.convertItemToTemplate.
  destruct (getGroupContents portal (id itemInfo)) as [contents | r | ]; simpl;
    [ | by intros [= <-] | done].
  destruct (getGroup portal (id itemInfo)) as [groupResponse | r | ]; simpl;
    [ | by intros [= <-] | done].
  destruct (getItemResources portal _) as [resources | r | ]; simpl;
    [ | by intros [= <-] | done].
  destruct (Resources.copyFilesToStorageItem _ _ _) as [saved | r | ]; simpl;
    [by intros [= <-] | done ..].
Qed.

End group_template_facts.

(** A group whose contents are listed while its base section cannot be
    fetched. *)
Definition contentsOnly : GroupTemplate.portalAnswers :=
  {| GroupTemplate.getGroupContents := λ _, Fulfilled ["map1"; "svc1"];
     GroupTemplate.getGroup := λ _, RejectedWith "403";
     GroupTemplate.getItemResources := λ _, Fulfilled [];
     GroupTemplate.files := completeAnswers |}.

Definition initializedGroup (itemInfo : GroupTemplate.groupItem)
  : GroupTemplate.IItemTemplate :=
  {| GroupTemplate.itemId := GroupTemplate.id itemInfo;
     GroupTemplate.type := "";
     GroupTemplate.item := itemInfo;
     GroupTemplate.dependencies := [];
     GroupTemplate.resources := [];
     GroupTemplate.estimatedDeploymentCostFactor := 0 |}.

Lemma X15_group_template_contents_witness :
  ∃ itemTemplate,
    GroupTemplate.convertItemToTemplate initializedGroup Templatizer.templatizeTerm
      (λ url, url +:+ "/") (λ url param, url +:+ "?" +:+ param) contentsOnly
      "https://www.arcgis.com/sharing/rest" "sol1"
      {| GroupTemplate.id := "grp1"; GroupTemplate.title := "Team";
         GroupTemplate.thumbnail := "" |}
    = Fulfilled itemTemplate
    ∧ GroupTemplate.id (GroupTemplate.item itemTemplate) = "{{grp1.itemId}}"
    ∧ GroupTemplate.type itemTemplate = "Group"
    ∧ GroupTemplate.dependencies itemTemplate = ["map1"; "svc1"].
Proof.
  eexists. split; [vm_compute; reflexivity | ].
  destruct (X15_group_template_contents initializedGroup Templatizer.templatizeTerm
              (λ url, url +:+ "/") (λ url param, url +:+ "?" +:+ param) contentsOnly
              "https://www.arcgis.com/sharing/rest" "sol1"
              {| GroupTemplate.id := "grp1"; GroupTemplate.title := "Team";
                 GroupTemplate.thumbnail := "" |}
              _ eq_refl)
    as (_ & Hid & _ & Htype & Hdeps).
  split; [exact Hid | ]. split; [exact Htype | exact Hdeps].
Defined.

(** ** Feature services behind the web maps of an application *)

Section web_map_dependencies_facts.
Import FieldRefs WebMapDependencies.

Variable templateTypeHash : list (string * hashItem).

(** Reading the id from the lookup object gives a value, an entry of its
    own or an inherited property, and not [undefined]. *)
Definition known (id : string) : Prop := readHash templateTypeHash id ≠ NoProperty.

(** The feature services among the dependencies of a web map. *)
Definition featureServicesOf (depObj : hashItem) : list string :=
  filter (λ d, hashType <$> objectGet templateTypeHash d = Some "Feature Service")
    (hashDependencies depObj).

(** What one dependency of a template contributes. *)
Definition contribution (dep : string) : list string :=
  match objectGet templateTypeHash dep with
  | Some depObj =>
      if decide (hashType depObj = "Web Map") then featureServicesOf depObj else []
  | None => []
  end.

(** Reading a dependency gives a value and, if it is the entry of a web
    map, so does reading each dependency of the web map. *)
Definition resolvable (dep : string) : Prop :=
  match readHash templateTypeHash dep with
  | OwnEntry depObj => hashType depObj = "Web Map" → Forall known (hashDependencies depObj)
  | InheritedProperty => True
  | NoProperty => False
  end.

Lemma readHash_own (key : string) (item : hashItem) :
  objectGet templateTypeHash key = Some item → readHash templateTypeHash key = OwnEntry item.
Proof. unfold readHash. by intros ->. Qed.

Lemma readHash_not_own (key : string) :
  objectGet templateTypeHash key = None →
  readHash templateTypeHash key
  = if decide (key ∈ Resolver.inheritedKeys) then InheritedProperty else NoProperty.
Proof. unfold readHash. by intros ->. Qed.

Lemma pushFeatureServices_cases (deps acc : list string) :
  (Forall known deps
   ∧ forEach deps (pushFeatureService templateTypeHash) acc
     = Returned (acc ++ filter (λ d, hashType <$> objectGet templateTypeHash d
                                     = Some "Feature Service") deps))
  ∨ (¬ Forall known deps
     ∧ forEach deps (pushFeatureService templateTypeHash) acc = Threw typeOfUndefined).
Proof.
  revert acc. induction deps as [ | d deps IH]; intros acc.
  - left. split; [done | ]. simpl. by rewrite filter_nil, app_nil_r.
  - cbn [forEach].
    assert (Hstep : pushFeatureService templateTypeHash d acc
                    = match readHash templateTypeHash d with
                      | OwnEntry item =>
                          if decide (hashType item = "Feature Service")
                          then Returned (acc ++ [d]) else Returned acc
                      | InheritedProperty => Returned acc
                      | NoProperty => Threw typeOfUndefined
                      end) by done.
    rewrite Hstep. clear Hstep.
    destruct (objectGet templateTypeHash d) as [item | ] eqn:Hd.
    + assert (Hknown : known d) by (unfold known; by rewrite (readHash_own _ _ Hd)).
      rewrite (readHash_own _ _ Hd).
      destruct (decide (hashType item = "Feature Service")) as [Hfs | Hfs]; cbn beta iota.
      * destruct (IH (acc ++ [d])) as [[Hall ->] | [Hnot ->]].
        -- left. split; [by constructor | ].
           rewrite filter_cons_True by (by rewrite Hd; simpl; rewrite Hfs).
           by rewrite <- app_assoc.
        -- right. split; [ | done]. by intros [_ H]%Forall_cons.
      * destruct (IH acc) as [[Hall ->] | [Hnot ->]].
        -- left. split; [by constructor | ].
           rewrite filter_cons_False; [done | ]. rewrite Hd. simpl. congruence.
        -- right. split; [ | done]. by intros [_ H]%Forall_cons.
    + pose proof (readHash_not_own _ Hd) as Hread.
      destruct (decide (d ∈ Resolver.inheritedKeys)) as [Hin | Hin]; rewrite Hread.
      * assert (Hknown : known d) by (unfold known; by rewrite Hread).
        destruct (IH acc) as [[Hall ->] | [Hnot ->]].
        -- left. split; [by constructor | ].
           rewrite filter_cons_False; [done | ]. by rewrite Hd.
        -- right. split; [ | done]. by intros [_ H]%Forall_cons.
      * right. split; [ | done]. intros [Hknown _]%Forall_cons. by apply Hknown.
Qed.

Lemma pushWebMapDependencies_cases (deps acc : list string) :
  (Forall resolvable deps
   ∧ forEach deps (pushWebMapDependencies templateTypeHash) acc
     = Returned (acc ++ (deps ≫= contribution)))
  ∨ (¬ Forall resolvable deps
     ∧ forEach deps (pushWebMapDependencies templateTypeHash) acc = Threw typeOfUndefined).
Proof.
  revert acc. induction deps as [ | dep deps IH]; intros acc.
  - left. split; [done | ]. simpl. by rewrite app_nil_r.
  - cbn [forEach]. rewrite bind_cons.
    assert (Hstep : pushWebMapDependencies templateTypeHash dep acc
                    = match readHash templateTypeHash dep with
                      | OwnEntry depObj =>
                          if decide (hashType depObj = "Web Map")
                          then forEach (hashDependencies depObj)
                                 (pushFeatureService templateTypeHash) acc
                          else Returned acc
                      | InheritedProperty => Returned acc
                      | NoProperty => Threw typeOfUndefined
                      end) by done.
    rewrite Hstep. clear Hstep.
    assert (Hdep' : contribution dep
                    = match objectGet templateTypeHash dep with
                      | Some depObj =>
                          if decide (hashType depObj = "Web Map")
                          then featureServicesOf depObj else []
                      | None => []
                      end) by done.
    rewrite Hdep'. clear Hdep'.
    assert (Hres : resolvable dep
                   = match readHash templateTypeHash dep with
                     | OwnEntry depObj =>
                         hashType depObj = "Web Map" → Forall known (hashDependencies depObj)
                     | InheritedProperty => True
                     | NoProperty => False
                     end) by done.
    destruct (objectGet templateTypeHash dep) as [depObj | ] eqn:Hdep.
    + rewrite (readHash_own _ _ Hdep) in Hres |- *.
      destruct (decide (hashType depObj = "Web Map")) as [Hmap | Hmap]; cbn beta iota.
      * destruct (pushFeatureServices_cases (hashDependencies depObj) acc)
          as [[Hall ->] | [Hnot ->]]; cbn beta iota.
        -- fold (featureServicesOf depObj).
           destruct (IH (acc ++ featureServicesOf depObj)) as [[Hrest ->] | [Hnot ->]].
           ++ left. split; [ | by rewrite <- app_assoc].
              constructor; [ | done]. by rewrite Hres.
           ++ right. split; [ | done]. by intros [_ H]%Forall_cons.
        -- right. split; [ | done]. intros [Hdeps _]%Forall_cons.
           rewrite Hres in Hdeps. by apply Hnot, Hdeps.
      * destruct (IH acc) as [[Hrest ->] | [Hnot ->]].
        -- left. split; [ | done]. constructor; [ | done]. by rewrite Hres.
        -- right. split; [ | done]. by intros [_ H]%Forall_cons.
    + rewrite (readHash_not_own _ Hdep) in Hres |- *.
      destruct (decide (dep ∈ Resolver.inheritedKeys)) as [Hin | Hin].
      * destruct (IH acc) as [[Hrest ->] | [Hnot ->]].
        -- left. split; [ | done]. constructor; [ | done]. by rewrite Hres.
        -- right. split; [ | done]. by intros [_ H]%Forall_cons.
      * right. split; [ | done]. intros [Hdeps _]%Forall_cons. by rewrite Hres in Hdeps.
Qed.

(** X16. [_getWebMapFSDependencies] returns the feature services that the
    web maps among the dependencies of the template depend on, in the
    order of the dependencies, when reading the lookup object gives a
    value for every dependency of the template and for every dependency
    of those web maps.  The value is an entry of the lookup object or,
    for a name such as [constructor], a property that the object
    inherits; an inherited property has no type, so that it contributes
    nothing and nothing is thrown.  When one of the ids is neither, the
    function throws a [TypeError]. *)
Theorem X16_feature_services_of_web_maps (template : IItemTemplate) :
  match _getWebMapFSDependencies template templateTypeHash with
  | Returned webMapFSDependencies =>
      Forall resolvable (dependencies template)
      ∧ webMapFSDependencies = dependencies template ≫= contribution
  | Threw msg => ¬ Forall resolvable (dependencies template) ∧ msg = typeOfUndefined
  | OutOfFuel => False
  end.
Proof.
  unfold _getWebMapFSDependencies.
  by destruct (pushWebMapDependencies_cases (dependencies template) [])
    as [[Hall ->] | [Hnot ->]].
Qed.

End web_map_dependencies_facts.

(** A dependency named [constructor] is read from the prototype of the
    lookup object, and the function returns; an id that is no property
    of the lookup object makes it throw. *)
Example inherited_dependency :
  WebMapDependencies._getWebMapFSDependencies
    {| FieldRefs.itemId := "app1"; FieldRefs.type := "Dashboard";
       FieldRefs.dependencies := ["constructor"];
       FieldRefs.operationalLayers := None; FieldRefs.tables := None |} []
  = Returned []
  ∧ WebMapDependencies._getWebMapFSDependencies
      {| FieldRefs.itemId := "app1"; FieldRefs.type := "Dashboard";
         FieldRefs.dependencies := ["map0"];
         FieldRefs.operationalLayers := None; FieldRefs.tables := None |} []
    = Threw WebMapDependencies.typeOfUndefined.
Proof. by vm_compute. Qed.

(** ** The layer ids that web maps give to feature services *)

Section map_layer_ids_facts.
Import JsString FieldRefs.

Variable cleanLayerBasedItemId : string → string.
Variable templateTypeHash : list (string * hashItem).

Lemma objectGet_elem {V : Type} (obj : list (string * V)) (key : string) (value : V) :
  objectGet obj key = Some value → (key, value) ∈ obj.
Proof.
  induction obj as [ | [k v] obj IH]; [done | ]. simpl.
  destruct (decide (k = key)) as [-> | Hne].
  - intros [= ->]. by left.
  - intros H. right. by apply IH.
Qed.

Lemma objectGet_NoDup {V : Type} (obj : list (string * V)) (key : string) (value : V) :
  NoDup obj.*1 → (key, value) ∈ obj → objectGet obj key = Some value.
Proof.
  induction obj as [ | [k v] obj IH]; intros Hnd Hin; [by apply elem_of_nil in Hin | ].
  rewrite fmap_cons in Hnd. apply NoDup_cons in Hnd as [Hk Hnd]. simpl.
  apply elem_of_cons in Hin as [[= <- <-] | Hin].
  - by rewrite decide_True.
  - rewrite decide_False; [by apply IH | ].
    intros ->. apply Hk. apply list_elem_of_fmap. by exists (key, value).
Qed.

Lemma webMapIdsOf_inv (webMapId : string) :
  webMapId ∈ webMapIdsOf templateTypeHash →
  ∃ item, (webMapId, item) ∈ templateTypeHash ∧ hashType item = "Web Map".
Proof.
  unfold webMapIdsOf. intros ([k item] & -> & Hin)%list_elem_of_fmap_1.
  apply list_elem_of_filter in Hin as [Htype Hin]. by exists item.
Qed.

(** The datasource is the same but for its layer ids. *)
Definition sameSource (ds ds' : IDatasourceInfo) : Prop :=
  dsItemId ds' = dsItemId ds ∧ dsLayerId ds' = dsLayerId ds
  ∧ basePath ds' = basePath ds ∧ dsUrl ds' = dsUrl ds.

(** [x] is the id that a web map of the lookup object gives to a layer
    that refers to the item [itemId] by the url [url]. *)
Definition layerOfWebMap (itemId url x : string) : Prop :=
  ∃ webMapId item opLayers opLayer,
    objectGet templateTypeHash webMapId = Some item
    ∧ hashType item = "Web Map"
    ∧ layersAndTables item = Some opLayers
    ∧ opLayer ∈ opLayers
    ∧ opLayer.1 = itemId
    ∧ hashLayerUrl opLayer.2 = Some url
    ∧ hashLayerId opLayer.2 = x.

(** The layer ids of [ds'] are those of [ds] followed by ids of layers of
    web maps; no id is attached twice. *)
Definition attachedTo (ds ds' : IDatasourceInfo) : Prop :=
  sameSource ds ds'
  ∧ ∃ new,
      ids ds' = ids ds ++ new
      ∧ (NoDup (ids ds) → NoDup (ids ds'))
      ∧ ∀ x, x ∈ new → layerOfWebMap (dsItemId ds) (expectedUrl ds) x.

Lemma attachedTo_refl (ds : IDatasourceInfo) : attachedTo ds ds.
Proof.
  split; [by split_and! | ]. exists []. rewrite app_nil_r. split_and!; [done .. | ].
  intros x Hx. by apply elem_of_nil in Hx.
Qed.

Lemma attachedTo_trans (ds1 ds2 ds3 : IDatasourceInfo) :
  attachedTo ds1 ds2 → attachedTo ds2 ds3 → attachedTo ds1 ds3.
Proof.
  intros [(A1 & B1 & C1 & D1) (new1 & E1 & N1 & F1)]
         [(A2 & B2 & C2 & D2) (new2 & E2 & N2 & F2)].
  split; [split_and!; congruence | ].
  exists (new1 ++ new2). split_and!.
  - by rewrite E2, E1, app_assoc.
  - auto.
  - intros x [Hx | Hx]%elem_of_app; [by apply F1 | ].
    specialize (F2 x Hx). unfold expectedUrl in *. by rewrite A1, B1, D1 in F2.
Qed.

Lemma attachLayerId_attachedTo (webMapId : string) (item : hashItem)
  (opLayers : list (string * hashLayer)) (opLayer : string * hashLayer)
  (ds : IDatasourceInfo) :
  objectGet templateTypeHash webMapId = Some item → hashType item = "Web Map" →
  layersAndTables item = Some opLayers → opLayer ∈ opLayers →
  attachedTo ds (attachLayerId ds opLayer).
Proof.
  intros Hget Htype Hlayers Hin. unfold attachLayerId.
  case_decide as Hkey; [ | apply attachedTo_refl].
  fold (expectedUrl ds).
  destruct (bool_decide (Some (expectedUrl ds) = hashLayerUrl opLayer.2)) eqn:Hurl;
    [ | apply attachedTo_refl].
  destruct (bool_decide (hashLayerId opLayer.2 ∉ ids ds)) eqn:Hnew;
    [ | apply attachedTo_refl].
  apply bool_decide_eq_true in Hurl, Hnew. simpl.
  split; [by split_and! | ]. exists [hashLayerId opLayer.2]. simpl. split_and!.
  - done.
  - intros Hnd. apply NoDup_app. split_and!; [done | | apply NoDup_singleton].
    by intros x Hx ->%list_elem_of_singleton.
  - intros x ->%list_elem_of_singleton. by exists webMapId, item, opLayers, opLayer.
Qed.

Lemma attachLayers_attachedTo (webMapId : string) (item : hashItem)
  (opLayers some : list (string * hashLayer)) (ds : IDatasourceInfo) :
  objectGet templateTypeHash webMapId = Some item → hashType item = "Web Map" →
  layersAndTables item = Some opLayers → some ⊆ opLayers →
  attachedTo ds (foldl attachLayerId ds some).
Proof.
  intros Hget Htype Hlayers. revert ds.
  induction some as [ | opLayer some IH]; intros ds Hsub; [apply attachedTo_refl | ].
  simpl. eapply attachedTo_trans.
  - eapply attachLayerId_attachedTo; [done .. | ]. apply Hsub. by left.
  - apply IH. intros x Hx. apply Hsub. by right.
Qed.

Lemma attachWebMaps_attachedTo (webMapIds : list string) (ds ds' : IDatasourceInfo) :
  NoDup templateTypeHash.*1 → webMapIds ⊆ webMapIdsOf templateTypeHash →
  forEach webMapIds (attachWebMap templateTypeHash) ds = Returned ds' →
  attachedTo ds ds'.
Proof.
  intros Hnd. revert ds. induction webMapIds as [ | w webMapIds IH]; intros ds Hsub.
  - intros [= <-]. apply attachedTo_refl.
  - cbn [forEach].
    assert (Hstep : attachWebMap templateTypeHash w ds
                    = match objectGet templateTypeHash w with
                      | Some item =>
                          match layersAndTables item with
                          | Some opLayers => Returned (foldl attachLayerId ds opLayers)
                          | None => Threw typeErrorMessage
                          end
                      | None => Threw typeErrorMessage
                      end) by done.
    rewrite Hstep. clear Hstep.
    destruct (objectGet templateTypeHash w) as [item | ] eqn:Hget; [ | done].
    destruct (layersAndTables item) as [opLayers | ] eqn:Hlayers; [ | done].
    intros Hrest. eapply attachedTo_trans.
    + destruct (webMapIdsOf_inv w) as (item' & Hin & Htype); [apply Hsub; by left | ].
      apply (objectGet_NoDup _ _ _ Hnd) in Hin. rewrite Hget in Hin. injection Hin as <-.
      by eapply attachLayers_attachedTo.
    + apply IH; [ | done]. intros x Hx. apply Hsub. by right.
Qed.

Lemma mapOutcome_Returned {A B : Type} (f : A → outcome B) (l : list A) (bs : list B) :
  mapOutcome f l = Returned bs →
  length bs = length l
  ∧ ∀ i a, l !! i = Some a → ∃ b, bs !! i = Some b ∧ f a = Returned b.
Proof.
  revert bs. induction l as [ | a l IH]; intros bs.
  - intros [= <-]. split; [done | ]. by intros i a.
  - cbn [mapOutcome]. destruct (f a) as [b | | ] eqn:Ha; [ | done ..].
    destruct (mapOutcome f l) as [bs' | | ]; [ | done ..]. intros [= <-].
    destruct (IH bs' eq_refl) as [Hlen Hall]. split; [simpl; by rewrite Hlen | ].
    intros [ | i] a'; simpl; [ | by apply Hall]. intros [= <-]. by exists b.
Qed.

(** X17. [_addMapLayerIds] only attaches, and only what a web map holds.
    A datasource that it returns is the one it was given with layer ids
    added at the end of [ids]; every id added is the id that a web map
    of the lookup object gives to a layer that refers to the item of
    the datasource by the url of its layer; and no id is attached twice:
    a list of ids without duplicates stays without duplicates.  The keys
    of the lookup object are distinct, as those of an object are. *)
Theorem X17_attached_ids_come_from_web_maps
  (datasourceInfos updated : list IDatasourceInfo) :
  NoDup templateTypeHash.*1 →
  _addMapLayerIds datasourceInfos templateTypeHash = Returned updated →
  length updated = length datasourceInfos
  ∧ ∀ i ds, datasourceInfos !! i = Some ds →
      ∃ ds',
        updated !! i = Some ds'
        ∧ dsItemId ds' = dsItemId ds ∧ dsLayerId ds' = dsLayerId ds
        ∧ basePath ds' = basePath ds ∧ dsUrl ds' = dsUrl ds
        ∧ (NoDup (ids ds) → NoDup (ids ds'))
        ∧ ∃ new,
            ids ds' = ids ds ++ new
            ∧ ∀ x, x ∈ new →
                ∃ webMapId item opLayers opLayer,
                  objectGet templateTypeHash webMapId = Some item
                  ∧ hashType item = "Web Map"
                  ∧ layersAndTables item = Some opLayers
                  ∧ opLayer ∈ opLayers
                  ∧ opLayer.1 = dsItemId ds
                  ∧ hashLayerUrl opLayer.2 = Some (expectedUrl ds)
                  ∧ hashLayerId opLayer.2 = x.
Proof.
  intros Hnd [Hlen Hall]%mapOutcome_Returned. split; [done | ].
  intros i ds Hi. destruct (Hall i ds Hi) as (ds' & Hi' & Hrun).
  apply attachWebMaps_attachedTo in Hrun
    as [(A & B & C & D) (new & Hids & Hnodup & Hnew)]; [ | done ..].
  exists ds'. split_and!; [done .. | ]. by exists new.
Qed.

End map_layer_ids_facts.

Section map_layer_ids_errors.
Import JsString FieldRefs.

Variable cleanLayerBasedItemId : string → string.

(** X18. A web map without layers and tables makes [_addMapLayerIds]
    throw.  The lookup object of such a web map has no [layersAndTables],
    so that for any datasource the loop over the web maps fails with a
    [TypeError]; only an empty list of datasources is passed through. *)
Theorem X18_web_map_without_layers_throws (templates : list IItemTemplate)
  (W : IItemTemplate) (datasourceInfos : list IDatasourceInfo) :
  NoDup (itemId <$> templates) → W ∈ templates → type W = "Web Map" →
  layersOf W = [] → datasourceInfos ≠ [] →
  _addMapLayerIds datasourceInfos (_getTemplateTypeHash cleanLayerBasedItemId templates)
  = Threw typeErrorMessage
  ∧ _addMapLayerIds [] (_getTemplateTypeHash cleanLayerBasedItemId templates)
    = Returned [].
Proof.
  intros Hnd HW Htype Hlayers Hds. split; [ | done].
  destruct datasourceInfos as [ | ds rest]; [done | ].
  unfold _addMapLayerIds. cbn [mapOutcome].
  rewrite (attachWebMaps_throw _ _ (itemId W)); [done | | ].
  - rewrite templateTypeHash_spec by done. by apply webMapIdsOf_elem.
  - intros ds'. unfold attachWebMap.
    rewrite templateTypeHash_spec, objectGet_templates by done.
    unfold hashItemOf, _updateWebMapHashInfo. rewrite decide_True by done.
    fold (layersOf W). rewrite Hlayers. simpl. done.
Qed.

End map_layer_ids_errors.

Lemma X18_web_map_without_layers_throws_witness :
  FieldRefs._addMapLayerIds [serviceLayerInfo 0]
    (FieldRefs._getTemplateTypeHash (λ itemId, itemId)
       [ webMapWith (heatmapLayer 3);
         {| FieldRefs.itemId := "map2"; FieldRefs.type := "Web Map";
            FieldRefs.dependencies := []; FieldRefs.operationalLayers := Some [];
            FieldRefs.tables := None |} ])
  = Threw FieldRefs.typeErrorMessage.
Proof.
  apply (X18_web_map_without_layers_throws (λ itemId, itemId)
           [ webMapWith (heatmapLayer 3);
             {| FieldRefs.itemId := "map2"; FieldRefs.type := "Web Map";
                FieldRefs.dependencies := []; FieldRefs.operationalLayers := Some [];
                FieldRefs.tables := None |} ]
           {| FieldRefs.itemId := "map2"; FieldRefs.type := "Web Map";
              FieldRefs.dependencies := []; FieldRefs.operationalLayers := Some [];
              FieldRefs.tables := None |}
           [serviceLayerInfo 0]);
    [compute_done | by right; left | reflexivity | reflexivity | done].
Defined.

Lemma X17_attached_ids_come_from_web_maps_witness :
  ∃ ds',
    [ {| FieldRefs.dsItemId := "svc1234567890"; FieldRefs.dsLayerId := FieldRefs.Num 12;
         FieldRefs.basePath := "svc1234567890.layer12.fields";
         FieldRefs.dsUrl := Some "{{svc1234567890.url}}";
         FieldRefs.ids := ["heatmap_7"] |} ] !! 0 = Some ds'
    ∧ NoDup (FieldRefs.ids ds').
Proof.
  destruct (X17_attached_ids_come_from_web_maps
              (FieldRefs._getTemplateTypeHash (λ itemId, itemId) [webMapWith (heatmapLayer 12)])
              [serviceLayerInfo 12]
              [ {| FieldRefs.dsItemId := "svc1234567890"; FieldRefs.dsLayerId := FieldRefs.Num 12;
                   FieldRefs.basePath := "svc1234567890.layer12.fields";
                   FieldRefs.dsUrl := Some "{{svc1234567890.url}}";
                   FieldRefs.ids := ["heatmap_7"] |} ])
    as [_ Hall]; [compute_done | vm_compute; reflexivity | ].
  destruct (Hall 0 (serviceLayerInfo 12) eq_refl) as (ds' & Hds' & _ & _ & _ & _ & Hnd & _).
  exists ds'. split; [exact Hds' | ]. apply Hnd. apply NoDup_nil_2.
Defined.

(** ** The dispatch on the type of an item *)

Section dispatch_facts.
Import JsString Resolver.

Variable args : runArguments.

(** The types that have a module, with their modules. *)
Definition convertedTypes : list (string * handlerModule) :=
  [("dashboard", simpleTypes); ("feature service", featureLayer); ("form", simpleTypes);
   ("group", simpleTypes); ("web map", simpleTypes);
   ("web mapping application", simpleTypes)].

Lemma lookupEntry_elem (entries : list (string * option handlerModule)) (key : string)
  (value : option handlerModule) :
  lookupEntry entries key = Some value → (key, value) ∈ entries.
Proof.
  induction entries as [ | [k v] entries IH]; [done | ]. simpl.
  destruct (decide (k = key)) as [-> | Hne].
  - intros [= ->]. by left.
  - intros H. right. by apply IH.
Qed.

Lemma moduleMap_Module (key : string) (m : handlerModule) :
  moduleMap key = Module m → (key, m) ∈ convertedTypes.
Proof.
  unfold moduleMap.
  destruct (lookupEntry moduleMapEntries key) as [[m' | ] | ] eqn:Hlookup;
    [intros [= ->] | done | by case_decide].
  apply lookupEntry_elem in Hlookup.
  assert (Hin : (key, Some m) ∈ filter (λ entry, is_Some entry.2) moduleMapEntries).
  { apply list_elem_of_filter. split; [by eexists | done]. }
  assert (Hsome : filter (λ entry : string * option handlerModule, is_Some entry.2)
                    moduleMapEntries
                  = (λ entry, (entry.1, Some entry.2)) <$> convertedTypes)
    by (vm_compute; reflexivity).
  rewrite Hsome in Hin. apply list_elem_of_fmap_1 in Hin as ([k h] & [= -> ->] & Hin).
  done.
Qed.

(** Only an extent that is truthy is replaced by the placeholder. *)
Example extent_placeholder :
  extent (templatizeExtent {| id := "map1"; infoType := "Web Map"; tags := [];
                              extent := Some "[[0,0],[1,1]]" |})
  = Some "{{solutionItemExtent}}"
  ∧ extent (templatizeExtent {| id := "map1"; infoType := "Web Map"; tags := [];
                                extent := Some "" |})
    = Some ""
  ∧ extent (templatizeExtent {| id := "map1"; infoType := "Web Map"; tags := [];
                                extent := None |})
    = None.
Proof. done. Qed.

(** X19. An item that [getItem] has fetched is handed to a converter
    only if it is not tagged [deploy.thumbnail] and its type, in lower
    case, is one of dashboard,
    feature service, form, group, web map and web mapping application;
    the feature service goes to the feature-layer module and the others
    to the simple-types module.  The converter is given the item with
    its extent replaced by the placeholder when the extent is truthy; an
    item without an extent, or with an empty one, is given as it is. *)
Theorem X19_only_six_types_are_converted (s s1 : state) (p : nat)
  (info itemInfo : ItemInfo) (itemHandler : handlerModule) :
  step args p (ItemFetched info) s = Some s1 →
  promises s1 !! p = Some (Waiting (AwaitConvert itemHandler itemInfo)) →
  ("deploy.thumbnail" ∉ tags info)
  ∧ itemInfo = templatizeExtent info
  ∧ (toLowerCase (infoType info), itemHandler) ∈ convertedTypes.
Proof.
  unfold step. destruct (promises s !! p) as [[k | | ] | ] eqn:Hp; [ | done ..].
  assert (Hlt : p < length (promises s)) by (by eapply lookup_lt_Some).
  destruct k; try done. intros [= <-]. unfold onItemFetched.
  rewrite tags_templatizeExtent, infoType_templatizeExtent.
  case_decide as Htag; simpl; [by rewrite list_lookup_insert_eq | ].
  destruct (moduleMap (toLowerCase (infoType info))) as [ | | m | ] eqn:Hmodule; simpl;
    rewrite list_lookup_insert_eq by done; try done.
  intros [= <- <-]. split; [done | ]. split; [done | ]. by apply moduleMap_Module.
Qed.

End dispatch_facts.

Lemma X19_only_six_types_are_converted_witness :
  (Resolver.toLowerCase "Web Map", Resolver.simpleTypes) ∈ convertedTypes.
Proof.
  destruct (Resolver.step demoArguments 0
              (Resolver.ItemFetched
                 {| Resolver.id := "map1234567890"; Resolver.infoType := "Web Map";
                    Resolver.tags := []; Resolver.extent := None |})
              (Resolver.createItemTemplate "map1234567890" Resolver.emptyRun).1)
    as [s1 | ] eqn:Hstep; [ | vm_compute in Hstep; discriminate].
  refine (proj2 (proj2 (X19_only_six_types_are_converted demoArguments _ s1 0
                          {| Resolver.id := "map1234567890"; Resolver.infoType := "Web Map";
                             Resolver.tags := []; Resolver.extent := None |}
                          {| Resolver.id := "map1234567890"; Resolver.infoType := "Web Map";
                             Resolver.tags := []; Resolver.extent := None |}
                          Resolver.simpleTypes Hstep _))).
  vm_compute in Hstep. injection Hstep as <-. reflexivity.
Defined.

(** ** Files that are left out of the storage *)

Section left_out_facts.
Import JsString Resources.

Variable portal : portalAnswers.
Variable storageItemId : string.

(** The blob is taken for the JSON of an error: it is plain text or JSON,
    and either reading [json.error] throws (the text is not JSON, or is
    the JSON [null]) or [json.error] is truthy. *)
Definition takenForError (blob : Blob) : Prop :=
  (startsWith (blobType blob) "text/plain" = true ∨ blobType blob = "application/json")
  ∧ jsonErrorTruthy blob ≠ Some false.

Lemma not_copied (fp : ISourceFileCopyPath) :
  (filename fp ≠ "" ∧ includes (filename fp) "." = false)
  ∨ (∃ blob, getBlob portal (url fp) = Fulfilled blob ∧ takenForError blob) →
  ¬ copied portal storageItemId fp.
Proof.
  unfold copied, copyResource. intros Hcase.
  destruct (getBlob portal (url fp)) as [blob | r | ] eqn:Hblob; cbn [thenElse]; [ | done ..].
  destruct Hcase as [[Hname Hdot] | (blob' & Heq & [Htype Hjson])];
    [ | injection Heq as Heq; subst blob'].
  - assert (Hadd : addResourceFromBlob portal blob storageItemId (folder fp) (filename fp)
                   = RejectedWith extensionReason).
    { unfold addResourceFromBlob. by rewrite bool_decide_true, Hdot. }
    rewrite Hadd. cbn [thenElse].
    destruct (_ || _); [ | done]. by destruct (jsonErrorTruthy blob) as [[ | ] | ].
  - assert (Htest : startsWith (blobType blob) "text/plain"
                    || bool_decide (blobType blob = "application/json") = true).
    { destruct Htype as [-> | Htype]; [done | ].
      rewrite (bool_decide_true _ Htype). apply orb_true_r. }
    rewrite Htest. by destruct (jsonErrorTruthy blob) as [[ | ] | ].
Qed.

(** X20. Two kinds of files are left out of the storage without an
    error: a file whose name has no extension, and a file whose content
    is plain text or JSON and either fails in the [try] block of
    [copyResource] (it is not JSON, or it is the JSON [null]) or parses
    to a value whose [error] property is truthy.  In the list that
    [copyFilesToStorageItem] resolves with, the place of such a file
    holds the empty name.  A JSON file whose [error] property is falsy,
    as in [{error: false}], is not among them: it is stored. *)
Theorem X20_files_left_out (filePaths : list ISourceFileCopyPath) (saved : list string)
  (i : nat) (fp : ISourceFileCopyPath) :
  copyFilesToStorageItem portal filePaths storageItemId = Fulfilled saved →
  filePaths !! i = Some fp →
  (filename fp ≠ "" ∧ includes (filename fp) "." = false)
  ∨ (∃ blob, getBlob portal (url fp) = Fulfilled blob ∧ takenForError blob) →
  saved !! i = Some "".
Proof.
  intros Hsaved Hi Hcase%not_copied. unfold copyFilesToStorageItem in Hsaved.
  destruct (Promise_all _) as [l | r | ] eqn:E; simpl in Hsaved; [ | done ..].
  injection Hsaved as ->. apply Promise_all_Fulfilled in E.
  apply (f_equal (λ ps, ps !! i)) in E. rewrite !list_lookup_fmap, Hi in E. simpl in E.
  destruct (copyThisFile_cases portal storageItemId fp) as [[Hc _] | [_ [Hthis | Hthis]]];
    [done | | ]; rewrite Hthis in E; destruct (saved !! i); simpl in E; congruence.
Qed.

End left_out_facts.

(** A portal that has every file, one of them being a text that is not
    JSON. *)
Definition textAnswers : Resources.portalAnswers :=
  {| Resources.getBlob := λ url,
       if decide (url = "https://www.arcgis.com/sharing/rest/content/items/itm1/resources/notes.txt")
       then Fulfilled {| Resources.blobType := "text/plain; charset=utf-8";
                         Resources.jsonErrorTruthy := None |}
       else Fulfilled {| Resources.blobType := "image/png";
                         Resources.jsonErrorTruthy := None |};
     Resources.addItemResource := λ _ _ _ _, Fulfilled () |}.

(** A JSON file whose [error] property is falsy is stored. *)
Example falsy_error_is_stored :
  Resources.copyFilesToStorageItem
    {| Resources.getBlob := λ _,
         Fulfilled {| Resources.blobType := "application/json";
                      Resources.jsonErrorTruthy := Some false |};
       Resources.addItemResource := λ _ _ _ _, Fulfilled () |}
    [ {| Resources.url := "https://www.arcgis.com/sharing/rest/content/items/itm1/resources/state.json";
         Resources.folder := "itm1"; Resources.filename := "state.json" |} ]
    "sol1"
  = Fulfilled ["itm1/state.json"].
Proof. by vm_compute. Qed.

Lemma X20_files_left_out_witness :
  ["itm1/logo.png"; ""] !! 1 = Some "".
Proof.
  apply (X20_files_left_out textAnswers "sol1"
           [ {| Resources.url := "https://www.arcgis.com/sharing/rest/content/items/itm1/resources/logo.png";
                Resources.folder := "itm1"; Resources.filename := "logo.png" |};
             {| Resources.url := "https://www.arcgis.com/sharing/rest/content/items/itm1/resources/notes.txt";
                Resources.folder := "itm1"; Resources.filename := "notes.txt" |} ]
           ["itm1/logo.png"; ""] 1
           {| Resources.url := "https://www.arcgis.com/sharing/rest/content/items/itm1/resources/notes.txt";
              Resources.folder := "itm1"; Resources.filename := "notes.txt" |});
    [vm_compute; reflexivity | reflexivity | ].
  right. eexists. split; [vm_compute; reflexivity | ]. split; [by left | done].
Defined.

(** ** Deployment of groups: a copy that fails *)

Section group_copy_failure.
Import Templatizer GroupDeploy.

Variable getUniqueTitle : string → templateDictionary → string → string.

(** X21. When the group has been created and the copy of its files is
    rejected, [createItemFromTemplate] rejects, but the dictionary it
    shares with the caller keeps the id of the new group under the id of
    the template, and the progress callback has been called once. *)
Theorem X21_failed_copy_leaves_the_new_id (template : IItemTemplate)
  (resourceFilePaths : list string) (destination : deployAnswers) (st : deployState)
  (newId reason : string) :
  createGroup destination (groupToCreate getUniqueTitle template (templateDictionaryOf st))
  = Fulfilled {| success := true; groupId := newId |} →
  copyFilesFromStorageItem destination resourceFilePaths newId = RejectedWith reason →
  ∃ st',
    createItemFromTemplate getUniqueTitle template resourceFilePaths destination st
    = (st', RejectedWith Resources.failReason)
    ∧ dictionaryGet (templateDictionaryOf st') (itemId template) = Some [("itemId", newId)]
    ∧ (∀ key, key ≠ itemId template →
         dictionaryGet (templateDictionaryOf st') key
         = dictionaryGet (templateDictionaryOf st) key)
    ∧ progressTicks st' = S (progressTicks st).
Proof.
  intros Hcreate Hcopy. unfold createItemFromTemplate. rewrite Hcreate. simpl.
  rewrite Hcopy. eexists. split; [done | ]. simpl. split_and!.
  - apply dictionaryGet_set.
  - intros key Hkey. by apply dictionaryGet_set_other.
  - done.
Qed.

End group_copy_failure.

Lemma X21_failed_copy_leaves_the_new_id_witness :
  ∃ st',
    GroupDeploy.createItemFromTemplate (λ title _ _, title)
      {| GroupDeploy.itemId := "grp1";
         GroupDeploy.type := "Group";
         GroupDeploy.item := {| GroupDeploy.id := "{{grp1.itemId}}";
                                GroupDeploy.title := "Team";
                                GroupDeploy.access := "public" |} |}
      ["grp1_info_thumbnail/thumb.png"]
      {| GroupDeploy.createGroup := λ _,
           Fulfilled {| GroupDeploy.success := true; GroupDeploy.groupId := "new1" |};
         GroupDeploy.copyFilesFromStorageItem := λ _ _, RejectedWith "500" |}
      {| GroupDeploy.templateDictionaryOf := []; GroupDeploy.progressTicks := 0 |}
    = (st', RejectedWith Resources.failReason)
    ∧ GroupDeploy.dictionaryGet (GroupDeploy.templateDictionaryOf st') "grp1"
      = Some [("itemId", "new1")].
Proof.
  destruct (X21_failed_copy_leaves_the_new_id (λ title _ _, title)
              {| GroupDeploy.itemId := "grp1";
                 GroupDeploy.type := "Group";
                 GroupDeploy.item := {| GroupDeploy.id := "{{grp1.itemId}}";
                                        GroupDeploy.title := "Team";
                                        GroupDeploy.access := "public" |} |}
              ["grp1_info_thumbnail/thumb.png"]
              {| GroupDeploy.createGroup := λ _,
                   Fulfilled {| GroupDeploy.success := true; GroupDeploy.groupId := "new1" |};
                 GroupDeploy.copyFilesFromStorageItem := λ _ _, RejectedWith "500" |}
              {| GroupDeploy.templateDictionaryOf := []; GroupDeploy.progressTicks := 0 |}
              "new1" "500" eq_refl eq_refl)
    as (st' & Hrun & Hget & _).
  exists st'. split; [exact Hrun | exact Hget].
Defined.

(** ** The files of a form *)

Section form_files_facts.
Import JsString StorageNames ResourceHelpers.

Variable checkUrlPathTermination : string → string.
Variable portal : Resources.portalAnswers.
Variable portalUrl : string.
Variable itemTemplate : IItemTemplate.
Variable solutionItemId : string.

Local Abbreviation storeFormItemFiles itemData :=
  (storeFormItemFiles checkUrlPathTermination portal portalUrl itemTemplate itemData
     solutionItemId).
Local Abbreviation storageNameOf data :=
  (generateResourceStorageFilename (itemId itemTemplate) (dataFilename itemTemplate data)
     "info_data").

Lemma endsWith_app_cases (x a b : string) :
  endsWith (x +:+ a) b = true → endsWith a b = true ∨ endsWith b a = true.
Proof.
  induction x as [ | c x IH]; [by left | ].
  rewrite append_cons. cbn [endsWith].
  intros [Heq%bool_decide_eq_true | H]%orb_prop; [ | by apply IH].
  right. rewrite <- Heq. apply (endsWith_app (String c x) a).
Qed.

Lemma copyFiles_cases (filePaths : list Resources.ISourceFileCopyPath) :
  (∃ saved, Resources.copyFilesToStorageItem portal filePaths solutionItemId
            = Fulfilled saved)
  ∨ Resources.copyFilesToStorageItem portal filePaths solutionItemId = Pending.
Proof.
  unfold Resources.copyFilesToStorageItem.
  destruct (Promise_all _) as [saved | r | ] eqn:E; simpl; [by left; exists saved | | by right].
  by destruct (Promise_all_never_rejected portal solutionItemId filePaths r).
Qed.

(** X22. Storing the files of a form fails only for the data of the
    form.  Without data [storeFormItemFiles] never rejects.  With data it
    writes the name of the data to the template, rejects exactly when
    storing the data is rejected, and with the same reason, which is the
    case for a data file whose name has no extension; and when it
    resolves, the stored name of the data comes first in the list. *)
Theorem X22_form_files_fail_only_for_the_data :
  (∀ reason, (storeFormItemFiles None).2 ≠ RejectedWith reason)
  ∧ (storeFormItemFiles None).1 = itemTemplate
  ∧ ∀ data,
      (storeFormItemFiles (Some data)).1
      = {| itemId := itemId itemTemplate; name := dataFilename itemTemplate data |}
      ∧ dataFilename itemTemplate data ≠ ""
      ∧ (∀ reason,
           (storeFormItemFiles (Some data)).2 = RejectedWith reason
           ↔ storeFormData portal itemTemplate data solutionItemId = RejectedWith reason)
      ∧ (filename (storageNameOf data) ≠ "" →
         includes (filename (storageNameOf data)) "." = false →
         (storeFormItemFiles (Some data)).2 = RejectedWith Resources.extensionReason)
      ∧ (∀ names,
           (storeFormItemFiles (Some data)).2 = Fulfilled names →
           head names = Some (storedAs (storageNameOf data))).
Proof.
  unfold ResourceHelpers.storeFormItemFiles. split; [ | split; [done | ]].
  - intros reason. cbn [fst snd app Promise_all].
    by destruct (copyFiles_cases
                   (generateSourceFormFilePaths checkUrlPathTermination portalUrl
                      (itemId itemTemplate))) as [[saved ->] | ->].
  - intros data. cbn [fst snd app Promise_all itemId].
    split; [done | ]. split.
    { unfold dataFilename. repeat case_bool_decide; done. }
    set (copy := Resources.copyFilesToStorageItem _ _ _).
    assert (Hcopy : (∃ saved, copy = Fulfilled saved) ∨ copy = Pending)
      by apply copyFiles_cases.
    split; [ | split].
    + intros reason.
      destruct (storeFormData portal itemTemplate data solutionItemId) as [set | r | ];
        destruct Hcopy as [[saved ->] | ->]; simpl; split; congruence.
    + intros Hname Hdot.
      assert (Hdata : storeFormData portal itemTemplate data solutionItemId
                      = RejectedWith Resources.extensionReason).
      { unfold storeFormData, Resources.addResourceFromBlob.
        by rewrite bool_decide_true, Hdot. }
      rewrite Hdata. by destruct Hcopy as [[saved ->] | ->].
    + intros names. unfold storeFormData.
      destruct (Resources.addResourceFromBlob _ _ _ _ _) as [[] | r | ];
        destruct Hcopy as [[saved ->] | ->]; simpl; try done.
      intros [= <-]. rewrite filter_cons_True; [done | ].
      unfold Resources.truthy. by destruct (folder _).
Qed.

(** X23. The data of a form is recognised again: for an item id and a
    file name without ["/"], the name under which [storeFormItemFiles]
    stores the data is read back by [generateResourceFilenameFromStorage]
    as data with the same file name. *)
Theorem X23_form_data_round_trip (formId dataName : string) :
  includes formId "/" = false → includes dataName "/" = false →
  generateResourceFilenameFromStorage
    (storedAs (generateResourceStorageFilename formId dataName "info_data"))
  = Returned {| deployType := Data; deployFolder := formId +:+ "_info_data";
                deployFilename := Some dataName |}.
Proof.
  intros Hid Hname. unfold generateResourceStorageFilename.
  rewrite (split_whole _ dataName Hname). cbn [length]. rewrite decide_False by lia.
  rewrite bool_decide_true by done.
  change (formId +:+ "_" +:+ "info_data") with (formId +:+ "_info_data").
  unfold storedAs. cbn [folder filename].
  unfold generateResourceFilenameFromStorage.
  rewrite fromStorage_parts; [ | by rewrite has_app, Hid | done].
  cbn [lookup list_lookup default from_option id].
  rewrite (endsWith_other formId "_info_data" "_info_thumbnail") by done.
  assert (Hmeta : endsWith (formId +:+ "_info_data") "_info_metadata" = false).
  { destruct (endsWith (formId +:+ "_info_data") "_info_metadata") eqn:E; [ | done].
    by apply endsWith_app_cases in E as [E | E]; vm_compute in E. }
  rewrite Hmeta, (endsWith_other formId "_info_data" "_info") by done.
  by rewrite endsWith_app.
Qed.

End form_files_facts.

Lemma X23_form_data_round_trip_witness :
  StorageNames.generateResourceFilenameFromStorage "frm1_info_data/formData.zip"
  = Returned {| StorageNames.deployType := StorageNames.Data;
                StorageNames.deployFolder := "frm1_info_data";
                StorageNames.deployFilename := Some "formData.zip" |}.
Proof. apply (X23_form_data_round_trip "frm1" "formData.zip"); reflexivity. Defined.

(** ** Reading the stored names back *)

Section storage_paths_facts.
Import JsString StorageNames.

Variable checkUrlPathTermination : string → string.
Variable portalSharingUrl : string.
Variable storageItemId : string.

Lemma split_second (s : string) :
  includes s "/" = true → ∃ first second others, split "/" s = first :: second :: others.
Proof.
  induction s as [ | c s IH]; [done | ].
  rewrite has_cons. cbn [split]. destruct (decide (c = "/"%char)) as [-> | Hne].
  - intros _. pose proof (split_nonempty "/" s) as Hnil.
    destruct (split "/" s) as [ | second others]; [done | ]. by eexists _, _, _.
  - rewrite bool_decide_false by done. intros (first & second & others & ->)%IH.
    by eexists _, _, _.
Qed.

Lemma fromStorage_returns (storageResourceFilename : string) :
  includes storageResourceFilename "/" = true →
  ∃ name, generateResourceFilenameFromStorage storageResourceFilename = Returned name.
Proof.
  intros (first & second & others & Hsplit)%split_second.
  unfold generateResourceFilenameFromStorage. rewrite Hsplit.
  cbn [lookup list_lookup default from_option id].
  repeat (destruct (endsWith first _); [by eexists | ]). by eexists.
Qed.

(** X24. What has been stored can be read back: for stored names that
    hold a ["/"], as every name that [copyFilesToStorageItem] reports
    does, [generateStorageFilePaths] does not throw and returns one path
    per name, in order, with the url of the resource in the storage item
    and the folder, file name and type read from the name.  A missing
    list of names gives no path. *)
Theorem X24_stored_names_are_read_back (resourceFilenames : list string) :
  Forall (λ resourceFilename, includes resourceFilename "/" = true) resourceFilenames →
  generateStorageFilePaths checkUrlPathTermination portalSharingUrl storageItemId None
  = Returned []
  ∧ ∃ filePaths,
      generateStorageFilePaths checkUrlPathTermination portalSharingUrl storageItemId
        (Some resourceFilenames)
      = Returned filePaths
      ∧ length filePaths = length resourceFilenames
      ∧ ∀ i resourceFilename,
          resourceFilenames !! i = Some resourceFilename →
          ∃ filePath,
            filePaths !! i = Some filePath
            ∧ deployUrl filePath
              = generateSourceResourceUrl checkUrlPathTermination portalSharingUrl
                  storageItemId resourceFilename
            ∧ generateResourceFilenameFromStorage resourceFilename
              = Returned (deployName filePath).
Proof.
  intros Hall. split; [done | ]. unfold generateStorageFilePaths.
  apply mapOutcome_spec. intros resourceFilename Hin.
  rewrite Forall_forall in Hall.
  destruct (fromStorage_returns resourceFilename (Hall _ Hin)) as [name ->].
  by eexists.
Qed.

End storage_paths_facts.

Lemma X24_stored_names_are_read_back_witness :
  ∃ filePaths,
    StorageNames.generateStorageFilePaths (λ url, url +:+ "/")
      "https://www.arcgis.com/sharing/rest" "sol1"
      (Some ["exp1/data.json"; "exp1_info_thumbnail/ago_downloaded.png"])
    = Returned filePaths
    ∧ length filePaths = 2.
Proof.
  destruct (X24_stored_names_are_read_back (λ url, url +:+ "/")
              "https://www.arcgis.com/sharing/rest" "sol1"
              ["exp1/data.json"; "exp1_info_thumbnail/ago_downloaded.png"])
    as [_ (filePaths & Hpaths & Hlen & _)]; [compute_done | ].
  exists filePaths. split; [exact Hpaths | exact Hlen].
Defined.

(** ** The lookup object of the templates *)

Section template_type_hash_facts.
Import JsString FieldRefs.

Variable cleanLayerBasedItemId : string → string.

Local Abbreviation hashItemOf := (hashItemOf cleanLayerBasedItemId).
Local Abbreviation _getTemplateTypeHash := (_getTemplateTypeHash cleanLayerBasedItemId).




End template_type_hash_facts.

(** ** Attaching the layer ids a second time *)

Section map_layer_ids_again.
Import JsString FieldRefs.

Variable templateTypeHash : list (string * hashItem).

(** Every layer that refers to the datasource has its id among the ids
    of the datasource. *)
Definition saturated (ds : IDatasourceInfo) (opLayers : list (string * hashLayer)) : Prop :=
  ∀ opLayer, opLayer ∈ opLayers → matchesLayer ds opLayer → hashLayerId opLayer.2 ∈ ids ds.

Lemma grown_matches_inv (ds ds' : IDatasourceInfo) (opLayer : string * hashLayer) :
  grown ds ds' → matchesLayer ds' opLayer → matchesLayer ds opLayer.
Proof.
  intros (A & B & C & _) [M1 M2]. unfold matchesLayer, expectedUrl in *.
  by rewrite <- A, <- B, <- C.
Qed.

Lemma attachLayerId_saturated (ds : IDatasourceInfo) (opLayer : string * hashLayer) :
  (matchesLayer ds opLayer → hashLayerId opLayer.2 ∈ ids ds) →
  attachLayerId ds opLayer = ds.
Proof.
  intros Hsat. unfold attachLayerId. case_decide as Hkey; [ | done].
  fold (expectedUrl ds).
  destruct (bool_decide (Some (expectedUrl ds) = hashLayerUrl opLayer.2)) eqn:Hurl; [ | done].
  apply bool_decide_eq_true in Hurl.
  rewrite bool_decide_false; [done | ]. intros Hnot. by apply Hnot, Hsat.
Qed.

Lemma attachLayers_saturated (opLayers : list (string * hashLayer)) (ds : IDatasourceInfo) :
  saturated ds opLayers → foldl attachLayerId ds opLayers = ds.
Proof.
  induction opLayers as [ | opLayer opLayers IH]; intros Hsat; [done | ].
  cbn [foldl]. rewrite attachLayerId_saturated by (apply Hsat; by left).
  apply IH. intros op Hop. apply Hsat. by right.
Qed.

Lemma attachWebMaps_layers (webMapIds : list string) (ds ds' : IDatasourceInfo) :
  forEach webMapIds (attachWebMap templateTypeHash) ds = Returned ds' →
  ∀ webMapId, webMapId ∈ webMapIds →
    ∃ item opLayers, objectGet templateTypeHash webMapId = Some item
                     ∧ layersAndTables item = Some opLayers.
Proof.
  revert ds. induction webMapIds as [ | w webMapIds IH]; intros ds Hrun webMapId Hin;
    [by apply elem_of_nil in Hin | ].
  cbn [forEach] in Hrun.
  assert (Hstep : attachWebMap templateTypeHash w ds
                  = match objectGet templateTypeHash w with
                    | Some item =>
                        match layersAndTables item with
                        | Some opLayers => Returned (foldl attachLayerId ds opLayers)
                        | None => Threw typeErrorMessage
                        end
                    | None => Threw typeErrorMessage
                    end) by done.
  rewrite Hstep in Hrun. clear Hstep.
  destruct (objectGet templateTypeHash w) as [item | ] eqn:Hget; [ | done].
  destruct (layersAndTables item) as [opLayers | ] eqn:Hlayers; [ | done].
  apply elem_of_cons in Hin as [-> | Hin]; [by exists item, opLayers | by eapply IH].
Qed.

Lemma attachWebMaps_saturated (webMapIds : list string) (ds : IDatasourceInfo) :
  (∀ webMapId, webMapId ∈ webMapIds →
     ∃ item opLayers, objectGet templateTypeHash webMapId = Some item
                      ∧ layersAndTables item = Some opLayers ∧ saturated ds opLayers) →
  forEach webMapIds (attachWebMap templateTypeHash) ds = Returned ds.
Proof.
  induction webMapIds as [ | w webMapIds IH]; intros Hall; [done | ].
  cbn [forEach]. destruct (Hall w) as (item & opLayers & Hget & Hlayers & Hsat); [by left | ].
  assert (Hstep : attachWebMap templateTypeHash w ds = Returned ds).
  { unfold attachWebMap. by rewrite Hget, Hlayers, attachLayers_saturated. }
  rewrite Hstep. apply IH. intros webMapId Hin. apply Hall. by right.
Qed.

Lemma attachWebMaps_again (webMapIds : list string) (ds ds' : IDatasourceInfo) :
  forEach webMapIds (attachWebMap templateTypeHash) ds = Returned ds' →
  forEach webMapIds (attachWebMap templateTypeHash) ds' = Returned ds'.
Proof.
  intros Hrun. pose proof (attachWebMaps_layers _ _ _ Hrun) as Hlayers.
  destruct (attachWebMaps_spec templateTypeHash webMapIds ds Hlayers)
    as (ds'' & Hrun' & Hgrown & Hids).
  rewrite Hrun in Hrun'. injection Hrun' as <-.
  apply attachWebMaps_saturated. intros webMapId Hin.
  destruct (Hlayers webMapId Hin) as (item & opLayers & Hget & Hlay).
  exists item, opLayers. split; [done | ]. split; [done | ].
  intros opLayer Hop Hmatch. eapply Hids; [done .. | ].
  by eapply grown_matches_inv.
Qed.

(** X26. Attaching the layer ids a second time changes nothing: the
    datasources that [_addMapLayerIds] returns are returned as they are
    when the function is applied to them again with the same lookup
    object.  So the datasources, which the function updates in place and
    which the templates of a solution share, may pass through it once
    for every template. *)
Theorem X26_attaching_twice_changes_nothing
  (datasourceInfos updated : list IDatasourceInfo) :
  _addMapLayerIds datasourceInfos templateTypeHash = Returned updated →
  _addMapLayerIds updated templateTypeHash = Returned updated.
Proof.
  unfold _addMapLayerIds. revert updated.
  induction datasourceInfos as [ | ds datasourceInfos IH]; intros updated.
  - by intros [= <-].
  - cbn [mapOutcome].
    destruct (forEach _ _ ds) as [ds' | | ] eqn:Hds; [ | done ..].
    destruct (mapOutcome _ datasourceInfos) as [rest | | ] eqn:Hrest; [ | done ..].
    intros [= <-]. cbn [mapOutcome].
    by rewrite (attachWebMaps_again _ _ _ Hds), (IH rest eq_refl).
Qed.

End map_layer_ids_again.

Lemma X26_attaching_twice_changes_nothing_witness :
  FieldRefs._addMapLayerIds
    [ {| FieldRefs.dsItemId := "svc1234567890"; FieldRefs.dsLayerId := FieldRefs.Num 12;
         FieldRefs.basePath := "svc1234567890.layer12.fields";
         FieldRefs.dsUrl := Some "{{svc1234567890.url}}";
         FieldRefs.ids := ["heatmap_7"] |} ]
    (FieldRefs._getTemplateTypeHash (λ itemId, itemId) [webMapWith (heatmapLayer 12)])
  = Returned
      [ {| FieldRefs.dsItemId := "svc1234567890"; FieldRefs.dsLayerId := FieldRefs.Num 12;
           FieldRefs.basePath := "svc1234567890.layer12.fields";
           FieldRefs.dsUrl := Some "{{svc1234567890.url}}";
           FieldRefs.ids := ["heatmap_7"] |} ].
Proof.
  apply (X26_attaching_twice_changes_nothing
           (FieldRefs._getTemplateTypeHash (λ itemId, itemId) [webMapWith (heatmapLayer 12)])
           [serviceLayerInfo 12]).
  vm_compute. reflexivity.
Defined.

(** ** Round trip of the Reference Templatizer *)

Section round_trip_facts.
Import JsString Templatizer.

Local Abbreviation has s c := (includes s (String c EmptyString)).









Section delimited.

Variables I I2 : string.
Variables c d : ascii.
Hypothesis I_nonempty : I ≠ "".
Hypothesis same_length : String.length I2 = String.length I.
Hypothesis distinct : I2 ≠ I.
Hypothesis I_c : has I c = false.
Hypothesis I_d : has I d = false.
Hypothesis I2_c : has I2 c = false.
Hypothesis I2_d : has I2 d = false.

Local Abbreviation substituted := (replaceAll I I2).








End delimited.


End round_trip_facts.


